(** * rexpro-ai: request orchestration, response finalization and project file tree

    A shallow embedding of the send/stream/finalize core of the chat client
    ([App.tsx], two revisions, and [services/geminiService.ts]) together with
    the properties its specification states about it.

    Conventions of the embedding.
    - A JavaScript string is the [string] of its bytes in UTF-8 (a lone
      surrogate, which [substring] can leave, is written like any other code
      unit of its range). Offsets inside the embedding count bytes; where the
      source counts UTF-16 code units ([length], [substring(0, n)]) the
      embedding counts them too ([Js.length], [Js.substringTo]). [trim] and
      the class [\s] strip the code points of WhiteSpace and LineTerminator.
    - A plain JavaScript object used as a dictionary is a [gmap string _] of
      its own properties. Where the source looks a key up with
      [object[key]], the members every object inherits from
      [Object.prototype] are found too ([FileTree.get]); what the source
      writes on them is kept in a [Realm].
    - An object that the source mutates in place is threaded through the
      embedding: a function returns the mutated object next to its result.
    - React state setters take effect in program order. *)

From Stdlib Require Import Ascii.
From stdpp Require Import gmap strings list.

Set Default Proof Using "Type".
#[global] Set Warnings "-register-all".

(* ================================================================== *)
(** * Part I. Definitions *)
(* ================================================================== *)

(** ** JavaScript string operations used by the handlers *)

Module Js.

(** [s.startsWith(p)] *)
Definition startsWith (p s : string) : bool := String.prefix p s.

(** Remove the first [n] characters. *)
Fixpoint drop (n : nat) (s : string) : string :=
  match n, s with
  | O, _ => s
  | S n', String _ s' => drop n' s'
  | S _, EmptyString => EmptyString
  end.

(** Cut [s] at the first occurrence of [needle]: the text before it and the
    text after it. This is [s.indexOf(needle)] together with the two slices
    around the hit; [None] is the [-1] of [indexOf]. *)
Fixpoint cut (needle s : string) : option (string * string) :=
  if String.prefix needle s then Some (EmptyString, drop (String.length needle) s)
  else match s with
       | EmptyString => None
       | String c s' =>
           match cut needle s' with
           | Some (before, after) => Some (String c before, after)
           | None => None
           end
       end.

(** [s.indexOf(needle)] as an offset. *)
Definition indexOf (needle s : string) : option nat :=
  match cut needle s with
  | Some (before, _) => Some (String.length before)
  | None => None
  end.

(** [s.lastIndexOf(c)] for a one-character needle. *)
Fixpoint lastIndexOf (c : Ascii.ascii) (s : string) : option nat :=
  match s with
  | EmptyString => None
  | String a s' =>
      match lastIndexOf c s' with
      | Some i => Some (S i)
      | None => if Ascii.eqb a c then Some 0 else None
      end
  end.

(** [s.substring(from, to)] for [from <= to], both offsets of the
    embedding. *)
Definition substring (from to : nat) (s : string) : string :=
  String.substring from (to - from) s.

(** The string of the bytes with the given codes. *)
Definition bytes (codes : list nat) : string :=
  fold_right (λ code s, String (Ascii.ascii_of_nat code) s) EmptyString codes.

(** The white space of the language: the code points of WhiteSpace and
    LineTerminator, which [trim] and the class [\s] strip, in UTF-8. *)
Definition whiteSpace : list string :=
  map bytes
    [ [9]; [10]; [11]; [12]; [13]; [32];                (* U+0009 .. U+000D, U+0020 *)
      [194; 160];                                       (* U+00A0 *)
      [225; 154; 128];                                  (* U+1680 *)
      [226; 128; 128]; [226; 128; 129]; [226; 128; 130]; [226; 128; 131];
      [226; 128; 132]; [226; 128; 133]; [226; 128; 134]; [226; 128; 135];
      [226; 128; 136]; [226; 128; 137]; [226; 128; 138]; (* U+2000 .. U+200A *)
      [226; 128; 168]; [226; 128; 169];                 (* U+2028, U+2029 *)
      [226; 128; 175];                                  (* U+202F *)
      [226; 129; 159];                                  (* U+205F *)
      [227; 128; 128];                                  (* U+3000 *)
      [239; 187; 191] ].                                (* U+FEFF *)

(** [s] without the entry of [table] it starts with, if it starts with
    one. *)
Definition skip (table : list string) (s : string) : option string :=
  (λ w, drop (String.length w) s) <$> List.find (λ w, String.prefix w s) table.

(** [s] without the entries of [table] it starts with; [fuel] bounds their
    number. *)
Fixpoint strip (table : list string) (fuel : nat) (s : string) : string :=
  match fuel with
  | O => s
  | S fuel' =>
      match skip table s with
      | Some rest => strip table fuel' rest
      | None => s
      end
  end.

(** [s.trimStart()] *)
Definition trimStart (s : string) : string := strip whiteSpace (String.length s) s.

(** [s.trimEnd()]: the same from the other end. *)
Definition trimEnd (s : string) : string :=
  String.rev (strip (map String.rev whiteSpace) (String.length s) (String.rev s)).

(** [s.trim()] *)
Definition trim (s : string) : string := trimEnd (trimStart s).

(** The UTF-16 code units a byte of a UTF-8 text accounts for: one for a
    byte that starts a character of one, two or three bytes, two for a byte
    that starts a character of four bytes, none for a continuation byte. *)
Definition units (a : Ascii.ascii) : nat :=
  let code := Ascii.nat_of_ascii a in
  if code <? 128 then 1 else if code <? 192 then 0 else if code <? 240 then 1 else 2.

(** [s.length] *)
Fixpoint length (s : string) : nat :=
  match s with
  | EmptyString => 0
  | String a rest => units a + length rest
  end.

Definition byteAt (i : nat) (s : string) : nat :=
  match String.get i s with
  | Some a => Ascii.nat_of_ascii a
  | None => 128
  end.

(** The high surrogate of the four-byte character [s] starts with, in
    three bytes: the bits [110110 wwww zzzz yy] of the code unit, where the
    character is [uuuuu zzzz yyyyyy xxxxxx] and [wwww] is [uuuuu - 1]. *)
Definition highSurrogate (s : string) : string :=
  let u := (byteAt 0 s mod 8) * 4 + (byteAt 1 s / 16) mod 4 in
  let w := (u + 15) mod 16 in
  let z := byteAt 1 s mod 16 in
  let y := (byteAt 2 s / 16) mod 4 in
  bytes [237; 160 + w; 128 + z * 4 + y].

(** [s.substring(0, n)]: the first [n] code units. A character of two
    code units that lies across the end leaves its high surrogate. *)
Fixpoint substringTo (n : nat) (s : string) : string :=
  match s with
  | EmptyString => EmptyString
  | String a rest =>
      match units a, n with
      | O, _ => String a (substringTo n rest)
      | _, O => EmptyString
      | 1, S n' => String a (substringTo n' rest)
      | _, 1 => highSurrogate s
      | _, S (S n') => String a (substringTo n' rest)
      end
  end.

(** [s.split(sep)] for a one-character separator: never the empty list. *)
Fixpoint split (sep : Ascii.ascii) (s : string) : list string :=
  match s with
  | EmptyString => [EmptyString]
  | String c s' =>
      if Ascii.eqb c sep then EmptyString :: split sep s'
      else match split sep s' with
           | [] => [String c EmptyString]
           | piece :: pieces => String c piece :: pieces
           end
  end.

(** Truthiness of a string value. *)
Definition truthy (s : string) : bool := negb (String.eqb s EmptyString).

End Js.

(** ** Reading white space *)

Module TextSpec.

(** A text made of entries of [table]. *)
Inductive madeOf (table : list string) : string → Prop :=
| madeOf_empty : madeOf table EmptyString
| madeOf_more (w s : string) : w ∈ table → madeOf table s → madeOf table (w +:+ s).

(** A text made of white space characters only. *)
Definition blank : string → Prop := madeOf Js.whiteSpace.

Definition startsWithSpace (s : string) : Prop :=
  ∃ w rest, w ∈ Js.whiteSpace ∧ s = w +:+ rest.

Definition endsWithSpace (s : string) : Prop :=
  ∃ w front, w ∈ Js.whiteSpace ∧ s = front +:+ w.

(** [r] is [s] without the white space at its two ends. *)
Definition trimmed (s r : string) : Prop :=
  ∃ l t, blank l ∧ blank t ∧ s = l +:+ r +:+ t
         ∧ ¬ startsWithSpace r ∧ ¬ endsWithSpace r.

(** The no-break space and the ideographic space. *)
Definition nbsp : string := Js.bytes [194; 160].
Definition ideographicSpace : string := Js.bytes [227; 128; 128].

End TextSpec.

(** ** The project file tree ([types], [findAndUpdateFile]) *)

Module FileTree.

(** [FileSystemNode]: [content] and [children] are both optional in the
    source type; a node counts as a directory exactly when [children] is
    present (an object is truthy, also the empty one). *)
Inductive FileSystemNode : Type :=
  mkNode {
    name : string;
    content : option string;
    children : option (gmap string FileSystemNode)
  }.

Abbreviation Files := (gmap string FileSystemNode).

Definition fileNode (part text : string) : FileSystemNode :=
  mkNode part (Some text) None.

Definition dirNode (part : string) (entries : Files) : FileSystemNode :=
  mkNode part None (Some entries).

Definition setContent (n : FileSystemNode) (text : string) : FileSystemNode :=
  mkNode (name n) (Some text) (children n).

Definition setChildren (n : FileSystemNode) (entries : Files) : FileSystemNode :=
  mkNode (name n) (content n) (Some entries).

(** The members every plain object inherits from [Object.prototype]. *)
Definition objectPrototypeNames : list string :=
  ["constructor"; "__defineGetter__"; "__defineSetter__"; "hasOwnProperty";
   "__lookupGetter__"; "__lookupSetter__"; "isPrototypeOf"; "propertyIsEnumerable";
   "toString"; "valueOf"; "__proto__"; "toLocaleString"].

(** What the walk has written on these members: [realm !! member] is the
    [content] property of [Object.prototype[member]]. The member
    [__proto__] is [Object.prototype] itself, so [realm !! "__proto__"] is
    [Object.prototype.content], which every object without a [content] of
    its own shows as its [content]. *)
Abbreviation Realm := (gmap string string).

(** The value of [currentLevel[part]]. *)
Inductive Property :=
| Undefined
| Own (node : FileSystemNode)   (* a property of the level itself *)
| Member (member : string)      (* [Object.prototype[member]]: an object
                                   without [children] *)
| Text (text : string).         (* the string [Object.prototype.content] *)

(** [currentLevel[part]] *)
Definition get (realm : Realm) (currentLevel : Files) (part : string) : Property :=
  match currentLevel !! part with
  | Some node => Own node
  | None =>
      if bool_decide (part ∈ objectPrototypeNames) then Member part
      else if String.eqb part "content" then
        match realm !! "__proto__" with
        | Some text => Text text
        | None => Undefined
        end
      else Undefined
  end.

(** How a call ends: it returns, or the assignment of [content] to a
    string raises a [TypeError] (the module is strict code). *)
Inductive Outcome := Returns (ok : bool) | Throws.

(** The loop of [findAndUpdateFile] over the remaining path segments.
    [currentLevel] is the object the loop variable points to; the function
    gives how the call ends, [currentLevel] as the loop leaves it, and the
    realm. Descending into [currentLevel[part].children] aliases the child
    object, so what the rest of the loop does to it is written back under
    [part]. *)
Fixpoint updateLevel (realm : Realm) (currentLevel : Files) (parts : list string)
  (text : string) : Outcome * Files * Realm :=
  match parts with
  | [] => (Returns true, currentLevel, realm)
  | part :: rest =>
      let isLastPart := match rest with [] => true | _ => false end in
      (* the turn from its second [if] on, when [currentLevel[part]] is the
         node [node] of the level [level1] *)
      let onNode (level1 : Files) (node : FileSystemNode) :=
        if isLastPart then
          match children node with
          | Some _ => (Returns false, level1, realm)
          | None => (Returns true, <[part := setContent node text]> level1, realm)
          end
        else
          match children node with
          | None => (Returns false, level1, realm)
          | Some sub =>
              let '(outcome, sub', realm') := updateLevel realm sub rest text in
              (outcome, <[part := setChildren node sub']> level1, realm')
          end in
      (* if (!currentLevel[part]) { currentLevel[part] = ... } *)
      let created := if isLastPart then fileNode part text else dirNode part ∅ in
      match get realm currentLevel part with
      | Own node => onNode currentLevel node
      | Undefined => onNode (<[part := created]> currentLevel) created
      | Member member =>
          (* an object without [children]; [content] is written on it *)
          if isLastPart then (Returns true, currentLevel, <[member := text]> realm)
          else (Returns false, currentLevel, realm)
      | Text inherited =>
          if Js.truthy inherited then
            (* a string has no [children], and takes no property *)
            if isLastPart then (Throws, currentLevel, realm)
            else (Returns false, currentLevel, realm)
          else onNode (<[part := created]> currentLevel) created
      end
  end.

(** [findAndUpdateFile(nodes, path, content)]: how the call ends, the tree
    [nodes] after the call, and the realm after it. *)
Definition findAndUpdateFile (realm : Realm) (nodes : Files) (path text : string)
  : Outcome * Files * Realm :=
  updateLevel realm nodes (Js.split "/"%char path) text.

(** Reading a path: the node a sequence of segments leads to, walking
    through [children]. The empty sequence names no node. *)
Fixpoint resolve (nodes : Files) (segments : list string) : option FileSystemNode :=
  match segments with
  | [] => None
  | part :: rest =>
      match nodes !! part with
      | None => None
      | Some node =>
          match rest with
          | [] => Some node
          | _ :: _ =>
              match children node with
              | Some sub => resolve sub rest
              | None => None
              end
          end
      end
  end.

Definition isDirectory (n : FileSystemNode) : Prop := is_Some (children n).

(** A level with no property [part] of its own still finds something under
    that name. *)
Definition inherits (realm : Realm) (part : string) : bool :=
  match get realm ∅ part with
  | Member _ => true
  | Text inherited => Js.truthy inherited
  | Own _ | Undefined => false
  end.

(** No segment is such a name. *)
Definition ordinary (realm : Realm) (segments : list string) : Prop :=
  Forall (λ part, inherits realm part = false) segments.

(** The two situations in which the specification requires the upsert to
    fail: a proper prefix of the path leads to a node without [children], or
    the whole path leads to a directory. *)
Definition blocked (nodes : Files) (segments : list string) : Prop :=
  (∃ before after node,
      segments = before ++ after ∧ before ≠ [] ∧ after ≠ [] ∧
      resolve nodes before = Some node ∧ children node = None)
  ∨ (∃ node, resolve nodes segments = Some node ∧ isDirectory node).

End FileTree.

(** ** The four tool toggles ([handleToggle...]) *)

Module Toggles.

Record ToolToggles := mkToggles {
  isCodeInterpreterToggled : bool;
  isDeepResearchToggled : bool;
  isImageToolActive : bool;
  isVideoToolActive : bool
}.

Definition allOff : ToolToggles := mkToggles false false false false.

(** Each handler flips its own flag through the functional setter and, when
    the new value is [true], sets the three other flags to [false]. *)
Definition handleToggleCodeInterpreter (s : ToolToggles) : ToolToggles :=
  let newState := negb (isCodeInterpreterToggled s) in
  if newState then mkToggles newState false false false
  else mkToggles newState (isDeepResearchToggled s) (isImageToolActive s) (isVideoToolActive s).

Definition handleToggleDeepResearch (s : ToolToggles) : ToolToggles :=
  let newState := negb (isDeepResearchToggled s) in
  if newState then mkToggles false newState false false
  else mkToggles (isCodeInterpreterToggled s) newState (isImageToolActive s) (isVideoToolActive s).

Definition handleToggleImageTool (s : ToolToggles) : ToolToggles :=
  let newState := negb (isImageToolActive s) in
  if newState then mkToggles false false newState false
  else mkToggles (isCodeInterpreterToggled s) (isDeepResearchToggled s) newState (isVideoToolActive s).

Definition handleToggleVideoTool (s : ToolToggles) : ToolToggles :=
  let newState := negb (isVideoToolActive s) in
  if newState then mkToggles false false false newState
  else mkToggles (isCodeInterpreterToggled s) (isDeepResearchToggled s) (isImageToolActive s) newState.

Inductive Tool := CodeInterpreter | DeepResearch | ImageTool | VideoTool.

#[global] Instance Tool_eq_dec : EqDecision Tool.
Proof. solve_decision. Defined.

Definition flag (t : Tool) (s : ToolToggles) : bool :=
  match t with
  | CodeInterpreter => isCodeInterpreterToggled s
  | DeepResearch => isDeepResearchToggled s
  | ImageTool => isImageToolActive s
  | VideoTool => isVideoToolActive s
  end.

Definition toggle (s : ToolToggles) (t : Tool) : ToolToggles :=
  match t with
  | CodeInterpreter => handleToggleCodeInterpreter s
  | DeepResearch => handleToggleDeepResearch s
  | ImageTool => handleToggleImageTool s
  | VideoTool => handleToggleVideoTool s
  end.

(** The states observed after each operation of a sequence. *)
Fixpoint observations (s : ToolToggles) (ops : list Tool) : list ToolToggles :=
  match ops with
  | [] => []
  | t :: ops' => toggle s t :: observations (toggle s t) ops'
  end.

Definition countOn (s : ToolToggles) : nat :=
  Nat.b2n (isCodeInterpreterToggled s) + Nat.b2n (isDeepResearchToggled s)
  + Nat.b2n (isImageToolActive s) + Nat.b2n (isVideoToolActive s).

Definition atMostOne (s : ToolToggles) : Prop := countOn s ≤ 1.

End Toggles.

(** ** Grounding citations *)

Module Citations.

(** The value of [item.web.uri]: missing, [null], or a string. *)
Inductive Uri := UriUndefined | UriNull | UriString (s : string).

#[global] Instance Uri_eq_dec : EqDecision Uri.
Proof. solve_decision. Defined.

Record WebSource := mkWeb { uri : Uri; title : option string }.

Record GroundingChunk := mkChunk { web : option WebSource }.

#[global] Instance WebSource_eq_dec : EqDecision WebSource.
Proof. solve_decision. Defined.

#[global] Instance GroundingChunk_eq_dec : EqDecision GroundingChunk.
Proof. solve_decision. Defined.

(** [item.web?.uri], the key under which a chunk enters the [Map]. *)
Definition chunkKey (item : GroundingChunk) : Uri :=
  match web item with
  | Some w => uri w
  | None => UriUndefined
  end.

(** [item && item.web && item.web.uri] *)
Definition hasUsableUri (item : GroundingChunk) : bool :=
  match web item with
  | Some w => match uri w with
              | UriString s => Js.truthy s
              | _ => false
              end
  | None => false
  end.

(** A JavaScript [Map]: entries in insertion order; setting a key that is
    present replaces its value and keeps its position. *)
Fixpoint mapSet {V : Type} (k : Uri) (v : V) (m : list (Uri * V)) : list (Uri * V) :=
  match m with
  | [] => [(k, v)]
  | (k', v') :: m' =>
      if decide (k' = k) then (k, v) :: m' else (k', v') :: mapSet k v m'
  end.

(** [new Map(entries)] *)
Definition mapFromEntries {V : Type} (entries : list (Uri * V)) : list (Uri * V) :=
  fold_left (λ m e, mapSet e.1 e.2 m) entries [].

(** [Array.from(m.values())] *)
Definition mapValues {V : Type} (m : list (Uri * V)) : list V := m.*2.

(** [Array.from(new Map(groundingChunks.map(item => [item.web?.uri, item])).values())
      .filter(item => item && item.web && item.web.uri)] *)
Definition uniqueChunks (groundingChunks : list GroundingChunk) : list GroundingChunk :=
  List.filter hasUsableUri
    (mapValues (mapFromEntries (map (λ item, (chunkKey item, item)) groundingChunks))).

(** *** The two readings of deduplication *)

(** The distinct elements of a list in the order in which they are first
    seen. *)
Definition seeOnce (seen : list Uri) (k : Uri) : list Uri :=
  if decide (k ∈ seen) then seen else seen ++ [k].

Definition firstSeen (keys : list Uri) : list Uri := fold_left seeOnce keys [].

Definition withKey (k : Uri) (chunks : list GroundingChunk) : list GroundingChunk :=
  List.filter (λ item, bool_decide (chunkKey item = k)) chunks.

(** As the specification words it: one entry per URL, in first-seen order,
    the first occurrence of a URL standing for it, entries without a usable
    URL dropped. *)
Definition citationsFirstWins (chunks : list GroundingChunk) : list GroundingChunk :=
  List.filter hasUsableUri
    (omap (λ k, head (withKey k chunks)) (firstSeen (map chunkKey chunks))).

(** The same with the last occurrence of a URL standing for it. *)
Definition citationsLastWins (chunks : list GroundingChunk) : list GroundingChunk :=
  List.filter hasUsableUri
    (omap (λ k, last (withKey k chunks)) (firstSeen (map chunkKey chunks))).

End Citations.

(** ** Sessions and messages ([types]) *)

Module Chat.
Import FileTree Citations.

Inductive Role := USER | MODEL.

#[global] Instance Role_eq_dec : EqDecision Role.
Proof. solve_decision. Defined.

(** [Attachment]: [name], [mimeType], [dataUrl]. *)
Record Attachment := mkAttachment {
  att_name : string;
  att_mimeType : string;
  att_dataUrl : string
}.

(** [Project]: [id], [name], [description], [files]. *)
Record Project := mkProject {
  proj_id : string;
  proj_name : string;
  proj_description : string;
  proj_files : Files
}.

(** [ChatMessage]. Optional fields of the source are options here. The
    field [isParsingReasoning] is declared in [types] and used by none of
    the handlers; it is left out. *)
Record ChatMessage := mkMessage {
  msg_id : string;
  msg_role : Role;
  msg_content : string;
  msg_attachments : option (list Attachment);
  msg_reasoning : option string;
  msg_isThinking : option bool;
  msg_projectFilesUpdate : option bool;
  msg_project : option Project;
  msg_groundingChunks : option (list GroundingChunk)
}.

(** [ChatSession]: [id], [title], [messages], [project]. *)
Record ChatSession := mkSession {
  chat_id : string;
  chat_title : string;
  chat_messages : list ChatMessage;
  chat_project : option Project
}.

(** [{ ...m, field: value }] for the fields the handlers write. *)
Definition withContent (m : ChatMessage) (c : string) : ChatMessage :=
  mkMessage (msg_id m) (msg_role m) c (msg_attachments m) (msg_reasoning m)
    (msg_isThinking m) (msg_projectFilesUpdate m) (msg_project m) (msg_groundingChunks m).

Definition withAttachments (m : ChatMessage) (a : list Attachment) : ChatMessage :=
  mkMessage (msg_id m) (msg_role m) (msg_content m) (Some a) (msg_reasoning m)
    (msg_isThinking m) (msg_projectFilesUpdate m) (msg_project m) (msg_groundingChunks m).

Definition withReasoning (m : ChatMessage) (r : string) : ChatMessage :=
  mkMessage (msg_id m) (msg_role m) (msg_content m) (msg_attachments m) (Some r)
    (msg_isThinking m) (msg_projectFilesUpdate m) (msg_project m) (msg_groundingChunks m).

Definition withIsThinking (m : ChatMessage) (b : bool) : ChatMessage :=
  mkMessage (msg_id m) (msg_role m) (msg_content m) (msg_attachments m) (msg_reasoning m)
    (Some b) (msg_projectFilesUpdate m) (msg_project m) (msg_groundingChunks m).

Definition withProject (m : ChatMessage) (p : Project) : ChatMessage :=
  mkMessage (msg_id m) (msg_role m) (msg_content m) (msg_attachments m) (msg_reasoning m)
    (msg_isThinking m) (msg_projectFilesUpdate m) (Some p) (msg_groundingChunks m).

Definition withGroundingChunks (m : ChatMessage) (g : list GroundingChunk) : ChatMessage :=
  mkMessage (msg_id m) (msg_role m) (msg_content m) (msg_attachments m) (msg_reasoning m)
    (msg_isThinking m) (msg_projectFilesUpdate m) (msg_project m) (Some g).

Definition withMessages (s : ChatSession) (ms : list ChatMessage) : ChatSession :=
  mkSession (chat_id s) (chat_title s) ms (chat_project s).

Definition withTitleMessages (s : ChatSession) (t : string) (ms : list ChatMessage) : ChatSession :=
  mkSession (chat_id s) t ms (chat_project s).

Definition withSessionProject (s : ChatSession) (p : Project) : ChatSession :=
  mkSession (chat_id s) (chat_title s) (chat_messages s) (Some p).

(** [[...s.messages.slice(0, -1), m]] *)
Definition replaceLast (s : ChatSession) (m : ChatMessage) : ChatSession :=
  withMessages s (List.removelast (chat_messages s) ++ [m]).

End Chat.

(** ** Finalization of the trailing MODEL message ([finalUpdater]) *)

Module Finalize.
Import FileTree Citations Chat.

(** A response part: [text] or [inlineData]. *)
Record InlineData := mkInline { inl_mimeType : string; inl_data : string }.

Record Part := mkPart { part_text : option string; part_inlineData : option InlineData }.

(** What [JSON.parse] returns, as far as the handler looks at it. The
    handler uses the value at type [any] and reads [files], [explanation]
    and [projectName], storing the latter two and the [path] and [content] of
    every entry of [files] in fields declared [string]. *)
Inductive FileEntry :=
| EntryRaises (* [null], or [path] is not a string: reading [file.path]
                 or calling [path.split] raises *)
| Entry (path text : string).

Inductive FilesField :=
| FilesFalsy       (* [undefined], [null], [false], [0] or the empty string *)
| FilesNoForEach   (* truthy and not an array *)
| FilesArray (entries : list FileEntry).

Inductive Parsed :=
| PNull  (* the JSON text [null]: reading a property of it raises *)
| PValue (files : FilesField) (explanation projectName : option string).

Definition truthyField (f : option string) : bool :=
  match f with
  | Some s => Js.truthy s
  | None => false
  end.

Definition truthyFiles (f : FilesField) : bool :=
  match f with
  | FilesFalsy => false
  | _ => true
  end.

(** The state setters [finalUpdater] calls next to computing the session. *)
Inductive UiEffect :=
| SetActiveInterpreterFile (path : string)
| SetPendingProjectUpdate (p : Project)
| SetStreamingTarget (filePath code : string)
| SetIsCodePanelVisible (b : bool)
| SetIsRightSidebarOpen (b : bool)
| SetIsFilesSidebarOpen (b : bool)
| SetIsNavSidebarOpen (b : bool).

Inductive Panel := PanelSettings | PanelFiles | PanelNone.

(** [openRightPanel(panel)] *)
Definition openRightPanel (isMobile : bool) (panel : Panel) : list UiEffect :=
  [ SetIsRightSidebarOpen (match panel with PanelSettings => true | _ => false end);
    SetIsFilesSidebarOpen (match panel with PanelFiles => true | _ => false end) ]
  ++ (if (match panel with PanelNone => false | _ => true end) && isMobile
      then [SetIsNavSidebarOpen false] else []).

Definition formatPrefix : string :=
  "The AI response was not in the expected format. Here is the raw response:" +:+
  String "010" (String "010" EmptyString).

Definition failedPrefix : string :=
  "Failed to parse the AI's code response. Here is the raw response:" +:+
  String "010" (String "010" EmptyString).

Definition thinkingOpen : string := "<thinking>".
Definition thinkingClose : string := "</thinking>".

(** [text.match(/<thinking>([\s\S]*?)<\/thinking>/)]: the text before the
    match, the captured group and the text after the match. The match starts
    at the leftmost opening tag and the lazy group ends at the first closing
    tag after it; if no closing tag follows the leftmost opening tag, none
    follows a later one either. *)
Definition matchThinking (text : string) : option (string * string * string) :=
  match Js.cut thinkingOpen text with
  | Some (before, rest) =>
      match Js.cut thinkingClose rest with
      | Some (inner, after) => Some (before, inner, after)
      | None => None
      end
  | None => None
  end.

Definition fenceOpen : string := "```json".
Definition fenceClose : string := "```".

(** [s.match(/```json\s*([\s\S]*?)\s*```/)], the captured group: after the
    leftmost opening fence and the white space behind it, the text up to the
    first closing fence, without the white space in front of that fence. *)
Definition matchJsonFence (s : string) : option string :=
  match Js.cut fenceOpen s with
  | Some (_, rest) =>
      match Js.cut fenceClose (Js.trimStart rest) with
      | Some (inner, _) => Some (Js.trimEnd inner)
      | None => None
      end
  | None => None
  end.

(** The text between the first [{] and the last [}], if they are in this
    order. *)
Definition betweenBraces (s : string) : string :=
  match Js.indexOf "{" s, Js.lastIndexOf "}"%char s with
  | Some firstBrace, Some lastBrace =>
      if firstBrace <? lastBrace then Js.substring firstBrace (lastBrace + 1) s else s
  | _, _ => s
  end.

(** [cleanedJsonString], the argument of [JSON.parse]. *)
Definition cleanedJsonString (fullResponseText : string) : string :=
  let trimmed := Js.trim fullResponseText in
  match matchJsonFence trimmed with
  | Some inner => if Js.truthy inner then inner else betweenBraces trimmed
  | None => betweenBraces trimmed
  end.

(** What the handler closes over when it builds [finalUpdater]. *)
Record Closure := mkClosure {
  isImageRequest : bool;
  isVideoRequest : bool;
  isInterpreterRequest : bool;
  isMobile : bool;
  fullResponseText : string;
  finalParts : list Part;
  groundingChunks : list GroundingChunk
}.

(** The outcome of the [try] block of the project branch. *)
Inductive TryOutcome :=
| Raised
| Completed (updatedMsg : ChatMessage) (effects : list UiEffect).

Section Environment.

(** [JSON.parse], [None] standing for a [SyntaxError]. *)
Variable JSON_parse : string → option Parsed.

(** [Date.now()], printed; every reading made while one message is handled
    is taken to be the same. It only enters identifiers and generated
    names. *)
Variable Date_now : string.

(** What has been written on the members of [Object.prototype] when
    finalization runs. *)
Variable Object_prototype : Realm.

(** The image and video branch: text parts are concatenated, inline media
    parts become attachments. *)
Definition generatedAttachment (d : InlineData) : Attachment :=
  let isVideo := Js.startsWith "video/" (inl_mimeType d) in
  mkAttachment
    ("generated-" +:+ (if isVideo then "video" else "image") +:+ "-" +:+ Date_now)
    (inl_mimeType d)
    ("data:" +:+ inl_mimeType d +:+ ";base64," +:+ inl_data d).

Definition mediaPart (acc : string * list Attachment) (part : Part)
  : string * list Attachment :=
  let '(finalContent, finalAttachments) := acc in
  if truthyField (part_text part) then
    (finalContent +:+ default EmptyString (part_text part), finalAttachments)
  else
    match part_inlineData part with
    | Some d => (finalContent, finalAttachments ++ [generatedAttachment d])
    | None => acc
    end.

Definition mediaBranch (c : Closure) (lastMsg : ChatMessage) : ChatMessage :=
  let '(finalContent, finalAttachments) :=
    match finalParts c with
    | _ :: _ => fold_left mediaPart (finalParts c) (EmptyString, [])
    | [] => (fullResponseText c, [])
    end in
  let shown :=
    if Js.truthy finalContent then finalContent
    else if isVideoRequest c then "Here is your generated video." else EmptyString in
  withAttachments (withContent lastMsg shown) finalAttachments.

(** [parsedResponse.files.forEach(file => { if (findAndUpdateFile(...))
    lastUpdatedFile = file.path; })]: the files of the copied project and
    [lastUpdatedFile] after the loop, or [None] if the loop raises (an entry
    raises, or [findAndUpdateFile] does); and the realm as the loop leaves
    it. *)
Fixpoint applyFiles (realm : Realm) (entries : list FileEntry) (files : Files)
  (lastUpdatedFile : string) : option (Files * string) * Realm :=
  match entries with
  | [] => (Some (files, lastUpdatedFile), realm)
  | EntryRaises :: _ => (None, realm)
  | Entry path text :: entries' =>
      let '(outcome, files', realm') := findAndUpdateFile realm files path text in
      match outcome with
      | Returns ok => applyFiles realm' entries' files' (if ok then path else lastUpdatedFile)
      | Throws => (None, realm')
      end
  end.

(** [parsedResponse.files.find(f => f.path === lastUpdatedFile)?.content || ''] *)
Fixpoint findContent (entries : list FileEntry) (lastUpdatedFile : string) : string :=
  match entries with
  | [] => EmptyString
  | Entry path text :: entries' =>
      if String.eqb path lastUpdatedFile then text else findContent entries' lastUpdatedFile
  | EntryRaises :: entries' => findContent entries' lastUpdatedFile
  end.

(** The body of the [try] block. *)
Definition projectTry (c : Closure) (project : Project) (updatedMsg : ChatMessage)
  : TryOutcome :=
  match JSON_parse (cleanedJsonString (fullResponseText c)) with
  | None => Raised
  | Some PNull => Raised
  | Some (PValue files explanation projectName) =>
      if truthyFiles files && truthyField explanation && truthyField projectName then
        match files with
        | FilesArray entries =>
            (* the deep copy of [prev.project], renamed *)
            match (applyFiles Object_prototype entries (proj_files project) "index.html").1
            with
            | None => Raised
            | Some (files', lastUpdatedFile) =>
                let projectForUpdate :=
                  mkProject (proj_id project) (default EmptyString projectName)
                    (proj_description project) files' in
                Completed
                  (withProject
                     (withContent updatedMsg (default EmptyString explanation))
                     projectForUpdate)
                  ([ SetActiveInterpreterFile lastUpdatedFile;
                     SetPendingProjectUpdate projectForUpdate;
                     SetStreamingTarget lastUpdatedFile (findContent entries lastUpdatedFile);
                     SetIsCodePanelVisible true ]
                   ++ openRightPanel (isMobile c) PanelNone
                   ++ (if isMobile c then [] else [SetIsNavSidebarOpen false]))
            end
        | _ => Raised
        end
      else
        Completed (withContent updatedMsg (formatPrefix +:+ fullResponseText c)) []
  end.

(** The realm after the [try] block. *)
Definition projectRealm (c : Closure) (project : Project) : Realm :=
  match JSON_parse (cleanedJsonString (fullResponseText c)) with
  | Some (PValue (FilesArray entries) explanation projectName) =>
      if truthyField explanation && truthyField projectName
      then (applyFiles Object_prototype entries (proj_files project) "index.html").2
      else Object_prototype
  | _ => Object_prototype
  end.

(** [try { ... } catch (e) { ... }] *)
Definition projectBranch (c : Closure) (project : Project) (updatedMsg : ChatMessage)
  : ChatMessage * list UiEffect :=
  match projectTry c project updatedMsg with
  | Completed m effects => (m, effects)
  | Raised => (withContent updatedMsg (failedPrefix +:+ fullResponseText c), [])
  end.

(** The plain chat branch. *)
Definition chatBranch (c : Closure) (updatedMsg : ChatMessage) : ChatMessage :=
  match matchThinking (fullResponseText c) with
  | Some (before, inner, after) =>
      withContent (withReasoning updatedMsg (Js.trim inner)) (Js.trim (before +:+ after))
  | None => withContent updatedMsg (fullResponseText c)
  end.

(** [if (groundingChunks.length > 0) updatedMsg.groundingChunks = uniqueChunks] *)
Definition attachGrounding (c : Closure) (updatedMsg : ChatMessage) : ChatMessage :=
  match groundingChunks c with
  | [] => updatedMsg
  | _ :: _ => withGroundingChunks updatedMsg (uniqueChunks (groundingChunks c))
  end.

(** [finalUpdater(prev)]: the session it returns and the setters it calls. *)
Definition finalUpdater (c : Closure) (prev : ChatSession) : ChatSession * list UiEffect :=
  match last (chat_messages prev) with
  | Some lastMsg =>
      match msg_role lastMsg with
      | MODEL =>
          let '(updatedMsg, effects) :=
            if isImageRequest c || isVideoRequest c then (mediaBranch c lastMsg, [])
            else
              match isInterpreterRequest c, chat_project prev with
              | true, Some project => projectBranch c project lastMsg
              | _, _ => (chatBranch c lastMsg, [])
              end in
          (replaceLast prev (withIsThinking (attachGrounding c updatedMsg) false), effects)
      | USER => (prev, [])
      end
  | None => (prev, [])
  end.

(** The realm after [finalUpdater(prev)]. *)
Definition finalRealm (c : Closure) (prev : ChatSession) : Realm :=
  match last (chat_messages prev) with
  | Some lastMsg =>
      match msg_role lastMsg with
      | MODEL =>
          if isImageRequest c || isVideoRequest c then Object_prototype
          else
            match isInterpreterRequest c, chat_project prev with
            | true, Some project => projectRealm c project
            | _, _ => Object_prototype
            end
      | USER => Object_prototype
      end
  | None => Object_prototype
  end.

End Environment.

(** A [JSON.parse] for the examples: it agrees with the real one on the
    texts it knows and reports a [SyntaxError] on every other text. *)
Definition quoted (s : string) : string :=
  String "034" s +:+ String "034" EmptyString.

Definition onlyWordsJson : string :=
  "{" +:+ quoted "explanation" +:+ ":" +:+ quoted "Only words." +:+ "}".

Definition buttonDemoJson : string :=
  "{" +:+ quoted "projectName" +:+ ":" +:+ quoted "Button Demo" +:+ ","
  +:+ quoted "explanation" +:+ ":" +:+ quoted "Added a button." +:+ ","
  +:+ quoted "files" +:+ ":[{" +:+ quoted "path" +:+ ":" +:+ quoted "index.html" +:+ ","
  +:+ quoted "content" +:+ ":" +:+ quoted "<button>Click</button>" +:+ "}]}".

Definition JSON_parse_examples (s : string) : option Parsed :=
  if String.eqb s "null" then Some PNull
  else if String.eqb s "{}" then Some (PValue FilesFalsy None None)
  else if String.eqb s "[{},{}]" then Some (PValue FilesFalsy None None)
  else if String.eqb s onlyWordsJson
       then Some (PValue FilesFalsy (Some "Only words.") None)
  else if String.eqb s buttonDemoJson
       then Some (PValue (FilesArray [Entry "index.html" "<button>Click</button>"])
                    (Some "Added a button.") (Some "Button Demo"))
  else None.

End Finalize.

(** ** Reading the claims about finalization *)

Module FinalizeSpec.
Import Chat Finalize.

(** [s] splits at the first occurrence of [needle] into [before] and
    [after]. *)
Definition firstSplit (needle s before after : string) : Prop :=
  s = before +:+ needle +:+ after
  ∧ ∀ before' after', s = before' +:+ needle +:+ after' →
      String.length before ≤ String.length before'.

(** The text contains an opening tag followed, somewhere, by a closing
    tag. *)
Definition containsThinkingBlock (text : string) : Prop :=
  ∃ a b c, text = a +:+ thinkingOpen +:+ b +:+ thinkingClose +:+ c.

(** The parsed response misses one of [files], [explanation] and
    [projectName]; as the handler tests the fields for truthiness, a field
    holding the empty string counts as missing. *)
Definition lacksRequired (parsed : Parsed) : Prop :=
  match parsed with
  | PNull => True
  | PValue files explanation projectName =>
      truthyFiles files && truthyField explanation && truthyField projectName = false
  end.

Definition thinkingExample : string :=
  "<thinking>reasoning here</thinking>visible answer".

(** The same with white space around the reasoning and the answer: a
    no-break space, a space and a line feed inside the block, an ideographic
    space and a space outside. *)
Definition thinkingSpaced : string :=
  "<thinking>" +:+ TextSpec.nbsp +:+ " reasoning here" +:+ String "010" "</thinking>"
  +:+ TextSpec.ideographicSpace +:+ "visible answer ".

(** The [groundingChunks] field as the specification describes it: the
    first-wins list, attached only if it is not empty; [prior] is the value
    the field has otherwise. *)
Definition claimedGroundingField
  (prior : option (list Citations.GroundingChunk))
  (chunks : list Citations.GroundingChunk) : option (list Citations.GroundingChunk) :=
  match Citations.citationsFirstWins chunks with
  | [] => prior
  | cited => Some cited
  end.

End FinalizeSpec.

(** ** Example inputs *)

Module Examples.
Import FileTree Citations Chat Finalize.

Definition userHello : ChatMessage :=
  mkMessage "msg-user-1" USER "Hello" (Some []) None None None None None.

Definition placeholder : ChatMessage :=
  mkMessage "msg-model-1" MODEL EmptyString None (Some EmptyString) (Some false)
    (Some false) None None.

Definition plainSession : ChatSession :=
  mkSession "1" "Hello" [userHello; placeholder] None.

Definition demoProject : Project :=
  mkProject "proj_1" "New Project" "A new coding project."
    {[ "index.html" := fileNode "index.html" "<h1>Hello, World!</h1>" ]}.

Definition projectSession : ChatSession :=
  mkSession "1" "make a button" [userHello; placeholder] (Some demoProject).

Definition chatClosure (text : string) (chunks : list GroundingChunk) : Closure :=
  mkClosure false false false false text [] chunks.

Definition projectClosure (text : string) : Closure :=
  mkClosure false false true false text [] [].

Definition citeX (t : string) : GroundingChunk :=
  mkChunk (Some (mkWeb (UriString "x") (Some t))).

Definition citeY : GroundingChunk := mkChunk (Some (mkWeb (UriString "y") None)).

Definition citeNull : GroundingChunk := mkChunk (Some (mkWeb UriNull None)).

End Examples.

(** ** Models ([types], the capability flags of [App]) *)

Module Models.

Inductive Model :=
| GEMINI_2_5_PRO | GEMINI_2_5_FLASH | GEMINI_2_5_FLASH_LITE
| GEMINI_2_5_FLASH_IMAGE_PREVIEW | GEMINI_2_0_FLASH
| GEMINI_2_0_FLASH_PREVIEW_IMAGE_GENERATION | GEMINI_2_0_FLASH_LITE
| IMAGEN_4_0_GENERATE_001 | IMAGEN_4_0_ULTRA_GENERATE_001
| IMAGEN_4_0_FAST_GENERATE_001 | IMAGEN_3_0_GENERATE_002
| VEO_3_0_GENERATE_PREVIEW | VEO_3_0_FAST_GENERATE_PREVIEW | VEO_2_0_GENERATE_001
| GEMMA_3N_E2B | GEMMA_3N_E4B | GEMMA_3_1B | GEMMA_3_4B | GEMMA_3_12B | GEMMA_3_27B.

#[global] Instance Model_eq_dec : EqDecision Model.
Proof. solve_decision. Defined.

(** [activeBaseModel ? [...].includes(activeBaseModel) : false] *)
Definition oneOf (models : list Model) (activeBaseModel : option Model) : bool :=
  match activeBaseModel with
  | Some m => bool_decide (m ∈ models)
  | None => false
  end.

Definition isTextToImageModel : option Model → bool :=
  oneOf [IMAGEN_4_0_GENERATE_001; IMAGEN_4_0_ULTRA_GENERATE_001;
         IMAGEN_4_0_FAST_GENERATE_001; IMAGEN_3_0_GENERATE_002].

Definition isImageEditModel : option Model → bool :=
  oneOf [GEMINI_2_0_FLASH_PREVIEW_IMAGE_GENERATION; GEMINI_2_5_FLASH_IMAGE_PREVIEW].

Definition isThinkingModel : option Model → bool :=
  oneOf [GEMINI_2_5_PRO; GEMINI_2_5_FLASH; GEMINI_2_5_FLASH_LITE].

Definition isProModel : option Model → bool := oneOf [GEMINI_2_5_PRO].

End Models.

(** ** The state the handlers act on, and their effects *)

Module Runtime.
Import FileTree Citations Chat Finalize Models.

(** A [GenerateContentResponse] as the handler reads it: [text],
    [candidates?.[0]?.content?.parts] and
    [candidates?.[0]?.groundingMetadata?.groundingChunks]. *)
Record Response := mkResponse {
  resp_text : option string;
  resp_parts : option (list Part);
  resp_groundingChunks : option (list GroundingChunk)
}.

(** Which updater a call of [setChatHistory] carries. *)
Inductive Write :=
| WriteNewChat | WriteAppendTurn | WriteProject | WriteEcho
| WriteError | WriteFinal | WriteStopped.

Inductive Call :=
| CallGenerateImage (prompt : string) (model : Model)
| CallGenerateVideo (prompt : string) (attachments : list Attachment) (model : Model)
| CallGenerateChatResponse (messages : list ChatMessage) (model : Model).

(** What a run does, in program order. *)
Inductive Event :=
| EvAlert (msg : string)
| EvSetIsLoading (b : bool)
| EvSetActiveChatId (id : string)
| EvSetChatHistory (w : Write)
| EvAdapterCall (call : Call)
| EvObserved (r : Response)   (* a chunk reaches the callback, or the
                                 single response reaches the handler *)
| EvConsole (msg : string)
| EvUi (e : UiEffect).

(** The React state and the ref the two handlers share, and the one
    global object they reach. [signalAborted] is the [aborted] flag of the
    controller that the running send created. *)
Record State := mkState {
  chatHistory : list ChatSession;
  activeChatId : option string;
  isLoading : bool;
  abortControllerRef : bool;
  signalAborted : bool;
  trace : list Event;
  objectPrototype : Realm   (* what has been written on [Object.prototype] *)
}.

(** The settings a send reads and does not write. Sampling options, tools
    and the system instruction only travel to the adapter and decide no
    branch of the handler; they are left out. *)
Record Settings := mkSettings {
  toggles : Toggles.ToolToggles;
  activeBaseModel : option Model;
  isTunedSelection : bool;   (* [selectedModel] starts with [tunedModels/] *)
  useUrlContext : bool;
  urlContext : string;
  useThinking : bool;
  viewportIsMobile : bool
}.

(** What the outside does while a send waits. The awaits of the adapter
    that runs are numbered from 0. *)
Record Script := mkScript {
  stopAt : option nat;        (* the await during which the user presses stop *)
  rejectsAt : option nat;     (* the await whose promise rejects *)
  chunks : list Response;     (* what the stream yields *)
  response : Response;        (* what the non-streaming [generateContent] returns *)
  images : list string;       (* the image bytes [generateImages] returns *)
  polls : nat;                (* status polls until the video operation is done *)
  downloadLink : bool;        (* the finished operation carries a link *)
  fetchOk : bool;             (* the download answers with an ok status *)
  videoData : string          (* the base64 payload of the downloaded video *)
}.

(** State passing. *)
Definition M (A : Type) : Type := State → A * State.

#[global] Instance M_ret : MRet M := λ A a st, (a, st).
#[global] Instance M_bind : MBind M := λ A B f m st, let '(a, st') := m st in f a st'.

Definition get : M State := λ st, (st, st).

Definition emit (e : Event) : M unit := λ st,
  (tt, mkState (chatHistory st) (activeChatId st) (isLoading st)
         (abortControllerRef st) (signalAborted st) (trace st ++ [e]) (objectPrototype st)).

Definition alert (msg : string) : M unit := emit (EvAlert msg).
Definition console (msg : string) : M unit := emit (EvConsole msg).

Definition setIsLoading (b : bool) : M unit := λ st,
  (tt, mkState (chatHistory st) (activeChatId st) b
         (abortControllerRef st) (signalAborted st) (trace st ++ [EvSetIsLoading b])
         (objectPrototype st)).

Definition setActiveChatId (id : string) : M unit := λ st,
  (tt, mkState (chatHistory st) (Some id) (isLoading st)
         (abortControllerRef st) (signalAborted st) (trace st ++ [EvSetActiveChatId id])
         (objectPrototype st)).

(** [setChatHistory(prev => f(prev))] *)
Definition setChatHistory (w : Write) (f : list ChatSession → list ChatSession) : M unit :=
  λ st,
  (tt, mkState (f (chatHistory st)) (activeChatId st) (isLoading st)
         (abortControllerRef st) (signalAborted st) (trace st ++ [EvSetChatHistory w])
         (objectPrototype st)).

(** [abortControllerRef.current = new AbortController()] *)
Definition newAbortController : M unit := λ st,
  (tt, mkState (chatHistory st) (activeChatId st) (isLoading st) true false (trace st)
         (objectPrototype st)).

(** [abortControllerRef.current.abort(); abortControllerRef.current = null] *)
Definition abortCurrent : M unit := λ st,
  (tt, mkState (chatHistory st) (activeChatId st) (isLoading st) false true (trace st)
         (objectPrototype st)).

(** [prev.map(chat => chat.id === id ? f(chat) : chat)] *)
Definition mapChat (id : string) (f : ChatSession → ChatSession)
  : list ChatSession → list ChatSession :=
  map (λ chat, if String.eqb (chat_id chat) id then f chat else chat).

(** [chatHistory.find(c => c.id === id)] *)
Definition findChat (id : string) (history : list ChatSession) : option ChatSession :=
  List.find (λ chat, String.eqb (chat_id chat) id) history.

(** The same map for an updater that also calls setters and reaches
    [Object.prototype]: [f] gives the session and the setters, [g] the realm
    the call leaves, which the next call finds. *)
Fixpoint mapChatWith (id : string)
  (f : Realm → ChatSession → ChatSession * list UiEffect)
  (g : Realm → ChatSession → Realm)
  (realm : Realm) (history : list ChatSession)
  : list ChatSession * list UiEffect * Realm :=
  match history with
  | [] => ([], [], realm)
  | chat :: rest =>
      let '(chat', effects, realm1) :=
        if String.eqb (chat_id chat) id then (f realm chat, g realm chat)
        else (chat, [], realm) in
      let '(rest', effects', realm2) := mapChatWith id f g realm1 rest in
      (chat' :: rest', effects ++ effects', realm2)
  end.

Definition setChatHistoryWith (w : Write) (id : string)
  (f : Realm → ChatSession → ChatSession * list UiEffect)
  (g : Realm → ChatSession → Realm) : M unit := λ st,
  let '(history', effects, realm') :=
    mapChatWith id f g (objectPrototype st) (chatHistory st) in
  (tt, mkState history' (activeChatId st) (isLoading st)
         (abortControllerRef st) (signalAborted st)
         (trace st ++ [EvSetChatHistory w] ++ map EvUi effects) realm').

(** [handleStopGeneration]. Its closure holds [activeChatId] and
    [isLoading] of the render in which the stop button is shown, which are
    those of the state in which the button is pressed. *)
Definition stoppedNotice : string := "You stopped this response.".

Definition stopUpdater (isLoadingSeen : bool) (chat : ChatSession) : ChatSession :=
  match last (chat_messages chat) with
  | Some lastMessage =>
      match msg_role lastMessage with
      | MODEL =>
          if isLoadingSeen
          then replaceLast chat (withIsThinking (withContent lastMessage stoppedNotice) false)
          else chat
      | USER => chat
      end
  | None => chat
  end.

Definition handleStopGeneration : M unit :=
  seen ← get;
  (if abortControllerRef seen then abortCurrent else mret tt);;
  setIsLoading false;;
  setChatHistory WriteStopped
    (match activeChatId seen with
     | Some id => mapChat id (stopUpdater (isLoading seen))
     | None => λ prev, prev
     end).

(** An await of the adapter: the user may press stop while it is
    pending; then it resolves ([true]) or rejects ([false]). *)
Definition await (script : Script) (k : nat) : M bool :=
  (if bool_decide (stopAt script = Some k) then handleStopGeneration else mret tt);;
  mret (negb (bool_decide (rejectsAt script = Some k))).

End Runtime.

(** ** The generation client ([services/geminiService]) *)

Module Adapter.
Import Chat Finalize Models Runtime.

(** What an adapter call throws: the [DOMException] named [AbortError],
    or any other error. *)
Inductive Thrown := AbortError | OtherError.

Definition emptyResponse : Response := mkResponse None None None.

Section GenerateChatResponse.
Context {Acc : Type}.
Variable script : Script.

(** The callback; [Acc] stands for the variables it closes over. *)
Variable onChunk : Response → Acc → M Acc.

(** [while (true) { if (signal.aborted) { ...; throw AbortError }
      const { value, done } = await iterator.next();
      if (done) break; onChunk(value); }]
    [pending] is what the stream still holds and [k] numbers the await. *)
Fixpoint readStream (pending : list Response) (k : nat) (acc : Acc)
  : M (option Thrown * Acc) :=
  st ← get;
  if signalAborted st then mret (Some AbortError, acc)
  else
    resolved ← await script k;
    if negb resolved then mret (Some OtherError, acc)
    else
      match pending with
      | [] => mret (None, acc)
      | value :: rest =>
          acc' ← onChunk value acc;
          readStream rest (S k) acc'
      end.

(** The [try] block of [generateChatResponse]. *)
Definition chatResponseTry (modelName : Model) (acc : Acc) : M (option Thrown * Acc) :=
  if isImageEditModel (Some modelName) then
    (* image editing models use the non-streaming call *)
    st ← get;
    if signalAborted st then mret (Some AbortError, acc)
    else
      resolved ← await script 0;
      if negb resolved then mret (Some OtherError, acc)
      else acc' ← onChunk (response script) acc; mret (None, acc')
  else
    resolved ← await script 0;
    if negb resolved then mret (Some OtherError, acc)
    else readStream (chunks script) 1 acc.

(** [generateChatResponse]: the [catch] clause passes an [AbortError] on
    and replaces every other error by a new [Error]. *)
Definition generateChatResponse (modelName : Model) (acc : Acc) : M (option Thrown * Acc) :=
  '(thrown, acc') ← chatResponseTry modelName acc;
  match thrown with
  | Some AbortError => console "Stream generation aborted.";; mret (Some AbortError, acc')
  | Some OtherError =>
      console "Error streaming chat response:";; mret (Some OtherError, acc')
  | None => mret (None, acc')
  end.

End GenerateChatResponse.

Definition imageResponse (script : Script) : Response :=
  mkResponse (Some EmptyString)
    (Some (map (λ bytes, mkPart None (Some (mkInline "image/png" bytes))) (images script)))
    None.

Definition generateImageTry (script : Script) : M (Thrown + Response) :=
  st ← get;
  if signalAborted st then mret (inl AbortError)
  else
    resolved ← await script 0;
    if negb resolved then mret (inl OtherError)
    else
      st' ← get;
      if signalAborted st' then mret (inl AbortError)
      else mret (inr (imageResponse script)).

(** [generateImage] *)
Definition generateImage (script : Script) : M (Thrown + Response) :=
  r ← generateImageTry script;
  match r with
  | inl AbortError => console "Image generation aborted.";; mret r
  | inl OtherError => console "Error generating image:";; mret r
  | inr _ => mret r
  end.

(** [while (!operation.done) { if (signal.aborted) throw AbortError;
      await sleep; operation = await getVideosOperation(...) }]:
    [remaining] polls are needed; the result is the number of the next
    await. *)
Fixpoint pollVideo (script : Script) (remaining k : nat) : M (Thrown + nat) :=
  match remaining with
  | O => mret (inr k)
  | S remaining' =>
      st ← get;
      if signalAborted st then mret (inl AbortError)
      else
        slept ← await script k;
        if negb slept then mret (inl OtherError)
        else
          polled ← await script (S k);
          if negb polled then mret (inl OtherError)
          else pollVideo script remaining' (S (S k))
  end.

Definition videoResponse (script : Script) : Response :=
  mkResponse (Some "Your video has been generated.")
    (Some [mkPart None (Some (mkInline "video/mp4" (videoData script)))])
    None.

Definition generateVideoTry (script : Script) : M (Thrown + Response) :=
  st ← get;
  if signalAborted st then mret (inl AbortError)
  else
    started ← await script 0;
    if negb started then mret (inl OtherError)
    else
      polled ← pollVideo script (polls script) 1;
      match polled with
      | inl thrown => mret (inl thrown)
      | inr k =>
          st' ← get;
          if signalAborted st' then mret (inl AbortError)
          else if negb (downloadLink script) then mret (inl OtherError)
          else
            fetched ← await script k;
            if negb fetched || negb (fetchOk script) then mret (inl OtherError)
            else
              blob ← await script (S k);
              if negb blob then mret (inl OtherError)
              else
                read ← await script (S (S k));
                if negb read then mret (inl OtherError)
                else mret (inr (videoResponse script))
      end.

(** [generateVideo] *)
Definition generateVideo (script : Script) : M (Thrown + Response) :=
  r ← generateVideoTry script;
  match r with
  | inl AbortError => console "Video generation aborted.";; mret r
  | inl OtherError => console "Error generating video:";; mret r
  | inr _ => mret r
  end.

End Adapter.

(** ** [handleSendMessage] *)

Module Send.
Import FileTree Citations Chat Finalize Models Runtime Adapter.

(** How the promise of the handler settles. The handler reads
    [currentChat] without a check; when the active id names no session this
    raises outside the [try] and the promise rejects. *)
Inductive Completion := Returned | Rejected.

(** The variables of one send that the callback and the [finally] block
    share. *)
Record Locals := mkLocals {
  fullResponseText : string;
  groundingChunks : list GroundingChunk;
  finalParts : list Part;
  fullResponse : option Response
}.

Definition initialLocals : Locals := mkLocals EmptyString [] [] None.

(** The constants of one send. *)
Record Request := mkRequest {
  isInterpreterRequest : bool;
  isImageRequest : bool;
  isVideoRequest : bool;
  echoes : bool;   (* [!isInterpreterRequest && !isImageEditModel &&
                      !isTextToImageModel && !isVideoModel] *)
  currentChatId : string
}.

Definition newline : string := String "010" EmptyString.

(** [initialFiles] of [types]. *)
Definition initialFiles : Files :=
  {[ "index.html" := fileNode "index.html"
       ("<!DOCTYPE html>" +:+ newline +:+
        "<html lang=" +:+ quoted "en" +:+ ">" +:+ newline +:+
        "<head>" +:+ newline +:+
        "  <meta charset=" +:+ quoted "UTF-8" +:+ ">" +:+ newline +:+
        "  <meta name=" +:+ quoted "viewport" +:+ " content="
          +:+ quoted "width=device-width, initial-scale=1.0" +:+ ">" +:+ newline +:+
        "  <title>AI Project Preview</title>" +:+ newline +:+
        "  <script src=" +:+ quoted "https://cdn.tailwindcss.com" +:+ "></script>" +:+ newline +:+
        "</head>" +:+ newline +:+
        "<body class=" +:+ quoted "bg-gray-100" +:+ ">" +:+ newline +:+
        "  <div class="
          +:+ quoted "p-8 flex flex-col items-center justify-center min-h-screen"
          +:+ ">" +:+ newline +:+
        "    <h1 class=" +:+ quoted "text-3xl font-bold text-gray-800"
          +:+ ">Hello, World!</h1>" +:+ newline +:+
        "    <p class=" +:+ quoted "mt-2 text-gray-600"
          +:+ ">Your AI-generated project will be displayed here.</p>" +:+ newline +:+
        "  </div>" +:+ newline +:+
        "</body>" +:+ newline +:+
        "</html>") ]}.

Definition videoPlaceholder : string :=
  "🎬 **Generating your video...**" +:+ newline +:+ newline +:+
  "This process can take several minutes. Please wait while the model creates your content.".

Definition errorNotice : string := "Sorry, I encountered an error. Please try again.".

Definition textAttachmentAlert : string :=
  "Text-to-image models do not support file attachments. Please remove the attached files.".

Definition editAttachmentAlert : string :=
  "Image editing models require a file attachment. Please attach an image to edit.".

Definition isEmpty {A : Type} (l : list A) : bool :=
  match l with [] => true | _ :: _ => false end.

(** [prompt.substring(0, 40) + (prompt.length > 40 ? '...' : '')] *)
Definition derivedTitle (prompt : string) : string :=
  Js.substringTo 40 prompt +:+ (if 40 <? Js.length prompt then "..." else EmptyString).

Section Handlers.
Variable JSON_parse : string → option Parsed.
Variable Date_now : string.

(** [createNewProject(name)] *)
Definition createNewProject (name : string) : Project :=
  mkProject ("proj_" +:+ Date_now) name "A new coding project." initialFiles.

Definition uiUserMessage (prompt : string) (attachments : list Attachment) : ChatMessage :=
  mkMessage ("msg-user-" +:+ Date_now) USER prompt (Some attachments)
    None None None None None.

Definition placeholderModelMessage (cfg : Settings) : ChatMessage :=
  let isThinkingActive :=
    isThinkingModel (activeBaseModel cfg)
    && (isProModel (activeBaseModel cfg) || useThinking cfg) in
  mkMessage ("msg-model-" +:+ Date_now) MODEL
    (if Toggles.isVideoToolActive (toggles cfg) then videoPlaceholder else EmptyString)
    None (Some EmptyString)
    (Some (isThinkingActive || Toggles.isImageToolActive (toggles cfg)
           || Toggles.isVideoToolActive (toggles cfg)))
    (Some (Toggles.isCodeInterpreterToggled (toggles cfg)))
    None None.

(** [apiUserMessage], with the rewrite of its content for deep research
    with a URL context. *)
Definition apiUserMessage (cfg : Settings) (prompt : string) (attachments : list Attachment)
  : ChatMessage :=
  mkMessage ("msg-user-api-" +:+ Date_now) USER
    (if negb (isTunedSelection cfg)
        && Toggles.isDeepResearchToggled (toggles cfg)
        && useUrlContext cfg && Js.truthy (urlContext cfg)
     then "Using the content from the URL: " +:+ urlContext cfg
          +:+ ", answer the following question: " +:+ prompt
     else prompt)
    (Some attachments) None None None None None.

(** [activeBaseModel || Model.GEMINI_2_5_FLASH] *)
Definition modelForApi (cfg : Settings) : Model :=
  default GEMINI_2_5_FLASH (activeBaseModel cfg).

(** The updater of the callback. *)
Definition echoUpdater (text : string) (prevSession : ChatSession) : ChatSession :=
  match last (chat_messages prevSession) with
  | Some lastMessage =>
      match msg_role lastMessage with
      | MODEL => replaceLast prevSession (withContent lastMessage text)
      | USER => prevSession
      end
  | None => prevSession
  end.

(** The callback handed to [generateChatResponse]. A chunk without [text]
    appends the string [undefined], as [+=] does. *)
Definition onChunk (rq : Request) (chunk : Response) (l : Locals) : M Locals :=
  emit (EvObserved chunk);;
  let l' :=
    mkLocals
      (fullResponseText l +:+ default "undefined" (resp_text chunk))
      (groundingChunks l ++ default [] (resp_groundingChunks chunk))
      (default (finalParts l) (resp_parts chunk))
      (Some chunk) in
  (if echoes rq
   then setChatHistory WriteEcho
          (mapChat (currentChatId rq) (echoUpdater (fullResponseText l')))
   else mret tt);;
  mret l'.

(** The [try] block: the adapter call the mode asks for. [videoModel] is
    the model handed to [generateVideo]. *)
Definition tryBlock (cfg : Settings) (script : Script) (rq : Request) (videoModel : Model)
  (prompt : string) (attachments : list Attachment) (messagesForApi : list ChatMessage)
  : M (option Thrown * Locals) :=
  if isImageRequest rq && isTextToImageModel (activeBaseModel cfg) then
    emit (EvAdapterCall (CallGenerateImage prompt (modelForApi cfg)));;
    r ← generateImage script;
    match r with
    | inl thrown => mret (Some thrown, initialLocals)
    | inr resp =>
        emit (EvObserved resp);;
        mret (None, mkLocals EmptyString [] [] (Some resp))
    end
  else if isVideoRequest rq then
    emit (EvAdapterCall (CallGenerateVideo prompt attachments videoModel));;
    r ← generateVideo script;
    match r with
    | inl thrown => mret (Some thrown, initialLocals)
    | inr resp =>
        emit (EvObserved resp);;
        mret (None, mkLocals EmptyString [] [] (Some resp))
    end
  else
    emit (EvAdapterCall (CallGenerateChatResponse messagesForApi (modelForApi cfg)));;
    generateChatResponse script (onChunk rq) (modelForApi cfg) initialLocals.

Definition errorUpdater (prev : ChatSession) : ChatSession :=
  match last (chat_messages prev) with
  | Some lastMessage =>
      match msg_role lastMessage with
      | MODEL => replaceLast prev (withIsThinking (withContent lastMessage errorNotice) false)
      | USER => prev
      end
  | None => prev
  end.

(** The [catch] clause. An [AbortError] makes the handler return; the
    [finally] block still runs. *)
Definition catchBlock (rq : Request) (thrown : option Thrown) : M unit :=
  match thrown with
  | None => mret tt
  | Some AbortError => console "Message generation was stopped by the user."
  | Some OtherError =>
      console "Error generating response:";;
      setChatHistory WriteError (mapChat (currentChatId rq) errorUpdater)
  end.

(** [if (fullResponse) { finalParts = ...parts || finalParts;
      fullResponseText = fullResponse.text || fullResponseText }]; the second
    revision takes the text of the response only for image and video
    requests ([textOfResponse]). *)
Definition settleLocals (textOfResponse : bool) (l : Locals) : Locals :=
  match fullResponse l with
  | Some resp =>
      mkLocals
        (if textOfResponse && truthyField (resp_text resp)
         then default EmptyString (resp_text resp) else fullResponseText l)
        (groundingChunks l)
        (default (finalParts l) (resp_parts resp))
        (fullResponse l)
  | None => l
  end.

Definition closureOf (cfg : Settings) (rq : Request) (l : Locals) : Closure :=
  mkClosure (isImageRequest rq) (isVideoRequest rq) (isInterpreterRequest rq)
    (viewportIsMobile cfg) (fullResponseText l) (finalParts l) (groundingChunks l).

(** [prev.map(c => c.id === currentChatId ? finalUpdater(c) : c)]: the
    sessions, the setters called and the realm left. *)
Definition finalWrite (closure : Closure) (id : string) (realm : Realm)
  (history : list ChatSession) : list ChatSession * list UiEffect * Realm :=
  mapChatWith id
    (λ realm, finalUpdater JSON_parse Date_now realm closure)
    (λ realm, finalRealm JSON_parse realm closure)
    realm history.

(** The [finally] block. *)
Definition finallyBlock (cfg : Settings) (rq : Request) (textOfResponse : bool) (l : Locals)
  : M unit :=
  setIsLoading false;;
  st ← get;
  if signalAborted st then mret tt
  else
    let closure := closureOf cfg rq (settleLocals textOfResponse l) in
    setChatHistoryWith WriteFinal (currentChatId rq)
      (λ realm, finalUpdater JSON_parse Date_now realm closure)
      (λ realm, finalRealm JSON_parse realm closure).

(** [try { ... } catch { ... } finally { ... }] *)
Definition runRequest (cfg : Settings) (script : Script) (rq : Request) (videoModel : Model)
  (textOfResponse : bool)
  (prompt : string) (attachments : list Attachment) (messagesForApi : list ChatMessage)
  : M Completion :=
  '(thrown, l) ← tryBlock cfg script rq videoModel prompt attachments messagesForApi;
  catchBlock rq thrown;;
  finallyBlock cfg rq textOfResponse l;;
  mret Returned.

(** *** The first revision of [App]: a send from the empty screen creates
    the session. *)

Definition isVideoModelA (activeBaseModel : option Model) : bool :=
  bool_decide (activeBaseModel = Some VEO_2_0_GENERATE_001).

Definition requestA (cfg : Settings) (id : string) : Request :=
  mkRequest
    (Toggles.isCodeInterpreterToggled (toggles cfg))
    (Toggles.isImageToolActive (toggles cfg))
    (Toggles.isVideoToolActive (toggles cfg))
    (negb (Toggles.isCodeInterpreterToggled (toggles cfg))
     && negb (isImageEditModel (activeBaseModel cfg))
     && negb (isTextToImageModel (activeBaseModel cfg))
     && negb (isVideoModelA (activeBaseModel cfg)))
    id.

(** [currentChat.messages.slice(0, -2)] *)
Definition dropLastTwo {A : Type} (l : list A) : list A := take (length l - 2) l.

Definition handleSendMessageA (cfg : Settings) (script : Script)
  (prompt : string) (attachments : list Attachment) : M Completion :=
  seen ← get;
  if (negb (Js.truthy (Js.trim prompt)) && isEmpty attachments) || isLoading seen
  then mret Returned
  else if Toggles.isImageToolActive (toggles cfg)
          && isTextToImageModel (activeBaseModel cfg)
          && negb (isEmpty attachments)
  then alert textAttachmentAlert;; mret Returned
  else
    setIsLoading true;;
    newAbortController;;
    let id := default Date_now (activeChatId seen) in
    let rq := requestA cfg id in
    let turn := [uiUserMessage prompt attachments; placeholderModelMessage cfg] in
    let currentChat :=
      match activeChatId seen with
      | None => Some (mkSession id (derivedTitle prompt) turn None)
      | Some _ => findChat id (chatHistory seen)
      end in
    match activeChatId seen with
    | None =>
        setChatHistory WriteNewChat
          (λ prev, mkSession id (derivedTitle prompt) turn None :: prev);;
        setActiveChatId id
    | Some _ =>
        setChatHistory WriteAppendTurn
          (mapChat id (λ chat, withMessages chat (chat_messages chat ++ turn)))
    end;;
    (if isInterpreterRequest rq then
       match findChat id (chatHistory seen) ≫= chat_project with
       | Some _ => mret tt
       | None =>
           let newProject :=
             createNewProject ("Project for: " +:+ Js.substringTo 30 prompt +:+ "...") in
           match currentChat with
           | Some chat =>
               setChatHistory WriteProject
                 (mapChat id (λ _, withSessionProject chat newProject))
           | None =>
               (* no session has this id: the map changes nothing *)
               emit (EvSetChatHistory WriteProject)
           end
       end
     else mret tt);;
    match currentChat with
    | None => mret Rejected
    | Some chat =>
        runRequest cfg script rq VEO_2_0_GENERATE_001 true prompt attachments
          (dropLastTwo (chat_messages chat) ++ [apiUserMessage cfg prompt attachments])
    end.

(** *** The second revision of [App]: a send needs an active session,
    and an image editing model needs an attachment. *)

Definition isVideoModelB : option Model → bool :=
  oneOf [VEO_2_0_GENERATE_001; VEO_3_0_GENERATE_PREVIEW; VEO_3_0_FAST_GENERATE_PREVIEW].

Definition requestB (cfg : Settings) (id : string) : Request :=
  mkRequest
    (Toggles.isCodeInterpreterToggled (toggles cfg))
    (Toggles.isImageToolActive (toggles cfg))
    (Toggles.isVideoToolActive (toggles cfg))
    (negb (Toggles.isCodeInterpreterToggled (toggles cfg))
     && negb (isImageEditModel (activeBaseModel cfg))
     && negb (isTextToImageModel (activeBaseModel cfg))
     && negb (isVideoModelB (activeBaseModel cfg)))
    id.

Definition handleSendMessageB (cfg : Settings) (script : Script)
  (prompt : string) (attachments : list Attachment) : M Completion :=
  seen ← get;
  if (negb (Js.truthy (Js.trim prompt)) && isEmpty attachments) || isLoading seen
  then mret Returned
  else
    match activeChatId seen with
    | None => mret Returned
    | Some id =>
        if negb (Js.truthy id) then mret Returned
        else if Toggles.isImageToolActive (toggles cfg)
                && isTextToImageModel (activeBaseModel cfg)
                && negb (isEmpty attachments)
        then alert textAttachmentAlert;; mret Returned
        else if Toggles.isImageToolActive (toggles cfg)
                && isImageEditModel (activeBaseModel cfg)
                && isEmpty attachments
        then alert editAttachmentAlert;; mret Returned
        else
          setIsLoading true;;
          newAbortController;;
          let rq := requestB cfg id in
          match findChat id (chatHistory seen) with
          | None => mret Rejected
          | Some found =>
              let needsProject :=
                isInterpreterRequest rq
                && match chat_project found with Some _ => false | None => true end in
              let currentChat :=
                if needsProject
                then withSessionProject found
                       (createNewProject
                          ("Project for: " +:+ Js.substringTo 30 prompt +:+ "..."))
                else found in
              (if needsProject
               then setChatHistory WriteProject (mapChat id (λ _, currentChat))
               else mret tt);;
              let newTitle :=
                if isEmpty (chat_messages currentChat) then derivedTitle prompt
                else chat_title currentChat in
              setChatHistory WriteAppendTurn
                (mapChat id (λ chat,
                   withTitleMessages chat newTitle
                     (chat_messages chat
                      ++ [uiUserMessage prompt attachments; placeholderModelMessage cfg])));;
              runRequest cfg script rq (modelForApi cfg)
                (isImageRequest rq || isVideoRequest rq) prompt attachments
                (chat_messages currentChat ++ [apiUserMessage cfg prompt attachments])
          end
    end.

End Handlers.

End Send.

(** ** Reading the claims about a send *)

Module SendSpec.
Import Chat Finalize Models Runtime Adapter Send.

Definition isFinalWrite (e : Event) : bool :=
  match e with EvSetChatHistory WriteFinal => true | _ => false end.

Definition isClearLoading (e : Event) : bool :=
  match e with EvSetIsLoading false => true | _ => false end.

Definition isAdapterCall (e : Event) : bool :=
  match e with EvAdapterCall _ => true | _ => false end.

Definition isObservation (e : Event) : bool :=
  match e with EvObserved _ => true | _ => false end.

(** The position of the first event of a kind. *)
Fixpoint firstIndex (kind : Event → bool) (events : list Event) : option nat :=
  match events with
  | [] => None
  | e :: rest => if kind e then Some 0 else S <$> firstIndex kind rest
  end.

(** The order the specification states: the final write of the run comes
    before the loading flag is cleared. *)
Definition finalWriteBeforeClear (events : list Event) : Prop :=
  match firstIndex isFinalWrite events, firstIndex isClearLoading events with
  | Some final, Some clear => final < clear
  | _, _ => False
  end.

(** The content of the trailing message of a session. *)
Definition trailingContent (id : string) (st : State) : option string :=
  findChat id (chatHistory st) ≫= λ chat, msg_content <$> last (chat_messages chat).

(** The two rejected combinations of the image tool. *)
Definition imageMismatch (cfg : Settings) (attachments : list Attachment) : Prop :=
  Toggles.isImageToolActive (toggles cfg) = true
  ∧ ((isImageEditModel (activeBaseModel cfg) = true ∧ attachments = [])
     ∨ (isTextToImageModel (activeBaseModel cfg) = true ∧ attachments ≠ [])).

(** Events other than the clearing of the loading flag and the final
    write. *)
Definition quietEvent (e : Event) : bool :=
  negb (isClearLoading e) && negb (isFinalWrite e).

(** The request that is running has not been stopped. *)
Definition live (st : State) : Prop :=
  abortControllerRef st = true ∧ signalAborted st = false.

(** Since [st0] the run has either been stopped, or it is live and has
    only added quiet events. *)
Definition undisturbed (st0 st : State) : Prop :=
  signalAborted st = true
  ∨ (live st ∧ ∃ events, trace st = trace st0 ++ events
                         ∧ forallb quietEvent events = true).

(** A computation keeps a run undisturbed. *)
Definition keeps {A : Type} (m : M A) : Prop :=
  ∀ st0 st, undisturbed st0 st → undisturbed st0 (m st).2.

(** A computation that returns without the request having been stopped
    ends by clearing the loading flag, then committing the final write, then
    the setters of [finalUpdater]; all it did before is quiet. *)
Definition settles (m : M Completion) : Prop :=
  ∀ st0 st completion st2,
    undisturbed st0 st → m st = (completion, st2) →
    completion = Returned → signalAborted st2 = false →
    ∃ pre effects,
      trace st2
      = trace st0 ++ pre ++ [EvSetIsLoading false; EvSetChatHistory WriteFinal]
        ++ map EvUi effects
      ∧ forallb quietEvent pre = true
      ∧ isLoading st2 = false.

End SendSpec.

Module SendExamples.
Import Chat Finalize Models Runtime Adapter Send.

Definition chatSettings : Settings :=
  mkSettings Toggles.allOff (Some GEMINI_2_0_FLASH) false false EmptyString false false.

Definition imageEditSettings : Settings :=
  mkSettings (Toggles.mkToggles false false true false)
    (Some GEMINI_2_5_FLASH_IMAGE_PREVIEW) false false EmptyString false false.

Definition emptyScreen : State := mkState [] None false false false [] ∅.

Definition openSession : State :=
  mkState [mkSession "1" "New Chat" [] None] (Some "1") false false false [] ∅.

Definition textChunk (t : string) : Response := mkResponse (Some t) None None.

(** The stream yields [Hi] and [ there]; [stop] is the await during which
    the user presses stop, if at all. *)
Definition hiThere (stop : option nat) : Script :=
  mkScript stop None [textChunk "Hi"; textChunk " there"] emptyResponse [] 0 false false
    EmptyString.

(** The state in which the first revision starts the request for the
    prompt [Hello] from the empty screen, and the request itself. *)
Definition helloRequest : Request := requestA chatSettings "0".

Definition helloMessages : list ChatMessage := [apiUserMessage "0" chatSettings "Hello" []].

Definition helloStarted : State :=
  mkState
    [mkSession "0" "Hello"
       [uiUserMessage "0" "Hello" []; placeholderModelMessage "0" chatSettings] None]
    (Some "0") true true false
    [EvSetIsLoading true; EvSetChatHistory WriteNewChat; EvSetActiveChatId "0"] ∅.

(** The stream yields a thinking block and then [Hi]. *)
Definition thinkingThenHi : Script :=
  mkScript None None [textChunk "<thinking>r</thinking>"; textChunk "Hi"] emptyResponse []
    0 false false EmptyString.

(** The stream yields [Hel] and then [lo]. *)
Definition helThenLo : Script :=
  mkScript None None [textChunk "Hel"; textChunk "lo"] emptyResponse [] 0 false false
    EmptyString.

(** The code interpreter is on. *)
Definition projectSettings : Settings :=
  mkSettings (Toggles.mkToggles true false false false) (Some GEMINI_2_0_FLASH)
    false false EmptyString false false.

(** The stream yields the two braces of [{}] one after the other. *)
Definition bracesApart : Script :=
  mkScript None None [textChunk "{"; textChunk "}"] emptyResponse [] 0 false false
    EmptyString.

(** An image editing model answers with one response. *)
Definition editedImage : Script :=
  mkScript None None []
    (mkResponse (Some "Done.") (Some [mkPart (Some "Done.") None]) None)
    [] 0 false false EmptyString.

End SendExamples.

(** ** Request contents ([services/geminiService]: [dataUrlToBase64],
    [buildContents]) *)

Module Service.
Import Chat Finalize.

(** [dataUrl.substring(dataUrl.indexOf(',') + 1)]: without a comma
    [indexOf] gives [-1] and the substring starts at [0]. *)
Definition dataUrlToBase64 (dataUrl : string) : string :=
  Js.drop (match Js.indexOf "," dataUrl with Some i => i + 1 | None => 0 end) dataUrl.

(** [Content]: [role] and [parts]. *)
Record Content := mkContent { role : Role; parts : list Part }.

(** [buildContents(messages)] *)
Definition buildContents (messages : list ChatMessage) : list Content :=
  map (λ msg,
         mkContent (msg_role msg)
           ((if Js.truthy (Js.trim (msg_content msg))
             then [mkPart (Some (msg_content msg)) None] else [])
            ++ match msg_attachments msg with
               | Some files =>
                   map (λ file,
                          mkPart None
                            (Some (mkInline (att_mimeType file)
                                     (dataUrlToBase64 (att_dataUrl file)))))
                       files
               | None => []
               end))
      messages.

End Service.

(** ** Reading the response parts and the file list *)

Module PartsSpec.
Import Chat Finalize.

(** The inline media of the parts that carry no text, in order: the parts
    the image and video branch turns into attachments. *)
Definition inlineOf (parts : list Part) : list InlineData :=
  omap (λ part, if truthyField (part_text part) then None else part_inlineData part) parts.

(** The inline media of request parts. *)
Definition inlineData (parts : list Part) : list InlineData := omap part_inlineData parts.

(** The paths of the well-formed entries of a file list. *)
Definition entryPaths (entries : list FileEntry) : list string :=
  omap (λ entry, match entry with Entry path _ => Some path | EntryRaises => None end)
       entries.

End PartsSpec.

(** ** Session handlers and effects of [App] (first revision) *)

Module Sessions.
Import Chat Finalize.

(** [arr.filter((_, idx) => keep(idx))] *)
Fixpoint filterFrom {A : Type} (keep : nat → bool) (idx : nat) (arr : list A) : list A :=
  match arr with
  | [] => []
  | a :: arr' =>
      if keep idx then a :: filterFrom keep (S idx) arr' else filterFrom keep (S idx) arr'
  end.

Definition filterIndex {A : Type} (keep : nat → bool) (arr : list A) : list A :=
  filterFrom keep 0 arr.

(** The state these handlers read and write. They also set sidebar and
    modal flags, which none of them reads; those are left out. *)
Record View := mkView {
  chatHistory : list ChatSession;
  activeChatId : option string;
  chatToDelete : option string;
  pendingProjectUpdate : option Project;
  toggles : Toggles.ToolToggles;
  isCodePanelVisible : bool
}.

(** [chat.id === activeChatId] *)
Definition isActive (activeChatId : option string) (chat : ChatSession) : bool :=
  bool_decide (activeChatId = Some (chat_id chat)).

(** [prev.map(chat => chat.id === activeChatId ? f(chat) : chat)] *)
Definition mapActive (activeChatId : option string) (f : ChatSession → ChatSession)
  : list ChatSession → list ChatSession :=
  map (λ chat, if isActive activeChatId chat then f chat else chat).

(** [activeChatId ? chatHistory.find(c => c.id === activeChatId) : null] *)
Definition activeChat (v : View) : option ChatSession :=
  match activeChatId v with
  | Some id =>
      if Js.truthy id then List.find (isActive (Some id)) (chatHistory v) else None
  | None => None
  end.

(** The effect that follows the active session:
    [setIsCodeInterpreterToggled(!!activeChat?.project)]. *)
Definition syncCodeInterpreter (v : View) : View :=
  let projectExists :=
    match activeChat v ≫= chat_project with Some _ => true | None => false end in
  mkView (chatHistory v) (activeChatId v) (chatToDelete v) (pendingProjectUpdate v)
    (Toggles.mkToggles projectExists
       (Toggles.isDeepResearchToggled (toggles v))
       (Toggles.isImageToolActive (toggles v))
       (Toggles.isVideoToolActive (toggles v)))
    (isCodePanelVisible v).

(** [handleNewChat] *)
Definition handleNewChat (v : View) : View :=
  match activeChatId v with
  | None => v
  | Some _ =>
      mkView (chatHistory v) None (chatToDelete v) (pendingProjectUpdate v)
        (Toggles.mkToggles (Toggles.isCodeInterpreterToggled (toggles v)) false false false)
        false
  end.

(** The effect that repairs [activeChatId]. *)
Definition repairActiveChat (v : View) : View :=
  let activeChatExists := existsb (isActive (activeChatId v)) (chatHistory v) in
  match activeChatId v with
  | None => v
  | Some _ =>
      match chatHistory v with
      | first :: _ =>
          if negb activeChatExists
          then mkView (chatHistory v) (Some (chat_id first)) (chatToDelete v)
                 (pendingProjectUpdate v) (toggles v) (isCodePanelVisible v)
          else v
      | [] =>
          mkView (chatHistory v) None (chatToDelete v)
            (pendingProjectUpdate v) (toggles v) (isCodePanelVisible v)
      end
  end.

(** [handleStreamComplete] *)
Definition handleStreamComplete (v : View) : View :=
  match pendingProjectUpdate v with
  | Some project =>
      mkView
        (mapActive (activeChatId v) (λ chat, withSessionProject chat project)
           (chatHistory v))
        (activeChatId v) (chatToDelete v) None (toggles v) (isCodePanelVisible v)
  | None => v
  end.

(** [handleOpenProjectVersion(project)] *)
Definition handleOpenProjectVersion (project : Project) (v : View) : View :=
  mkView
    (mapActive (activeChatId v) (λ chat, withSessionProject chat project) (chatHistory v))
    (activeChatId v) (chatToDelete v) (pendingProjectUpdate v) (toggles v) true.

(** [handleSelectChat(id)] *)
Definition handleSelectChat (id : string) (v : View) : View :=
  mkView (chatHistory v) (Some id) (chatToDelete v) (pendingProjectUpdate v)
    (toggles v) false.

(** [handleDeleteChat(idToDelete)] *)
Definition handleDeleteChat (idToDelete : string) (v : View) : View :=
  mkView (chatHistory v) (activeChatId v) (Some idToDelete) (pendingProjectUpdate v)
    (toggles v) (isCodePanelVisible v).

(** [confirmDeleteChat] *)
Definition confirmDeleteChat (v : View) : View :=
  match chatToDelete v with
  | None => v
  | Some idToDelete =>
      if negb (Js.truthy idToDelete) then v
      else
        mkView
          (List.filter (λ chat, negb (String.eqb (chat_id chat) idToDelete))
             (chatHistory v))
          (if bool_decide (activeChatId v = Some idToDelete) then None
           else activeChatId v)
          None (pendingProjectUpdate v) (toggles v) (isCodePanelVisible v)
  end.

(** [newTitle.trim() || 'Untitled Chat'] *)
Definition titleFor (newTitle : string) : string :=
  if Js.truthy (Js.trim newTitle) then Js.trim newTitle else "Untitled Chat".

(** [handleRenameChat(id, newTitle)] *)
Definition handleRenameChat (id newTitle : string) (v : View) : View :=
  mkView
    (map (λ chat,
            if String.eqb (chat_id chat) id
            then withTitleMessages chat (titleFor newTitle) (chat_messages chat)
            else chat)
         (chatHistory v))
    (activeChatId v) (chatToDelete v) (pendingProjectUpdate v) (toggles v)
    (isCodePanelVisible v).

(** The updater of [handleDeleteAttachment] for the active session. *)
Definition deleteAttachment (messageIndex attachmentIndex : nat) (chat : ChatSession)
  : ChatSession :=
  match chat_messages chat !! messageIndex with
  | Some targetMessage =>
      match msg_attachments targetMessage with
      | Some attachments =>
          withMessages chat
            (<[messageIndex :=
                 withAttachments targetMessage
                   (filterIndex (λ idx, negb (idx =? attachmentIndex)) attachments)]>
               (chat_messages chat))
      | None => chat
      end
  | None => chat
  end.

(** [handleDeleteAttachment(messageIndex, attachmentIndex)] *)
Definition handleDeleteAttachment (messageIndex attachmentIndex : nat) (v : View) : View :=
  mkView
    (mapActive (activeChatId v) (deleteAttachment messageIndex attachmentIndex)
       (chatHistory v))
    (activeChatId v) (chatToDelete v) (pendingProjectUpdate v) (toggles v)
    (isCodePanelVisible v).

(** [handleProjectChange(newProject)] *)
Definition handleProjectChange (newProject : Project) (v : View) : View :=
  mkView
    (mapActive (activeChatId v) (λ chat, withSessionProject chat newProject)
       (chatHistory v))
    (activeChatId v) (chatToDelete v) (pendingProjectUpdate v) (toggles v)
    (isCodePanelVisible v).

(** [confirmClearHistory] *)
Definition confirmClearHistory (v : View) : View :=
  mkView [] None (chatToDelete v) (pendingProjectUpdate v) (toggles v)
    (isCodePanelVisible v).

(** The setters of [finalUpdater] that act on this state. *)
Definition applyEffect (v : View) (e : UiEffect) : View :=
  match e with
  | SetPendingProjectUpdate p =>
      mkView (chatHistory v) (activeChatId v) (chatToDelete v) (Some p) (toggles v)
        (isCodePanelVisible v)
  | SetIsCodePanelVisible b =>
      mkView (chatHistory v) (activeChatId v) (chatToDelete v) (pendingProjectUpdate v)
        (toggles v) b
  | _ => v
  end.

End Sessions.

(** ** Reading the session handlers *)

Module SessionsSpec.
Import Chat Sessions.

(** What a user can do to the session list. *)
Inductive Action :=
| NewChat
| SelectChat (id : string)
| DeleteChat (idToDelete : string)
| ConfirmDeleteChat
| RenameChat (id newTitle : string)
| DeleteAttachment (messageIndex attachmentIndex : nat)
| StreamComplete
| OpenProjectVersion (project : Project)
| ProjectChange (newProject : Project)
| ConfirmClearHistory
| RepairEffect
| SyncEffect.

Definition handle (a : Action) : View → View :=
  match a with
  | NewChat => handleNewChat
  | SelectChat id => handleSelectChat id
  | DeleteChat idToDelete => handleDeleteChat idToDelete
  | ConfirmDeleteChat => confirmDeleteChat
  | RenameChat id newTitle => handleRenameChat id newTitle
  | DeleteAttachment messageIndex attachmentIndex =>
      handleDeleteAttachment messageIndex attachmentIndex
  | StreamComplete => handleStreamComplete
  | OpenProjectVersion project => handleOpenProjectVersion project
  | ProjectChange newProject => handleProjectChange newProject
  | ConfirmClearHistory => confirmClearHistory
  | RepairEffect => repairActiveChat
  | SyncEffect => syncCodeInterpreter
  end.

(** The sidebar offers the sessions of the list for selection. *)
Definition offered (a : Action) (v : View) : Prop :=
  match a with
  | SelectChat id => ∃ chat, chat ∈ chatHistory v ∧ chat_id chat = id
  | _ => True
  end.

(** [activeChatId] is [null] or names a session of the list. *)
Definition activeValid (v : View) : Prop :=
  match activeChatId v with
  | None => True
  | Some id => ∃ chat, chat ∈ chatHistory v ∧ chat_id chat = id
  end.

End SessionsSpec.

(** ** Model selection ([App]: the name maps, [combinedModelOptions] and the
    effects that correct [selectedModel]; first revision) *)

Module Selection.
Import Models Toggles.

(** The string each member of [Model] stands for ([types]). *)
Definition modelValue (m : Model) : string :=
  match m with
  | GEMINI_2_5_PRO => "gemini-2.5-pro"
  | GEMINI_2_5_FLASH => "gemini-2.5-flash"
  | GEMINI_2_5_FLASH_LITE => "gemini-2.5-flash-lite"
  | GEMINI_2_5_FLASH_IMAGE_PREVIEW => "gemini-2.5-flash-image-preview"
  | GEMINI_2_0_FLASH => "gemini-2.0-flash"
  | GEMINI_2_0_FLASH_PREVIEW_IMAGE_GENERATION => "gemini-2.0-flash-preview-image-generation"
  | GEMINI_2_0_FLASH_LITE => "gemini-2.0-flash-lite"
  | IMAGEN_4_0_GENERATE_001 => "imagen-4.0-generate-001"
  | IMAGEN_4_0_ULTRA_GENERATE_001 => "imagen-4.0-ultra-generate-001"
  | IMAGEN_4_0_FAST_GENERATE_001 => "imagen-4.0-fast-generate-001"
  | IMAGEN_3_0_GENERATE_002 => "imagen-3.0-generate-002"
  | VEO_3_0_GENERATE_PREVIEW => "veo-3.0-generate-preview"
  | VEO_3_0_FAST_GENERATE_PREVIEW => "veo-3.0-fast-generate-preview"
  | VEO_2_0_GENERATE_001 => "veo-2.0-generate-001"
  | GEMMA_3N_E2B => "gemma-3n-e2b-it"
  | GEMMA_3N_E4B => "gemma-3n-e4b-it"
  | GEMMA_3_1B => "gemma-3-1b-it"
  | GEMMA_3_4B => "gemma-3-4b-it"
  | GEMMA_3_12B => "gemma-3-12b-it"
  | GEMMA_3_27B => "gemma-3-27b-it"
  end.

(** [Object.values(Model)] *)
Definition allModels : list Model :=
  [GEMINI_2_5_PRO; GEMINI_2_5_FLASH; GEMINI_2_5_FLASH_LITE;
   GEMINI_2_5_FLASH_IMAGE_PREVIEW; GEMINI_2_0_FLASH;
   GEMINI_2_0_FLASH_PREVIEW_IMAGE_GENERATION; GEMINI_2_0_FLASH_LITE;
   IMAGEN_4_0_GENERATE_001; IMAGEN_4_0_ULTRA_GENERATE_001;
   IMAGEN_4_0_FAST_GENERATE_001; IMAGEN_3_0_GENERATE_002;
   VEO_3_0_GENERATE_PREVIEW; VEO_3_0_FAST_GENERATE_PREVIEW; VEO_2_0_GENERATE_001;
   GEMMA_3N_E2B; GEMMA_3N_E4B; GEMMA_3_1B; GEMMA_3_4B; GEMMA_3_12B; GEMMA_3_27B].

Inductive TuningStatus := TRAINING | COMPLETED | FAILED.

#[global] Instance TuningStatus_eq_dec : EqDecision TuningStatus.
Proof. solve_decision. Defined.

(** [TunedModel], the fields the selection reads. *)
Record TunedModel := mkTuned {
  id : string;
  displayName : string;
  baseModel : Model;
  status : TuningStatus
}.

(** The name maps, as the ordered lists of their entries. *)
Definition chatModelNameMap : list (Model * string) :=
  [(GEMINI_2_5_PRO, "Gemini 2.5 Pro"); (GEMINI_2_5_FLASH, "Gemini 2.5 Flash");
   (GEMINI_2_5_FLASH_LITE, "Gemini 2.5 Flash-Lite");
   (GEMINI_2_0_FLASH, "Gemini 2.0 Flash"); (GEMINI_2_0_FLASH_LITE, "Gemini 2.0 Flash-Lite");
   (GEMMA_3N_E2B, "Gemma 3n E2B"); (GEMMA_3N_E4B, "Gemma 3n E4B");
   (GEMMA_3_1B, "Gemma 3 1B"); (GEMMA_3_4B, "Gemma 3 4B");
   (GEMMA_3_12B, "Gemma 3 12B"); (GEMMA_3_27B, "Gemma 3 27B")].

Definition imageGenerationModelNameMap : list (Model * string) :=
  [(IMAGEN_4_0_ULTRA_GENERATE_001, "Imagen 4 Ultra");
   (IMAGEN_4_0_GENERATE_001, "Imagen 4");
   (IMAGEN_4_0_FAST_GENERATE_001, "Imagen 4 Fast");
   (IMAGEN_3_0_GENERATE_002, "Imagen 3")].

Definition imageEditingModelNameMap : list (Model * string) :=
  [(GEMINI_2_5_FLASH_IMAGE_PREVIEW, "Flash 2.5 Preview Image");
   (GEMINI_2_0_FLASH_PREVIEW_IMAGE_GENERATION, "Flash 2.0 Preview Image")].

Definition videoGenerationModelNameMap : list (Model * string) :=
  [(VEO_2_0_GENERATE_001, "Veo 3")].

(** [Object.keys(nameMap)] *)
Definition keys (nameMap : list (Model * string)) : list string :=
  map (λ entry, modelValue entry.1) nameMap.

(** An option of the selector: [value] and [label]. *)
Record ModelOption := mkOption { value : string; label : string }.

(** [Object.keys(nameMap).map(modelKey => ({ value: modelKey, label: nameMap[modelKey] }))] *)
Definition optionsOf (nameMap : list (Model * string)) : list ModelOption :=
  map (λ entry, mkOption (modelValue entry.1) entry.2) nameMap.

Definition modelOptions : list ModelOption := optionsOf chatModelNameMap.

Definition deepResearchCompatibleModels : list string :=
  map modelValue [GEMINI_2_5_PRO; GEMINI_2_5_FLASH].

Definition codeInterpreterCompatibleModels : list string :=
  map modelValue
    [GEMINI_2_5_PRO; GEMINI_2_5_FLASH; GEMINI_2_5_FLASH_LITE;
     GEMINI_2_0_FLASH; GEMINI_2_0_FLASH_LITE].

(** [list.includes(selectedModel)] *)
Definition includes (list : list string) (selectedModel : string) : bool :=
  bool_decide (selectedModel ∈ list).

(** [combinedModelOptions] *)
Definition combinedModelOptions (t : ToolToggles) (tunedModels : list TunedModel)
  : list ModelOption :=
  if isVideoToolActive t then optionsOf videoGenerationModelNameMap
  else if isImageToolActive t
  then optionsOf imageGenerationModelNameMap ++ optionsOf imageEditingModelNameMap
  else
    let customModels :=
      map (λ m, mkOption (id m) ("[Custom] " +:+ displayName m))
          (List.filter (λ m, bool_decide (status m = COMPLETED)) tunedModels) in
    let baseOptions :=
      match customModels with
      | _ :: _ => modelOptions ++ customModels
      | [] => modelOptions
      end in
    if isDeepResearchToggled t
    then List.filter (λ opt, includes deepResearchCompatibleModels (value opt)) baseOptions
    else if isCodeInterpreterToggled t
    then List.filter (λ opt, includes codeInterpreterCompatibleModels (value opt)) modelOptions
    else baseOptions.

(** The three effects that watch [selectedModel]: the argument of the
    call of [setSelectedModel] an effect makes, if it makes one. *)
Definition deepResearchEffect (t : ToolToggles) (selectedModel : string) : option string :=
  if isDeepResearchToggled t && negb (includes deepResearchCompatibleModels selectedModel)
  then Some (modelValue GEMINI_2_5_FLASH) else None.

Definition codeInterpreterEffect (t : ToolToggles) (selectedModel : string) : option string :=
  if isCodeInterpreterToggled t
     && negb (includes codeInterpreterCompatibleModels selectedModel)
  then Some (modelValue GEMINI_2_5_FLASH) else None.

Definition multimediaEffect (t : ToolToggles) (selectedModel : string) : option string :=
  let imageGenModels := keys imageGenerationModelNameMap in
  let imageEditModels := keys imageEditingModelNameMap in
  let videoGenModels := keys videoGenerationModelNameMap in
  let allMultimediaModels := imageGenModels ++ imageEditModels ++ videoGenModels in
  if isImageToolActive t then
    if negb (includes (imageGenModels ++ imageEditModels) selectedModel)
    then Some (modelValue IMAGEN_4_0_GENERATE_001) else None
  else if isVideoToolActive t then
    if negb (includes videoGenModels selectedModel)
    then Some (modelValue VEO_2_0_GENERATE_001) else None
  else
    if includes allMultimediaModels selectedModel
    then Some (modelValue GEMINI_2_5_FLASH) else None.

Definition effects : list (ToolToggles → string → option string) :=
  [deepResearchEffect; codeInterpreterEffect; multimediaEffect].

(** [activeBaseModel] *)
Definition activeBaseModel (tunedModels : list TunedModel) (selectedModel : string)
  : option Model :=
  if Js.startsWith "tunedModels/" selectedModel
  then baseModel <$> List.find (λ m, String.eqb (id m) selectedModel) tunedModels
  else List.find (λ m, String.eqb (modelValue m) selectedModel) allModels.

End Selection.

(** ** Reading the selection *)

Module SelectionSpec.
Import Toggles Selection.

(** No effect writes on [selectedModel]. *)
Definition settled (t : ToolToggles) (selectedModel : string) : bool :=
  forallb (λ effect : ToolToggles → string → option string,
             match effect t selectedModel with None => true | Some _ => false end)
          effects.

End SelectionSpec.

(** ** The composer ([components/ChatArea]) *)

Module ChatArea.
Import Chat.

(** [input] and [attachedFiles] *)
Record Composer := mkComposer { input : string; attachedFiles : list Attachment }.

(** [handleSubmit]: the arguments of the call of [onSendMessage], if it
    is made, and the composer afterwards. *)
Definition handleSubmit (c : Composer) : option (string * list Attachment) * Composer :=
  if Js.truthy (Js.trim (input c)) || negb (Send.isEmpty (attachedFiles c))
  then (Some (Js.trim (input c), attachedFiles c), mkComposer EmptyString [])
  else (None, c).

(** [handleRemoveFile(indexToRemove)] *)
Definition handleRemoveFile (indexToRemove : nat) (c : Composer) : Composer :=
  mkComposer (input c)
    (Sessions.filterIndex (λ index, negb (index =? indexToRemove)) (attachedFiles c)).

(** [isSendDisabled] *)
Definition isSendDisabled (isLoading isStreamingText isImageEditModel : bool) (c : Composer)
  : bool :=
  isLoading || isStreamingText
  || (negb (Js.truthy (Js.trim (input c))) && Send.isEmpty (attachedFiles c))
  || (isImageEditModel && Send.isEmpty (attachedFiles c)).

End ChatArea.

(** ** Reading a whole send *)

Module StreamSpec.
Import Chat Finalize Models Runtime Adapter Send SendSpec.

Inductive Revision := FirstRevision | SecondRevision.

(** [handleSendMessage] of either revision. *)
Definition handleSendMessage (revision : Revision)
  (JSON_parse : string → option Parsed) (Date_now : string)
  (cfg : Settings) (script : Script) (prompt : string) (attachments : list Attachment)
  : M Completion :=
  match revision with
  | FirstRevision => handleSendMessageA JSON_parse Date_now cfg script prompt attachments
  | SecondRevision => handleSendMessageB JSON_parse Date_now cfg script prompt attachments
  end.

(** What the callback makes of its variables when a chunk arrives. *)
Definition absorb (l : Locals) (chunk : Response) : Locals :=
  mkLocals
    (fullResponseText l +:+ default "undefined" (resp_text chunk))
    (groundingChunks l ++ default [] (resp_groundingChunks chunk))
    (default (finalParts l) (resp_parts chunk))
    (Some chunk).

(** The texts of the chunks of a stream, one after the other; a chunk
    without text counts as the text [undefined]. *)
Definition streamedText (chunks : list Response) : string :=
  foldr (λ chunk rest, default "undefined" (resp_text chunk) +:+ rest) EmptyString chunks.

(** The content the plain chat branch stores for a text. *)
Definition shownText (text : string) : string :=
  match matchThinking text with
  | Some (before, _, after) => Js.trim (before +:+ after)
  | None => text
  end.

(** The text the first revision finalizes: the text of the last chunk if
    it has one that is not empty, and the whole stream otherwise. *)
Definition lastChunkOrStream (chunks : list Response) : string :=
  match last chunks with
  | Some chunk =>
      if truthyField (resp_text chunk) then default EmptyString (resp_text chunk)
      else streamedText chunks
  | None => streamedText chunks
  end.

(** The session [id] is in the list and ends with a MODEL message. *)
Definition awaiting (id : string) (st : State) : Prop :=
  ∃ chat m, findChat id (chatHistory st) = Some chat
            ∧ last (chat_messages chat) = Some m ∧ msg_role m = MODEL.

(** A request for session [id] is running and has not been stopped. *)
Definition steady (id : string) (st : State) : Prop :=
  signalAborted st = false ∧ awaiting id st.

(** No tool is on and the model answers in a stream. *)
Definition plainChat (cfg : Settings) : Prop :=
  toggles cfg = Toggles.allOff ∧ isImageEditModel (activeBaseModel cfg) = false.

(** The text either revision finalizes for the chunks it has received. *)
Definition finalText (revision : Revision) (received : list Response) : string :=
  match revision with
  | FirstRevision => lastChunkOrStream received
  | SecondRevision => streamedText received
  end.

(** The chunks that reach the callback before the await that rejects:
    await [0] opens the stream and await [k + 1] brings chunk [k]. *)
Definition receivedBefore (script : Script) : list Response :=
  match rejectsAt script with
  | None => chunks script
  | Some k => take (k - 1) (chunks script)
  end.

(** The session a send works on, and what the handler needs to find: the
    first revision opens a session named after the clock when none is
    active. *)
Definition ready (revision : Revision) (Date_now : string) (st : State) (id : string)
  : Prop :=
  isLoading st = false
  ∧ match revision with
    | FirstRevision =>
        id = default Date_now (activeChatId st)
        ∧ (activeChatId st = None ∨ is_Some (findChat id (chatHistory st)))
    | SecondRevision =>
        activeChatId st = Some id ∧ Js.truthy id = true
        ∧ is_Some (findChat id (chatHistory st))
    end.

(** The request for session [id] is running, and the stop button acts on
    it. *)
Definition running (id : string) (st : State) : Prop :=
  steady id st ∧ isLoading st = true ∧ activeChatId st = Some id
  ∧ abortControllerRef st = true.

(** The trailing message of a session. *)
Definition trailingMessage (id : string) (st : State) : option ChatMessage :=
  findChat id (chatHistory st) ≫= λ chat, last (chat_messages chat).

(** The send passes the checks at the head of the handler and asks for no
    project. *)
Definition sendable (revision : Revision) (cfg : Settings) (prompt : string)
  (attachments : list Attachment) : Prop :=
  Js.truthy (Js.trim prompt) = true
  ∧ Toggles.isCodeInterpreterToggled (toggles cfg) = false
  ∧ Toggles.isImageToolActive (toggles cfg) && isTextToImageModel (activeBaseModel cfg)
    && negb (isEmpty attachments) = false
  ∧ match revision with
    | FirstRevision => True
    | SecondRevision =>
        Toggles.isImageToolActive (toggles cfg) && isImageEditModel (activeBaseModel cfg)
        && isEmpty attachments = false
    end.

(** The request each revision builds, the model it hands to
    [generateVideo], and whether it takes the text of the response. *)
Definition requestOf (revision : Revision) (cfg : Settings) (id : string) : Request :=
  match revision with
  | FirstRevision => requestA cfg id
  | SecondRevision => requestB cfg id
  end.

Definition videoModelOf (revision : Revision) (cfg : Settings) : Model :=
  match revision with
  | FirstRevision => VEO_2_0_GENERATE_001
  | SecondRevision => modelForApi cfg
  end.

Definition textOfResponseOf (revision : Revision) (cfg : Settings) : bool :=
  match revision with
  | FirstRevision => true
  | SecondRevision =>
      Toggles.isImageToolActive (toggles cfg) || Toggles.isVideoToolActive (toggles cfg)
  end.

(** The image tool is on with a text-to-image model. *)
Definition imageGeneration (cfg : Settings) : Prop :=
  toggles cfg = Toggles.mkToggles false false true false
  ∧ isTextToImageModel (activeBaseModel cfg) = true.

(** The video tool is on. *)
Definition videoGeneration (cfg : Settings) : Prop :=
  toggles cfg = Toggles.mkToggles false false false true.

(** An updater that keeps the id of a session and a trailing MODEL
    message. *)
Definition tailKeeping (f : ChatSession → ChatSession) : Prop :=
  (∀ chat, chat_id (f chat) = chat_id chat)
  ∧ ∀ chat m, last (chat_messages chat) = Some m → msg_role m = MODEL →
      ∃ m', last (chat_messages (f chat)) = Some m' ∧ msg_role m' = MODEL.

(** The await that rejects is reached. *)
Definition rejected (script : Script) : bool :=
  match rejectsAt script with
  | Some k => k <=? S (length (chunks script))
  | None => false
  end.

(** A computation that, when it returns, has cleared the loading flag. *)
Definition clears (m : M Completion) : Prop :=
  ∀ st completion st', m st = (completion, st') → completion = Returned →
    isLoading st' = false.

(** Nobody presses stop. *)
Definition unstopped (script : Script) : Prop := stopAt script = None.

(** No event of the kind is in the trace. *)
Definition never (kind : Event → bool) (st : State) : Prop :=
  forallb (λ e, negb (kind e)) (trace st) = true.

End StreamSpec.

Module StreamExamples.
Import Chat Finalize Models Runtime Adapter Send SendExamples.

(** The image tool with a text-to-image model. *)
Definition imageSettings : Settings :=
  mkSettings (Toggles.mkToggles false false true false)
    (Some IMAGEN_4_0_GENERATE_001) false false EmptyString false false.

(** [generateImages] returns two images; [stop] is the await during which
    the user presses stop, if at all. *)
Definition twoImages (stop : option nat) : Script :=
  mkScript stop None [] emptyResponse ["iVBORw0KGgo="; "R0lGODlh"] 0 false false
    EmptyString.

(** The stream yields [Hi] and then fails. *)
Definition hiThenFails : Script :=
  mkScript None (Some 2) [textChunk "Hi"; textChunk " there"] emptyResponse [] 0 false false
    EmptyString.

(** The stream yields a thinking block and then, behind a no-break space,
    the letter [x]. *)
Definition thinkingThenSpaced : Script :=
  mkScript None None
    [textChunk "<thinking>r</thinking>"; textChunk (TextSpec.nbsp +:+ "x")]
    emptyResponse [] 0 false false EmptyString.

(** The stream yields the same in one chunk and then fails. *)
Definition spacedThenFails : Script :=
  mkScript None (Some 2)
    [textChunk ("<thinking>r</thinking>" +:+ TextSpec.nbsp +:+ "x"); textChunk " there"]
    emptyResponse [] 0 false false EmptyString.

(** The video tool. *)
Definition videoSettings : Settings :=
  mkSettings (Toggles.mkToggles false false false true)
    (Some VEO_2_0_GENERATE_001) false false EmptyString false false.

(** The request for a video is rejected. *)
Definition videoRefused : Script :=
  mkScript None (Some 0) [] emptyResponse [] 0 false false EmptyString.

End StreamExamples.
(* ================================================================== *)
(** * Part II. Properties *)
(* ================================================================== *)

(** ** The project file tree *)

Module FileTreeFacts.
Import FileTree.

Lemma setChildren_same (n : FileSystemNode) (sub : Files) :
  children n = Some sub → setChildren n sub = n.
Proof. destruct n as [nm c ch]; simpl; intros ->; reflexivity. Qed.

(** *** Looking a segment up *)

Lemma get_own (realm : Realm) (nodes : Files) (part : string) (node : FileSystemNode) :
  nodes !! part = Some node → get realm nodes part = Own node.
Proof. unfold get. by intros ->. Qed.

Lemma get_absent (realm : Realm) (nodes : Files) (part : string) :
  nodes !! part = None → get realm nodes part = get realm ∅ part.
Proof. unfold get. intros ->. by rewrite lookup_empty. Qed.

(** An absent segment that names nothing inherited is created. *)
Lemma get_ordinary (realm : Realm) (nodes : Files) (part : string) :
  nodes !! part = None → inherits realm part = false →
  get realm nodes part = Undefined
  ∨ ∃ inherited, get realm nodes part = Text inherited ∧ Js.truthy inherited = false.
Proof.
  intros Hpart Hord. rewrite (get_absent _ _ _ Hpart). unfold inherits in Hord.
  unfold get in *. rewrite lookup_empty in *.
  destruct (bool_decide (part ∈ objectPrototypeNames)); [done|].
  destruct (String.eqb part "content"); [|by left].
  destruct (realm !! "__proto__") as [inherited|]; [|by left].
  right. by exists inherited.
Qed.

(** The names a level without properties of its own still answers to: the
    members of [Object.prototype], and [content] once
    [Object.prototype.content] holds a string that is not empty. *)
Lemma inherits_false (realm : Realm) (part : string) :
  inherits realm part = false
  ↔ (part ∉ objectPrototypeNames)
    ∧ (part = "content" →
       ∀ inherited, realm !! "__proto__" = Some inherited → inherited = EmptyString).
Proof.
  unfold inherits, get. rewrite lookup_empty.
  destruct (bool_decide (part ∈ objectPrototypeNames)) eqn:Hmember.
  - apply bool_decide_eq_true_1 in Hmember. split; [done|]. by intros [Hno _].
  - apply bool_decide_eq_false_1 in Hmember.
    destruct (String.eqb part "content") eqn:Hpart.
    + destruct (realm !! "__proto__") as [inherited|].
      * unfold Js.truthy. rewrite negb_false_iff, String.eqb_eq. split.
        -- intros ->. split; [done|]. by intros _ ? [= <-].
        -- intros [_ Hc]. apply Hc; [by apply String.eqb_eq|done].
      * split; [|done]. intros _. split; [done|]. by intros _ ? [=].
    + split; [|done]. intros _. split; [done|].
      intros ->. by rewrite String.eqb_refl in Hpart.
Qed.

(** *** The two shapes of a turn of the loop *)

Lemma updateLevel_last_own (realm : Realm) (nodes : Files) (part text : string)
  (node : FileSystemNode) :
  nodes !! part = Some node →
  updateLevel realm nodes [part] text =
  match children node with
  | Some _ => (Returns false, nodes, realm)
  | None => (Returns true, <[part := setContent node text]> nodes, realm)
  end.
Proof. intros Hpart. cbn [updateLevel]. by rewrite (get_own _ _ _ _ Hpart). Qed.

Lemma updateLevel_more_own (realm : Realm) (nodes : Files) (part next : string)
  (rest : list string) (text : string) (node : FileSystemNode) :
  nodes !! part = Some node →
  updateLevel realm nodes (part :: next :: rest) text =
  match children node with
  | None => (Returns false, nodes, realm)
  | Some sub =>
      let '(outcome, sub', realm') := updateLevel realm sub (next :: rest) text in
      (outcome, <[part := setChildren node sub']> nodes, realm')
  end.
Proof. intros Hpart. cbn [updateLevel]. by rewrite (get_own _ _ _ _ Hpart). Qed.

Lemma updateLevel_last (realm : Realm) (nodes : Files) (part text : string) :
  inherits realm part = false →
  updateLevel realm nodes [part] text =
  match nodes !! part with
  | Some node =>
      match children node with
      | Some _ => (Returns false, nodes, realm)
      | None => (Returns true, <[part := setContent node text]> nodes, realm)
      end
  | None =>
      (Returns true, <[part := fileNode part text]> (<[part := fileNode part text]> nodes),
       realm)
  end.
Proof.
  intros Hord. destruct (nodes !! part) as [node|] eqn:Hpart.
  - by apply updateLevel_last_own.
  - cbn [updateLevel].
    destruct (get_ordinary realm nodes part Hpart Hord) as [->|(inherited & -> & ->)];
      reflexivity.
Qed.

Lemma updateLevel_more (realm : Realm) (nodes : Files) (part next : string)
  (rest : list string) (text : string) :
  inherits realm part = false →
  updateLevel realm nodes (part :: next :: rest) text =
  match nodes !! part with
  | Some node =>
      match children node with
      | None => (Returns false, nodes, realm)
      | Some sub =>
          let '(outcome, sub', realm') := updateLevel realm sub (next :: rest) text in
          (outcome, <[part := setChildren node sub']> nodes, realm')
      end
  | None =>
      let '(outcome, sub', realm') := updateLevel realm ∅ (next :: rest) text in
      (outcome, <[part := dirNode part sub']> (<[part := dirNode part ∅]> nodes), realm')
  end.
Proof.
  intros Hord. destruct (nodes !! part) as [node|] eqn:Hpart.
  - by apply updateLevel_more_own.
  - cbn [updateLevel].
    destruct (get_ordinary realm nodes part Hpart Hord) as [->|(inherited & -> & ->)];
      reflexivity.
Qed.

(** An absent segment that names something inherited: nothing is created. *)
Lemma get_inherited (realm : Realm) (nodes : Files) (part : string) :
  nodes !! part = None → inherits realm part = true →
  (part ∈ objectPrototypeNames ∧ get realm nodes part = Member part)
  ∨ ((part ∉ objectPrototypeNames)
     ∧ ∃ inherited, get realm nodes part = Text inherited ∧ Js.truthy inherited = true).
Proof.
  intros Hpart Hinh. rewrite (get_absent _ _ _ Hpart). unfold inherits in Hinh.
  unfold get in *. rewrite lookup_empty in *.
  destruct (bool_decide (part ∈ objectPrototypeNames)) eqn:Hmember.
  - left. by apply bool_decide_eq_true in Hmember.
  - right. apply bool_decide_eq_false in Hmember. split; [done|].
    destruct (String.eqb part "content"); [|done].
    destruct (realm !! "__proto__") as [inherited|]; [|done]. by exists inherited.
Qed.

Lemma updateLevel_inherited_last (realm : Realm) (nodes : Files) (part text : string) :
  nodes !! part = None → inherits realm part = true →
  updateLevel realm nodes [part] text =
  (if bool_decide (part ∈ objectPrototypeNames)
   then (Returns true, nodes, <[part := text]> realm)
   else (Throws, nodes, realm)).
Proof.
  intros Hpart Hinh. simpl.
  destruct (get_inherited realm nodes part Hpart Hinh)
    as [[Hin ->]|(Hin & inherited & -> & ->)].
  - by rewrite bool_decide_eq_true_2.
  - by rewrite bool_decide_eq_false_2.
Qed.

Lemma updateLevel_inherited_more (realm : Realm) (nodes : Files) (part next : string)
  (rest : list string) (text : string) :
  nodes !! part = None → inherits realm part = true →
  updateLevel realm nodes (part :: next :: rest) text = (Returns false, nodes, realm).
Proof.
  intros Hpart Hinh. cbn [updateLevel].
  by destruct (get_inherited realm nodes part Hpart Hinh)
    as [[Hin ->]|(Hin & inherited & -> & ->)].
Qed.

#[local] Arguments updateLevel : simpl never.

(** *** Paths without inherited names *)

(** The walk returns and leaves the realm alone. *)
Lemma updateLevel_ordinary (parts : list string) :
  ∀ (realm : Realm) (nodes : Files) (text : string),
    ordinary realm parts →
    ∃ ok nodes', updateLevel realm nodes parts text = (Returns ok, nodes', realm).
Proof.
  induction parts as [|part rest IH]; intros realm nodes text Hord.
  - by exists true, nodes.
  - apply Forall_cons in Hord as [Hpart Hrest].
    destruct rest as [|next rest'].
    + rewrite updateLevel_last by done.
      destruct (nodes !! part) as [node|]; [destruct (children node)|]; eauto.
    + rewrite updateLevel_more by done.
      destruct (nodes !! part) as [node|].
      * destruct (children node) as [sub|]; [|eauto].
        destruct (IH realm sub text Hrest) as (ok & sub' & ->). eauto.
      * destruct (IH realm ∅ text Hrest) as (ok & sub' & ->). eauto.
Qed.

(** Below a directory that the loop has just created every segment is
    absent, so the rest of the walk cannot fail. *)
Lemma updateLevel_empty (parts : list string) (realm : Realm) (text : string) :
  ordinary realm parts → (updateLevel realm ∅ parts text).1.1 = Returns true.
Proof.
  induction parts as [|part rest IH]; intros Hord; [reflexivity|].
  apply Forall_cons in Hord as [Hpart Hrest].
  destruct rest as [|next rest'].
  - rewrite updateLevel_last, lookup_empty by done. reflexivity.
  - rewrite updateLevel_more, lookup_empty by done.
    specialize (IH Hrest).
    by destruct (updateLevel realm ∅ (next :: rest') text) as [[outcome sub'] realm'].
Qed.

(** A failing walk has not written anything. *)
Lemma updateLevel_false_unchanged (parts : list string) :
  ∀ (realm realm' : Realm) (nodes nodes' : Files) (text : string),
    ordinary realm parts →
    updateLevel realm nodes parts text = (Returns false, nodes', realm') → nodes' = nodes.
Proof.
  induction parts as [|part rest IH]; intros realm realm' nodes nodes' text Hord H.
  - discriminate H.
  - apply Forall_cons in Hord as [Hpart Hrest].
    destruct rest as [|next rest'].
    + rewrite updateLevel_last in H by done.
      destruct (nodes !! part) as [node|]; [|discriminate].
      destruct (children node); [congruence|discriminate].
    + rewrite updateLevel_more in H by done.
      destruct (nodes !! part) as [node|] eqn:Hnode.
      * destruct (children node) as [sub|] eqn:Hch; [|congruence].
        destruct (updateLevel realm sub (next :: rest') text) as [[outcome sub'] r] eqn:E.
        injection H as -> <- _.
        apply IH in E as ->; [|done].
        rewrite setChildren_same by assumption.
        apply insert_id; assumption.
      * pose proof (updateLevel_empty (next :: rest') realm text Hrest) as Hok.
        destruct (updateLevel realm ∅ (next :: rest') text) as [[outcome sub'] r].
        simpl in Hok. subst outcome. discriminate H.
Qed.

(** *** The blocked situations: every segment read is a node of the tree *)

Lemma updateLevel_blocked_prefix (before : list string) :
  ∀ (realm : Realm) (nodes : Files) (after : list string) (node : FileSystemNode)
    (text : string),
    after ≠ [] → resolve nodes before = Some node → children node = None →
    updateLevel realm nodes (before ++ after) text = (Returns false, nodes, realm).
Proof.
  induction before as [|part before' IH];
    intros realm nodes after node text Hafter Hres Hch.
  - discriminate Hres.
  - simpl in Hres. destruct (nodes !! part) as [n|] eqn:Hpart; [|discriminate].
    destruct before' as [|next before''].
    + injection Hres as ->. destruct after as [|a after']; [done|].
      change ([part] ++ a :: after') with (part :: a :: after').
      by rewrite (updateLevel_more_own _ _ _ _ _ _ _ Hpart), Hch.
    + destruct (children n) as [sub|] eqn:Hn; [|discriminate].
      change ((part :: next :: before'') ++ after)
        with (part :: next :: before'' ++ after).
      rewrite (updateLevel_more_own _ _ _ _ _ _ _ Hpart), Hn.
      specialize (IH realm sub after node text Hafter Hres Hch).
      change ((next :: before'') ++ after) with (next :: before'' ++ after) in IH.
      rewrite IH, setChildren_same by done. by rewrite insert_id.
Qed.

Lemma updateLevel_blocked_directory (segments : list string) :
  ∀ (realm : Realm) (nodes : Files) (node : FileSystemNode) (text : string),
    resolve nodes segments = Some node → isDirectory node →
    updateLevel realm nodes segments text = (Returns false, nodes, realm).
Proof.
  induction segments as [|part rest IH]; intros realm nodes node text Hres [sub Hdir].
  - discriminate Hres.
  - simpl in Hres. destruct (nodes !! part) as [n|] eqn:Hpart; [|discriminate].
    destruct rest as [|next rest'].
    + injection Hres as ->. by rewrite (updateLevel_last_own _ _ _ _ _ Hpart), Hdir.
    + destruct (children n) as [sub0|] eqn:Hn; [|discriminate].
      rewrite (updateLevel_more_own _ _ _ _ _ _ _ Hpart), Hn.
      rewrite (IH realm sub0 node text Hres (ex_intro _ sub Hdir)).
      rewrite setChildren_same by done. by rewrite insert_id.
Qed.

Lemma updateLevel_blocked (realm : Realm) (nodes : Files) (segments : list string)
  (text : string) :
  blocked nodes segments →
  updateLevel realm nodes segments text = (Returns false, nodes, realm).
Proof.
  intros [(before & after & node & -> & _ & Hafter & Hres & Hch) | (node & Hres & Hdir)].
  - eapply updateLevel_blocked_prefix; eassumption.
  - eapply updateLevel_blocked_directory; eassumption.
Qed.

(** Conversely a walk without inherited names fails only in the two
    blocked situations. *)
Lemma updateLevel_false_blocked (segments : list string) :
  ∀ (realm realm' : Realm) (nodes nodes' : Files) (text : string),
    ordinary realm segments →
    updateLevel realm nodes segments text = (Returns false, nodes', realm') →
    blocked nodes segments.
Proof.
  induction segments as [|part rest IH]; intros realm realm' nodes nodes' text Hord H.
  - discriminate H.
  - apply Forall_cons in Hord as [Hpart Hrest].
    destruct rest as [|next rest'].
    + rewrite updateLevel_last in H by done.
      destruct (nodes !! part) as [node|] eqn:Hnode; [|discriminate].
      destruct (children node) as [sub|] eqn:Hch; [|discriminate].
      right. exists node. simpl. rewrite Hnode. split; [reflexivity|].
      unfold isDirectory. rewrite Hch. eauto.
    + rewrite updateLevel_more in H by done.
      destruct (nodes !! part) as [node|] eqn:Hnode.
      * destruct (children node) as [sub|] eqn:Hch.
        -- destruct (updateLevel realm sub (next :: rest') text) as [[outcome sub'] r] eqn:E.
           assert (outcome = Returns false) as -> by congruence.
           apply IH in E as [(before & after & n & Heq & Hb & Ha & Hres & Hn)
                            | (n & Hres & Hdir)]; [| |done].
           ++ left. exists (part :: before), after, n.
              rewrite Heq. repeat split; try done.
              simpl. rewrite Hnode, Hch. destruct before; [done|]. exact Hres.
           ++ right. exists n. split; [|done]. simpl. rewrite Hnode, Hch. exact Hres.
        -- left. exists [part], (next :: rest'), node.
           repeat split; try done. simpl. by rewrite Hnode.
      * pose proof (updateLevel_empty (next :: rest') realm text Hrest) as Hok.
        destruct (updateLevel realm ∅ (next :: rest') text) as [[outcome sub'] r].
        simpl in Hok. subst outcome. discriminate H.
Qed.

Lemma resolve_step (nodes : Files) (part next : string) (rest : list string) :
  resolve nodes (part :: next :: rest) =
  match nodes !! part with
  | Some node =>
      match children node with
      | Some sub => resolve sub (next :: rest)
      | None => None
      end
  | None => None
  end.
Proof. reflexivity. Qed.

Lemma resolve_empty (segments : list string) : resolve ∅ segments = None.
Proof. destruct segments; [reflexivity|]. simpl. by rewrite lookup_empty. Qed.

(** What a successful walk leaves at the end of the path. *)
Lemma updateLevel_true_target (segments : list string) :
  ∀ (realm realm' : Realm) (nodes nodes' : Files) (text : string),
    segments ≠ [] → ordinary realm segments →
    updateLevel realm nodes segments text = (Returns true, nodes', realm') →
    ∃ n, resolve nodes' segments = Some n ∧ content n = Some text ∧ children n = None.
Proof.
  induction segments as [|part rest IH];
    intros realm realm' nodes nodes' text Hne Hord H; [done|].
  apply Forall_cons in Hord as [Hpart Hrest].
  destruct rest as [|next rest'].
  - rewrite updateLevel_last in H by done.
    destruct (nodes !! part) as [node|].
    + destruct (children node) eqn:Hch; [discriminate|].
      injection H as <- _. exists (setContent node text).
      simpl. rewrite lookup_insert_eq. simpl. by rewrite Hch.
    + injection H as <- _. exists (fileNode part text).
      simpl. by rewrite lookup_insert_eq.
  - rewrite updateLevel_more in H by done. rewrite resolve_step.
    destruct (nodes !! part) as [node|].
    + destruct (children node) as [sub|] eqn:Hch; [|discriminate].
      destruct (updateLevel realm sub (next :: rest') text) as [[outcome sub'] r] eqn:E.
      injection H as -> <- _.
      apply IH in E as (n & Hres & Hc & Hk); [|done|done].
      exists n. split; [|done]. by rewrite lookup_insert_eq.
    + destruct (updateLevel realm ∅ (next :: rest') text) as [[outcome sub'] r] eqn:E.
      injection H as -> <- _.
      apply IH in E as (n & Hres & Hc & Hk); [|done|done].
      exists n. split; [|done]. by rewrite lookup_insert_eq.
Qed.

(** Reading any path that does not run along the written one gives the
    node it gave before. *)
Lemma updateLevel_frame (segments : list string) :
  ∀ (realm realm' : Realm) (nodes nodes' : Files) (text : string) (ok : bool)
    (q : list string),
    ordinary realm segments →
    updateLevel realm nodes segments text = (Returns ok, nodes', realm') →
    q ≠ [] → ¬ q `prefix_of` segments →
    resolve nodes' q = resolve nodes q.
Proof.
  induction segments as [|part rest IH];
    intros realm realm' nodes nodes' text ok q Hord H Hq Hpre.
  - injection H as _ <- _. reflexivity.
  - destruct ok.
    2:{ by apply updateLevel_false_unchanged in H as ->. }
    apply Forall_cons in Hord as [Hpart Hrest].
    destruct q as [|k q']; [done|].
    destruct (decide (k = part)) as [->|Hk].
    + (* the paths agree on the first segment *)
      assert (q' ≠ [] ∧ ¬ q' `prefix_of` rest) as [Hq' Hpre'].
      { split.
        - intros ->. apply Hpre. by exists rest.
        - intros [t ->]. apply Hpre. by exists t. }
      destruct q' as [|k' q'']; [done|].
      rewrite !resolve_step.
      destruct rest as [|next rest'].
      * rewrite updateLevel_last in H by done.
        destruct (nodes !! part) as [old|] eqn:Hold.
        -- destruct (children old) eqn:Hch; [discriminate|].
           injection H as <- _. rewrite lookup_insert_eq. simpl. by rewrite Hch.
        -- injection H as <- _. by rewrite lookup_insert_eq.
      * rewrite updateLevel_more in H by done.
        destruct (nodes !! part) as [old|] eqn:Hold.
        -- destruct (children old) as [sub|] eqn:Hch; [|discriminate].
           destruct (updateLevel realm sub (next :: rest') text)
             as [[outcome sub'] r] eqn:E.
           injection H as -> <- _. rewrite lookup_insert_eq. simpl children. cbv iota.
           by eapply (IH _ _ _ _ _ _ (k' :: q'')) in E.
        -- destruct (updateLevel realm ∅ (next :: rest') text)
             as [[outcome sub'] r] eqn:E.
           injection H as -> <- _. rewrite lookup_insert_eq. simpl children. cbv iota.
           eapply (IH _ _ _ _ _ _ (k' :: q'')) in E; [|done|done|done].
           rewrite E. apply resolve_empty.
    + (* the paths part at the first segment *)
      assert (nodes' !! k = nodes !! k) as Hk'.
      { destruct rest as [|next rest'].
        - rewrite updateLevel_last in H by done.
          destruct (nodes !! part) as [old|].
          + destruct (children old); [discriminate|].
            injection H as <- _. by rewrite lookup_insert_ne.
          + injection H as <- _. by rewrite !lookup_insert_ne.
        - rewrite updateLevel_more in H by done.
          destruct (nodes !! part) as [old|].
          + destruct (children old) as [sub|]; [|discriminate].
            destruct (updateLevel realm sub (next :: rest') text) as [[outcome sub'] r].
            injection H as _ <- _. by rewrite lookup_insert_ne.
          + destruct (updateLevel realm ∅ (next :: rest') text) as [[outcome sub'] r].
            injection H as _ <- _. by rewrite !lookup_insert_ne. }
      cbn [resolve]. by rewrite Hk'.
Qed.

(** Along the path a successful walk leaves directories, and keeps the
    [name] and [content] of those that existed. *)
Lemma updateLevel_true_spine (before : list string) :
  ∀ (realm realm' : Realm) (nodes nodes' : Files) (after : list string) (text : string),
    before ≠ [] → after ≠ [] → ordinary realm (before ++ after) →
    updateLevel realm nodes (before ++ after) text = (Returns true, nodes', realm') →
    ∃ d, resolve nodes' before = Some d ∧ isDirectory d ∧
         match resolve nodes before with
         | Some old => name d = name old ∧ content d = content old
         | None => name d = List.last before EmptyString ∧ content d = None
         end.
Proof.
  induction before as [|part before' IH];
    intros realm realm' nodes nodes' after text Hb Ha Hord H; [done|].
  change ((part :: before') ++ after) with (part :: before' ++ after) in H, Hord.
  apply Forall_cons in Hord as [Hpart Hrest].
  assert (before' ++ after ≠ []) as Hne by (destruct before'; done).
  destruct (before' ++ after) as [|next rest'] eqn:Erest; [done|].
  rewrite updateLevel_more in H by done.
  destruct (nodes !! part) as [old|] eqn:Hold.
  - destruct (children old) as [sub|] eqn:Hch; [|discriminate].
    destruct (updateLevel realm sub (next :: rest') text) as [[outcome sub'] r] eqn:E.
    injection H as -> <- _.
    destruct before' as [|b before''].
    + exists (setChildren old sub'). cbn [resolve].
      rewrite lookup_insert_eq, Hold. unfold isDirectory. simpl. eauto.
    + rewrite <- Erest in E, Hrest.
      apply IH in E as (d & Hres & Hdir & Hm); [|done|done|done].
      exists d. rewrite !resolve_step, lookup_insert_eq, Hold, Hch.
      simpl children. cbv iota.
      split; [exact Hres|]. split; [exact Hdir|]. exact Hm.
  - destruct (updateLevel realm ∅ (next :: rest') text) as [[outcome sub'] r] eqn:E.
    injection H as -> <- _.
    destruct before' as [|b before''].
    + exists (dirNode part sub'). cbn [resolve].
      rewrite lookup_insert_eq, Hold. unfold isDirectory. simpl. eauto.
    + rewrite <- Erest in E, Hrest.
      apply IH in E as (d & Hres & Hdir & Hm); [|done|done|done].
      exists d. rewrite !resolve_step, lookup_insert_eq, Hold.
      simpl children. cbv iota.
      split; [exact Hres|]. split; [exact Hdir|].
      rewrite resolve_empty in Hm. exact Hm.
Qed.

Lemma split_not_nil (sep : Ascii.ascii) (s : string) : Js.split sep s ≠ [].
Proof.
  destruct s as [|c s]; simpl; [done|].
  destruct (Ascii.eqb c sep); [done|]. by destruct (Js.split sep s).
Qed.

(** C4. Whenever a proper prefix of the path leads to an existing node that
    has no [children] (a file), or the whole path leads to an existing
    directory, [findAndUpdateFile] returns [false] (it does not raise), and
    the tree it was given is left exactly as it was; so is what has been
    written on [Object.prototype]. *)
Theorem findAndUpdateFile_blocked_unchanged
  (realm : Realm) (nodes : Files) (path text : string) :
  blocked nodes (Js.split "/" path) →
  findAndUpdateFile realm nodes path text = (Returns false, nodes, realm).
Proof. intros Hb. apply updateLevel_blocked, Hb. Qed.

(** The instance named by the specification: [a] is a file and the path
    is [a/b]. *)
Lemma findAndUpdateFile_blocked_unchanged_witness :
  blocked {[ "a" := fileNode "a" "old" ]} (Js.split "/" "a/b")
  ∧ findAndUpdateFile ∅ {[ "a" := fileNode "a" "old" ]} "a/b" "new"
    = (Returns false, {[ "a" := fileNode "a" "old" ]}, ∅).
Proof.
  assert (blocked {[ "a" := fileNode "a" "old" ]} (Js.split "/" "a/b")) as Hb.
  { left. exists ["a"], ["b"], (fileNode "a" "old").
    repeat split; try done. }
  split; [exact Hb|].
  exact (findAndUpdateFile_blocked_unchanged ∅ _ "a/b" "new" Hb).
Defined.

(** The same for every tree in which [a] is a file. *)
Lemma findAndUpdateFile_under_file (realm : Realm) (nodes : Files)
  (node : FileSystemNode) (text : string) :
  nodes !! "a" = Some node → children node = None →
  findAndUpdateFile realm nodes "a/b" text = (Returns false, nodes, realm).
Proof.
  intros Ha Hch. apply updateLevel_blocked.
  left. exists ["a"], ["b"], node. repeat split; try done.
  simpl. by rewrite Ha.
Qed.

(** A failing upsert at a path without inherited names leaves no partial
    write behind. *)
Lemma findAndUpdateFile_false_unchanged (realm realm' : Realm) (nodes nodes' : Files)
  (path text : string) :
  ordinary realm (Js.split "/" path) →
  findAndUpdateFile realm nodes path text = (Returns false, nodes', realm') →
  nodes' = nodes.
Proof. apply updateLevel_false_unchanged. Qed.

(** C10 at its failing input. The segment [constructor] is not a key of the
    empty tree, yet [currentLevel["constructor"]] is the function [Object]
    that every object inherits: the call writes [content] on that function,
    returns [true] and leaves the tree empty, so the path leads to no node at
    all. *)
Theorem findAndUpdateFile_inherited_name_stores_nothing :
  findAndUpdateFile ∅ ∅ "constructor" "export {}"
  = (Returns true, ∅, {[ "constructor" := "export {}" ]})
  ∧ resolve (findAndUpdateFile ∅ ∅ "constructor" "export {}").1.2
            (Js.split "/" "constructor") = None.
Proof. split; reflexivity. Qed.

End FileTreeFacts.

(** ** The tool toggles *)

Module TogglesFacts.
Import Toggles.

Lemma toggle_keeps_atMostOne (s : ToolToggles) (t : Tool) :
  atMostOne s → atMostOne (toggle s t).
Proof.
  destruct s as [[] [] [] []], t; unfold atMostOne; cbn; lia.
Qed.

Lemma observations_atMostOne (ops : list Tool) :
  ∀ s, atMostOne s → Forall atMostOne (observations s ops).
Proof.
  induction ops as [|t ops IH]; intros s Hs; simpl.
  - constructor.
  - constructor.
    + by apply toggle_keeps_atMostOne.
    + apply IH. by apply toggle_keeps_atMostOne.
Qed.

(** C6. Starting with all four toggles off, after every operation of any
    finite sequence of toggle operations at most one flag is [true]; a
    toggle operation negates its own flag, and it leaves another flag [true]
    only if it switched its own flag off, so switching one on switches the
    three others off. *)
Theorem toggles_mutually_exclusive (ops : list Tool) :
  Forall atMostOne (observations allOff ops)
  ∧ ∀ (s : ToolToggles) (t t' : Tool),
      flag t' (toggle s t)
      = if decide (t' = t) then negb (flag t s) else flag t s && flag t' s.
Proof.
  split.
  - apply observations_atMostOne. unfold atMostOne. cbn. lia.
  - intros [[] [] [] []] [] []; reflexivity.
Qed.

End TogglesFacts.

(** ** Grounding citations *)

Module CitationsFacts.
Import Citations.

Section MapSet.
Context {V : Type}.

Lemma mapFromEntries_snoc (entries : list (Uri * V)) (k : Uri) (v : V) :
  mapFromEntries (entries ++ [(k, v)]) = mapSet k v (mapFromEntries entries).
Proof. unfold mapFromEntries. by rewrite fold_left_app. Qed.

Lemma Forall2_keys_other (P P' : Uri → V → Prop) (kc : Uri) :
  (∀ k v, k ≠ kc → P k v → P' k v) →
  ∀ (m : list (Uri * V)) (keys : list Uri),
    kc ∉ keys →
    Forall2 (λ e k, e.1 = k ∧ P k e.2) m keys →
    Forall2 (λ e k, e.1 = k ∧ P' k e.2) m keys.
Proof.
  intros Hother m keys Hnotin H.
  induction H as [|e k m keys [Hk Hv] H IH]; [constructor|].
  apply not_elem_of_cons in Hnotin as [Hne Hnotin].
  constructor; [|by apply IH]. split; [done|]. by apply Hother.
Qed.

(** Setting a key in a map whose keys are [keys], in step with recording
    the key in the list of keys seen so far. *)
Lemma mapSet_seeOnce (P P' : Uri → V → Prop) (kc : Uri) (c : V) :
  (∀ k v, k ≠ kc → P k v → P' k v) → P' kc c →
  ∀ (m : list (Uri * V)) (keys : list Uri),
    NoDup keys →
    Forall2 (λ e k, e.1 = k ∧ P k e.2) m keys →
    Forall2 (λ e k, e.1 = k ∧ P' k e.2) (mapSet kc c m) (seeOnce keys kc).
Proof.
  intros Hother Hnew m keys Hnd H.
  induction H as [|[k0 v0] k m keys [Hk Hv] H IH]; simpl in *.
  - unfold seeOnce. rewrite decide_False by apply not_elem_of_nil.
    constructor; [done|constructor].
  - subst k0. apply NoDup_cons in Hnd as [Hnotin Hnd].
    destruct (decide (k = kc)) as [->|Hne].
    + unfold seeOnce. rewrite decide_True by (apply elem_of_cons; by left).
      constructor; [done|].
      by apply (Forall2_keys_other P P' kc).
    + specialize (IH Hnd).
      assert (seeOnce (k :: keys) kc = k :: seeOnce keys kc) as ->.
      { unfold seeOnce. destruct (decide (kc ∈ keys)) as [Hin|Hin].
        - rewrite decide_True by (apply elem_of_cons; by right). done.
        - rewrite decide_False; [done|].
          intros [?|?]%elem_of_cons; congruence. }
      constructor; [|exact IH]. split; [done|]. by apply Hother.
Qed.

End MapSet.

Lemma firstSeen_snoc (keys : list Uri) (k : Uri) :
  firstSeen (keys ++ [k]) = seeOnce (firstSeen keys) k.
Proof. unfold firstSeen. by rewrite fold_left_app. Qed.

Lemma seeOnce_NoDup (seen : list Uri) (k : Uri) :
  NoDup seen → NoDup (seeOnce seen k).
Proof.
  intros Hnd. unfold seeOnce. destruct (decide (k ∈ seen)) as [|Hnotin]; [done|].
  apply NoDup_app. split; [done|]. split.
  - intros x Hx ->%list_elem_of_singleton. done.
  - apply NoDup_singleton.
Qed.

Lemma firstSeen_NoDup (keys : list Uri) : NoDup (firstSeen keys).
Proof.
  induction keys as [|k keys IH] using rev_ind.
  - constructor.
  - rewrite firstSeen_snoc. by apply seeOnce_NoDup.
Qed.

Lemma withKey_snoc (k : Uri) (chunks : list GroundingChunk) (c : GroundingChunk) :
  withKey k (chunks ++ [c])
  = withKey k chunks ++ (if decide (chunkKey c = k) then [c] else []).
Proof.
  unfold withKey. rewrite List.filter_app. simpl.
  destruct (decide (chunkKey c = k)) as [He|He].
  - by rewrite bool_decide_eq_true_2.
  - by rewrite bool_decide_eq_false_2.
Qed.

(** The [Map] built from the chunks holds, for the keys in first-seen
    order, the last chunk with each key. *)
Lemma mapFromEntries_last (chunks : list GroundingChunk) :
  Forall2 (λ e k, e.1 = k ∧ last (withKey k chunks) = Some e.2)
    (mapFromEntries (map (λ item, (chunkKey item, item)) chunks))
    (firstSeen (map chunkKey chunks)).
Proof.
  induction chunks as [|c chunks IH] using rev_ind.
  - constructor.
  - rewrite !map_app. simpl map.
    rewrite mapFromEntries_snoc, firstSeen_snoc.
    apply (mapSet_seeOnce (λ k v, last (withKey k chunks) = Some v)
             (λ k v, last (withKey k (chunks ++ [c])) = Some v)).
    + intros k v Hne Hv. rewrite withKey_snoc.
      rewrite decide_False by done. by rewrite app_nil_r.
    + rewrite withKey_snoc. rewrite decide_True by done. apply last_snoc.
    + apply firstSeen_NoDup.
    + exact IH.
Qed.

Lemma mapValues_lookup {V : Type} (f : Uri → option V) (m : list (Uri * V)) (keys : list Uri) :
  Forall2 (λ e k, e.1 = k ∧ f k = Some e.2) m keys →
  mapValues m = omap f keys.
Proof.
  induction 1 as [|e k m keys [Hk Hv] H IH]; [done|].
  unfold mapValues in *. simpl. rewrite Hv. by f_equal.
Qed.

(** What the source computes is the last-wins reading. *)
Lemma uniqueChunks_lastWins (chunks : list GroundingChunk) :
  uniqueChunks chunks = citationsLastWins chunks.
Proof.
  unfold uniqueChunks, citationsLastWins. f_equal.
  apply (mapValues_lookup (λ k, last (withKey k chunks))).
  apply mapFromEntries_last.
Qed.

End CitationsFacts.

(** ** Strings *)

Module JsFacts.

Lemma append_cons (c : Ascii.ascii) (a b : string) :
  String c a +:+ b = String c (a +:+ b).
Proof. reflexivity. Qed.

Lemma append_nil_l (a : string) : EmptyString +:+ a = a.
Proof. reflexivity. Qed.

Lemma append_assoc (a b c : string) : (a +:+ b) +:+ c = a +:+ b +:+ c.
Proof.
  induction a as [|x a IH]; [reflexivity|].
  rewrite !append_cons. by rewrite IH.
Qed.

Lemma length_append (a b : string) :
  String.length (a +:+ b) = String.length a + String.length b.
Proof.
  induction a as [|x a IH]; [reflexivity|].
  rewrite append_cons. simpl. by rewrite IH.
Qed.

Lemma prefix_append (p s : string) :
  String.prefix p s = true ↔ ∃ a, s = p +:+ a.
Proof.
  revert s. induction p as [|x p IH]; intros s.
  - split; [|by destruct s]. intros _. by exists s.
  - destruct s as [|y s]; simpl.
    + split; [done|]. intros [a Ha]. discriminate Ha.
    + destruct (Ascii.ascii_dec x y) as [->|Hne].
      * rewrite IH. split; intros [a Ha]; exists a.
        -- rewrite append_cons. by rewrite Ha.
        -- rewrite append_cons in Ha. by injection Ha.
      * split; [done|]. intros [a Ha]. rewrite append_cons in Ha. congruence.
Qed.

Lemma drop_append (p a : string) : Js.drop (String.length p) (p +:+ a) = a.
Proof. induction p as [|x p IH]; [by destruct a|]. exact IH. Qed.

(** Two ways of splitting one string: the longer first half extends the
    shorter one. *)
Lemma append_eq_le (q p x y : string) :
  p +:+ x = q +:+ y → String.length q ≤ String.length p →
  ∃ e, p = q +:+ e ∧ y = e +:+ x.
Proof.
  revert p. induction q as [|c q IH]; intros p Heq Hlen.
  - exists p. by rewrite !append_nil_l in *.
  - destruct p as [|d p]; [simpl in Hlen; lia|].
    rewrite !append_cons in Heq. injection Heq as -> Heq.
    destruct (IH p Heq) as (e & -> & ->); [simpl in Hlen; lia|].
    by exists e.
Qed.

Lemma cut_unfold (needle s : string) :
  Js.cut needle s =
  if String.prefix needle s
  then Some (EmptyString, Js.drop (String.length needle) s)
  else match s with
       | EmptyString => None
       | String c s' =>
           match Js.cut needle s' with
           | Some (before, after) => Some (String c before, after)
           | None => None
           end
       end.
Proof. by destruct s. Qed.

Lemma cut_Some (needle s before after : string) :
  Js.cut needle s = Some (before, after) → s = before +:+ needle +:+ after.
Proof.
  revert before. induction s as [|c s IH]; intros before; rewrite cut_unfold;
    destruct (String.prefix needle _) eqn:Hp.
  - intros [= <- <-]. apply prefix_append in Hp as [a Ha].
    rewrite append_nil_l. rewrite Ha at 2. by rewrite drop_append.
  - done.
  - intros [= <- <-]. apply prefix_append in Hp as [a Ha].
    rewrite append_nil_l. rewrite Ha at 2. by rewrite drop_append.
  - destruct (Js.cut needle s) as [[b a]|] eqn:Hcut; [|done].
    intros [= <- <-]. rewrite append_cons. f_equal. by apply IH.
Qed.

Lemma cut_first (needle s before after : string) :
  Js.cut needle s = Some (before, after) →
  ∀ before' after', s = before' +:+ needle +:+ after' →
    String.length before ≤ String.length before'.
Proof.
  revert before. induction s as [|c s IH]; intros before; rewrite cut_unfold;
    destruct (String.prefix needle _) eqn:Hp.
  - intros [= <- <-] ???. simpl. lia.
  - done.
  - intros [= <- <-] ???. simpl. lia.
  - destruct (Js.cut needle s) as [[b a]|] eqn:Hcut; [|done].
    intros [= <- <-] before' after' Heq.
    destruct before' as [|d before'].
    + rewrite append_nil_l in Heq.
      assert (String.prefix needle (String c s) = true) as Hp'
        by (apply prefix_append; eauto).
      congruence.
    + rewrite append_cons in Heq. injection Heq as -> Heq.
      simpl. apply le_n_S. eapply IH; [done|exact Heq].
Qed.

Lemma cut_None (needle s : string) :
  Js.cut needle s = None → ∀ before after, s ≠ before +:+ needle +:+ after.
Proof.
  induction s as [|c s IH]; rewrite cut_unfold;
    destruct (String.prefix needle _) eqn:Hp; try done.
  - intros _ before after Heq.
    destruct before; [|discriminate Heq].
    rewrite append_nil_l in Heq.
    assert (String.prefix needle EmptyString = true) as Hp'
      by (apply prefix_append; eauto).
    congruence.
  - destruct (Js.cut needle s) as [[b a]|] eqn:Hcut; [done|].
    intros _ before after Heq.
    destruct before as [|d before].
    + rewrite append_nil_l in Heq.
      assert (String.prefix needle (String c s) = true) as Hp'
        by (apply prefix_append; eauto).
      congruence.
    + rewrite append_cons in Heq. injection Heq as -> Heq.
      by eapply IH.
Qed.

End JsFacts.

(** ** White space and trimming *)

Module TextFacts.
Import TextSpec JsFacts.

Lemma rev_app_append (s acc : string) :
  String.rev_app s acc = String.rev s +:+ acc.
Proof.
  revert acc. induction s as [|c s IH]; intros acc; [reflexivity|].
  unfold String.rev. simpl. rewrite (IH (String c acc)), (IH (String c EmptyString)).
  by rewrite append_assoc.
Qed.

Lemma rev_cons (c : Ascii.ascii) (s : string) :
  String.rev (String c s) = String.rev s +:+ String c EmptyString.
Proof. unfold String.rev at 1. simpl. apply rev_app_append. Qed.

Lemma append_nil_r (s : string) : s +:+ EmptyString = s.
Proof. induction s as [|c s IH]; [done|]. rewrite append_cons. by rewrite IH. Qed.

Lemma rev_append (a b : string) :
  String.rev (a +:+ b) = String.rev b +:+ String.rev a.
Proof.
  induction a as [|c a IH]; [by rewrite append_nil_l, append_nil_r|].
  by rewrite append_cons, !rev_cons, IH, append_assoc.
Qed.

Lemma rev_rev (s : string) : String.rev (String.rev s) = s.
Proof.
  induction s as [|c s IH]; [done|].
  by rewrite rev_cons, rev_append, IH.
Qed.

Lemma length_rev (s : string) : String.length (String.rev s) = String.length s.
Proof.
  induction s as [|c s IH]; [done|].
  rewrite rev_cons, length_append, IH. simpl. lia.
Qed.

(** *** Stripping the entries of a table *)

Section Strip.
Variable table : list string.
Hypothesis nonempty : Forall (λ w, w ≠ EmptyString) table.

Lemma skip_Some (s rest : string) :
  Js.skip table s = Some rest → ∃ w, w ∈ table ∧ s = w +:+ rest.
Proof.
  unfold Js.skip. destruct (List.find _ table) as [w|] eqn:Hfind; [|done].
  intros [= <-]. apply find_some in Hfind as [Hin Hp].
  apply prefix_append in Hp as [a Ha]. exists w.
  split; [by apply list_elem_of_In|]. rewrite Ha at 2. by rewrite drop_append.
Qed.

Lemma skip_None (s : string) :
  Js.skip table s = None → ∀ w rest, w ∈ table → s ≠ w +:+ rest.
Proof.
  unfold Js.skip. destruct (List.find _ table) as [w|] eqn:Hfind; [done|].
  intros _ w rest Hin ->. apply list_elem_of_In in Hin.
  pose proof (find_none _ _ Hfind w Hin) as Hno. simpl in Hno.
  assert (String.prefix w (w +:+ rest) = true) by (apply prefix_append; eauto).
  congruence.
Qed.

Lemma skip_None_iff (s : string) :
  Js.skip table s = None ↔ ∀ w rest, w ∈ table → s ≠ w +:+ rest.
Proof.
  split; [apply skip_None|]. intros Hno.
  destruct (Js.skip table s) as [rest|] eqn:Hskip; [|done].
  apply skip_Some in Hskip as (w & Hin & ->). by destruct (Hno w rest).
Qed.

Lemma strip_fixed (fuel : nat) (s : string) :
  Js.skip table s = None → Js.strip table fuel s = s.
Proof. intros Hno. destruct fuel; [done|]. simpl. by rewrite Hno. Qed.

Lemma strip_spec (fuel : nat) :
  ∀ s, String.length s ≤ fuel →
    ∃ l, madeOf table l ∧ s = l +:+ Js.strip table fuel s
         ∧ Js.skip table (Js.strip table fuel s) = None.
Proof using nonempty.
  induction fuel as [|fuel IH]; intros s Hlen.
  - destruct s; [|simpl in Hlen; lia]. exists EmptyString.
    split; [constructor|]. split; [done|]. simpl.
    apply skip_None_iff. intros w rest Hin Heq.
    rewrite Forall_forall in nonempty. apply (nonempty w Hin).
    by destruct w.
  - simpl. destruct (Js.skip table s) as [rest|] eqn:Hskip.
    + apply skip_Some in Hskip as (w & Hin & ->).
      rewrite Forall_forall in nonempty. pose proof (nonempty w Hin) as Hw.
      destruct (IH rest) as (l & Hl & Heq & Hno).
      { rewrite length_append in Hlen. destruct w; [done|]. simpl in Hlen. lia. }
      exists (w +:+ l). split; [by constructor|]. split; [|done].
      by rewrite append_assoc, <- Heq.
    + exists EmptyString. split; [constructor|]. by split.
Qed.

Lemma madeOf_app (a b : string) :
  madeOf table a → madeOf table b → madeOf table (a +:+ b).
Proof.
  induction 1 as [|w s Hin Hs IH]; intros Hb; [done|].
  rewrite append_assoc. constructor; auto.
Qed.

Lemma madeOf_one (w : string) : w ∈ table → madeOf table w.
Proof. intros Hin. rewrite <- (append_nil_r w). constructor; [done|constructor]. Qed.

End Strip.

Lemma madeOf_rev (table : list string) (s : string) :
  madeOf table s → madeOf (map String.rev table) (String.rev s).
Proof.
  induction 1 as [|w s Hin Hs IH]; [constructor|].
  rewrite rev_append. apply madeOf_app; [done|].
  apply madeOf_one. apply list_elem_of_fmap. by exists w.
Qed.

Lemma map_rev_rev (table : list string) : map String.rev (map String.rev table) = table.
Proof.
  induction table as [|w table IH]; [done|]. simpl. by rewrite rev_rev, IH.
Qed.

(** *** The white space table *)

Lemma whiteSpace_nonempty : Forall (λ w, w ≠ EmptyString) Js.whiteSpace.
Proof.
  assert (forallb (λ w, negb (String.eqb w EmptyString)) Js.whiteSpace = true) as Hall
    by (vm_compute; reflexivity).
  rewrite forallb_forall in Hall. apply Forall_forall. intros w Hin ->.
  apply list_elem_of_In in Hin. by specialize (Hall _ Hin).
Qed.

Lemma whiteSpace_rev_nonempty :
  Forall (λ w, w ≠ EmptyString) (map String.rev Js.whiteSpace).
Proof.
  apply Forall_forall. intros w Hin. apply list_elem_of_fmap in Hin as (v & -> & Hin).
  intros Hrev. apply (f_equal String.length) in Hrev. rewrite length_rev in Hrev.
  pose proof whiteSpace_nonempty as Hne. rewrite Forall_forall in Hne.
  apply (Hne v Hin). by destruct v.
Qed.

(** No white space character starts with another one. *)
Lemma whiteSpace_prefix_free (w v : string) :
  w ∈ Js.whiteSpace → v ∈ Js.whiteSpace → String.prefix w v = true → w = v.
Proof.
  intros Hw Hv. revert w Hw v Hv.
  assert (forallb (λ w, forallb (λ v, implb (String.prefix w v) (String.eqb w v))
                          Js.whiteSpace) Js.whiteSpace = true) as Hall
    by (vm_compute; reflexivity).
  rewrite forallb_forall in Hall. intros w Hw v Hv Hp.
  apply list_elem_of_In in Hw, Hv. specialize (Hall w Hw).
  rewrite forallb_forall in Hall. specialize (Hall v Hv).
  rewrite Hp in Hall. by apply String.eqb_eq.
Qed.

(** *** [trimStart], [trimEnd] and [trim] *)

Lemma trimStart_spec (s : string) :
  ∃ l, blank l ∧ s = l +:+ Js.trimStart s ∧ ¬ startsWithSpace (Js.trimStart s).
Proof.
  destruct (strip_spec Js.whiteSpace whiteSpace_nonempty _ s (le_n _))
    as (l & Hl & Heq & Hno).
  exists l. split; [done|]. split; [done|].
  intros (w & rest & Hin & Hr). by eapply skip_None.
Qed.

Lemma trimEnd_spec (s : string) :
  ∃ t, blank t ∧ s = Js.trimEnd s +:+ t ∧ ¬ endsWithSpace (Js.trimEnd s).
Proof.
  unfold Js.trimEnd.
  destruct (strip_spec (map String.rev Js.whiteSpace) whiteSpace_rev_nonempty
              (String.length s) (String.rev s)) as (l & Hl & Heq & Hno).
  { by rewrite length_rev. }
  set (r := Js.strip _ _ _) in *. exists (String.rev l). split; [|split].
  - apply madeOf_rev in Hl. by rewrite map_rev_rev in Hl.
  - by rewrite <- rev_append, <- Heq, rev_rev.
  - intros (w & front & Hin & Hr).
    apply (skip_None _ _ Hno (String.rev w) (String.rev front)).
    + apply list_elem_of_fmap. by exists w.
    + by rewrite <- rev_append, <- Hr, rev_rev.
Qed.

(** [trim] removes the white space at the two ends, all of it and nothing
    else. *)
Lemma trim_spec (s : string) : trimmed s (Js.trim s).
Proof.
  unfold Js.trim.
  destruct (trimStart_spec s) as (l & Hl & Hs & Hstart).
  destruct (trimEnd_spec (Js.trimStart s)) as (t & Ht & Hr & Hend).
  exists l, t. split; [done|]. split; [done|]. split; [by rewrite <- Hr|].
  split; [|done]. intros (w & rest & Hin & Hw). apply Hstart.
  exists w, (rest +:+ t). split; [done|].
  rewrite Hr at 1. by rewrite Hw, append_assoc.
Qed.

Lemma trimStart_fixed (r : string) : ¬ startsWithSpace r → Js.trimStart r = r.
Proof.
  intros Hno. apply strip_fixed, skip_None_iff.
  intros w rest Hin ->. apply Hno. by exists w, rest.
Qed.

Lemma trimEnd_fixed (r : string) : ¬ endsWithSpace r → Js.trimEnd r = r.
Proof.
  intros Hno. unfold Js.trimEnd. rewrite strip_fixed; [apply rev_rev|].
  apply skip_None_iff. intros w rest Hin Heq.
  apply list_elem_of_fmap in Hin as (v & -> & Hin). apply Hno.
  exists v, (String.rev rest). split; [done|].
  by rewrite <- (rev_rev r), Heq, rev_append, rev_rev.
Qed.

(** Trimming a trimmed text changes nothing. *)
Lemma trim_trim (s : string) : Js.trim (Js.trim s) = Js.trim s.
Proof.
  destruct (trim_spec s) as (l & t & _ & _ & _ & Hstart & Hend).
  unfold Js.trim at 1. rewrite trimStart_fixed by done. by apply trimEnd_fixed.
Qed.

Lemma blank_app (a b : string) : blank a → blank b → blank (a +:+ b).
Proof. apply madeOf_app. Qed.

Lemma trimStart_blank (s : string) : blank s → Js.trimStart s = EmptyString.
Proof.
  unfold Js.trimStart. generalize (le_n (String.length s)).
  generalize (String.length s) at 2 3 as fuel. intros fuel Hlen Hs. revert fuel Hlen.
  induction Hs as [|w s Hin Hs IH]; intros fuel Hlen; [by destruct fuel|].
  pose proof whiteSpace_nonempty as Hne. rewrite Forall_forall in Hne.
  pose proof (Hne w Hin) as Hw.
  destruct fuel as [|fuel].
  { rewrite length_append in Hlen. destruct w; [done|]. simpl in Hlen. lia. }
  simpl. destruct (Js.skip Js.whiteSpace (w +:+ s)) as [rest|] eqn:Hskip.
  - apply skip_Some in Hskip as (v & Hv & Heq).
    assert (v = w) as ->.
    { destruct (Nat.le_ge_cases (String.length v) (String.length w)) as [Hle|Hle].
      - destruct (append_eq_le v w s rest Heq Hle) as (e & He & _).
        apply whiteSpace_prefix_free; [done..|]. apply prefix_append. eauto.
      - symmetry in Heq. destruct (append_eq_le w v rest s Heq Hle) as (e & He & _).
        symmetry. apply whiteSpace_prefix_free; [done..|]. apply prefix_append. eauto. }
    assert (rest = s) as ->.
    { apply (f_equal (Js.drop (String.length w))) in Heq.
      by rewrite !drop_append in Heq. }
    apply IH. rewrite length_append in Hlen. destruct w; [done|]. simpl in Hlen. lia.
  - exfalso. by eapply (skip_None _ _ Hskip w s).
Qed.

(** A text is blank exactly when trimming leaves nothing. *)
Lemma trim_blank (s : string) : blank s ↔ Js.trim s = EmptyString.
Proof.
  split.
  - intros Hs. unfold Js.trim. by rewrite trimStart_blank.
  - intros Hempty. destruct (trim_spec s) as (l & t & Hl & Ht & -> & _).
    rewrite Hempty, append_nil_l. by apply blank_app.
Qed.

Lemma truthy_trim (s : string) : Js.truthy (Js.trim s) = false ↔ blank s.
Proof.
  rewrite trim_blank. unfold Js.truthy. rewrite negb_false_iff. apply String.eqb_eq.
Qed.

End TextFacts.

(** ** Finalization *)

Module FinalizeFacts.
Import FileTree Citations Chat Finalize FinalizeSpec TextSpec JsFacts TextFacts.

Lemma last_replaceLast (s : ChatSession) (m : ChatMessage) :
  last (chat_messages (replaceLast s m)) = Some m.
Proof. unfold replaceLast. simpl. apply last_snoc. Qed.

Lemma chat_project_replaceLast (s : ChatSession) (m : ChatMessage) :
  chat_project (replaceLast s m) = chat_project s.
Proof. reflexivity. Qed.

Lemma attachGrounding_fields (c : Closure) (m : ChatMessage) :
  msg_content (attachGrounding c m) = msg_content m
  ∧ msg_reasoning (attachGrounding c m) = msg_reasoning m
  ∧ msg_project (attachGrounding c m) = msg_project m.
Proof. unfold attachGrounding. by destruct (groundingChunks c). Qed.

Lemma attachGrounding_field (c : Closure) (m : ChatMessage) :
  msg_groundingChunks (attachGrounding c m)
  = match groundingChunks c with
    | [] => msg_groundingChunks m
    | _ :: _ => Some (uniqueChunks (groundingChunks c))
    end.
Proof. unfold attachGrounding. by destruct (groundingChunks c). Qed.

Section Environment.
Variable JSON_parse : string → option Parsed.
Variable Date_now : string.
Variable Object_prototype : Realm.

Lemma mediaBranch_grounding (c : Closure) (m : ChatMessage) :
  msg_groundingChunks (mediaBranch Date_now c m) = msg_groundingChunks m.
Proof.
  unfold mediaBranch.
  by destruct (match finalParts c with [] => _ | _ => _ end).
Qed.

Lemma projectBranch_grounding (c : Closure) (p : Project) (m : ChatMessage) :
  msg_groundingChunks (projectBranch JSON_parse Object_prototype c p m).1
  = msg_groundingChunks m.
Proof.
  unfold projectBranch, projectTry.
  destruct (JSON_parse _) as [[|files explanation projectName]|]; try done.
  destruct (truthyFiles files && truthyField explanation && truthyField projectName);
    [|done].
  destruct files as [| |entries]; try done.
  by destruct (applyFiles Object_prototype entries (proj_files p) "index.html").1
    as [[??]|].
Qed.

Lemma chatBranch_grounding (c : Closure) (m : ChatMessage) :
  msg_groundingChunks (chatBranch c m) = msg_groundingChunks m.
Proof.
  unfold chatBranch. by destruct (matchThinking _) as [[[??]?]|].
Qed.

(** The shape of [finalUpdater] on a session that ends in a MODEL
    message. *)
Lemma finalUpdater_model (c : Closure) (prev : ChatSession) (lastMsg : ChatMessage) :
  last (chat_messages prev) = Some lastMsg → msg_role lastMsg = MODEL →
  ∃ updatedMsg effects,
    finalUpdater JSON_parse Date_now Object_prototype c prev
    = (replaceLast prev (withIsThinking (attachGrounding c updatedMsg) false), effects)
    ∧ msg_groundingChunks updatedMsg = msg_groundingChunks lastMsg
    ∧ (updatedMsg, effects)
      = (if isImageRequest c || isVideoRequest c then (mediaBranch Date_now c lastMsg, [])
         else match isInterpreterRequest c, chat_project prev with
              | true, Some project =>
                  projectBranch JSON_parse Object_prototype c project lastMsg
              | _, _ => (chatBranch c lastMsg, [])
              end).
Proof.
  intros Hlast Hrole. unfold finalUpdater. rewrite Hlast, Hrole.
  destruct (isImageRequest c || isVideoRequest c).
  - eexists _, _. split; [reflexivity|]. split; [|reflexivity].
    apply mediaBranch_grounding.
  - destruct (isInterpreterRequest c), (chat_project prev) as [project|].
    + pose proof (projectBranch_grounding c project lastMsg) as Hg.
      destruct (projectBranch JSON_parse Object_prototype c project lastMsg)
        as [m effects].
      eexists _, _. split; [reflexivity|]. split; [exact Hg|reflexivity].
    + eexists _, _. split; [reflexivity|]. split; [|reflexivity].
      apply chatBranch_grounding.
    + eexists _, _. split; [reflexivity|]. split; [|reflexivity].
      apply chatBranch_grounding.
    + eexists _, _. split; [reflexivity|]. split; [|reflexivity].
      apply chatBranch_grounding.
Qed.

End Environment.

(** C1, as the code has it. For every accumulated sequence of grounding
    citations, the [groundingChunks] field of the finalized MODEL message is
    left as it was if the sequence is empty, and otherwise is set to the
    sequence deduplicated by source URL, one entry per URL in first-seen
    order, the last occurrence of a URL standing for it, without the entries
    that lack a usable URL; the list that is set may be empty. *)
Theorem finalized_groundingChunks_last_wins
  (JSON_parse : string → option Parsed) (Date_now : string) (realm : Realm)
  (c : Closure) (prev : ChatSession) (lastMsg : ChatMessage) :
  last (chat_messages prev) = Some lastMsg → msg_role lastMsg = MODEL →
  ∃ m, last (chat_messages (finalUpdater JSON_parse Date_now realm c prev).1) = Some m
       ∧ msg_groundingChunks m
         = match groundingChunks c with
           | [] => msg_groundingChunks lastMsg
           | _ :: _ => Some (citationsLastWins (groundingChunks c))
           end.
Proof.
  intros Hlast Hrole.
  destruct (finalUpdater_model JSON_parse Date_now realm c prev lastMsg Hlast Hrole)
    as (updatedMsg & effects & -> & Hg & _).
  eexists. split; [apply last_replaceLast|].
  simpl. rewrite attachGrounding_field, Hg.
  destruct (groundingChunks c); [done|]. by rewrite CitationsFacts.uniqueChunks_lastWins.
Qed.

Lemma finalized_groundingChunks_last_wins_witness :
  ∃ m, last (chat_messages
               (finalUpdater JSON_parse_examples "0" ∅
                  (Examples.chatClosure "Hi"
                     [Examples.citeX "A"; Examples.citeX "B"; Examples.citeY; Examples.citeNull])
                  Examples.plainSession).1) = Some m
       ∧ msg_groundingChunks m = Some [Examples.citeX "B"; Examples.citeY].
Proof.
  destruct (finalized_groundingChunks_last_wins JSON_parse_examples "0" ∅
              (Examples.chatClosure "Hi"
                 [Examples.citeX "A"; Examples.citeX "B"; Examples.citeY; Examples.citeNull])
              Examples.plainSession Examples.placeholder eq_refl eq_refl)
    as (m & Hm & Hg).
  exists m. split; [exact Hm|]. rewrite Hg. reflexivity.
Defined.

(** C1 as stated fails twice: of two citations with one URL the later one
    is kept, and a sequence without any usable URL still sets the field, to
    the empty list. *)
Lemma finalized_groundingChunks_first_wins_fails :
  (msg_groundingChunks <$>
     last (chat_messages
             (finalUpdater JSON_parse_examples "0" ∅
                (Examples.chatClosure "Hi" [Examples.citeX "A"; Examples.citeX "B"])
                Examples.plainSession).1))
  ≠ Some (claimedGroundingField (msg_groundingChunks Examples.placeholder)
            [Examples.citeX "A"; Examples.citeX "B"])
  ∧ (msg_groundingChunks <$>
       last (chat_messages
               (finalUpdater JSON_parse_examples "0" ∅
                  (Examples.chatClosure "Hi" [Examples.citeNull])
                  Examples.plainSession).1))
    ≠ Some (claimedGroundingField (msg_groundingChunks Examples.placeholder)
              [Examples.citeNull]).
Proof. split; vm_compute; discriminate. Qed.

Lemma matchThinking_Some (text before inner after : string) :
  matchThinking text = Some (before, inner, after) →
  firstSplit thinkingOpen text before (inner +:+ thinkingClose +:+ after)
  ∧ firstSplit thinkingClose (inner +:+ thinkingClose +:+ after) inner after.
Proof.
  unfold matchThinking.
  destruct (Js.cut thinkingOpen text) as [[b rest]|] eqn:Hopen; [|done].
  destruct (Js.cut thinkingClose rest) as [[i a]|] eqn:Hclose; [|done].
  intros [= -> -> ->].
  pose proof (cut_Some _ _ _ _ Hclose) as Hrest. subst rest.
  repeat split.
  - by apply cut_Some.
  - exact (cut_first _ _ _ _ Hopen).
  - exact (cut_first _ _ _ _ Hclose).
Qed.

Lemma matchThinking_None (text : string) :
  matchThinking text = None → ¬ containsThinkingBlock text.
Proof.
  unfold matchThinking. intros Hm (a & b & c & Htext).
  destruct (Js.cut thinkingOpen text) as [[before rest]|] eqn:Hopen.
  - destruct (Js.cut thinkingClose rest) as [[??]|] eqn:Hclose; [done|].
    pose proof (cut_first _ _ _ _ Hopen a _ Htext) as Hlen.
    apply cut_Some in Hopen.
    (* the closing tag of the block lies behind the leftmost opening tag *)
    assert ((a +:+ thinkingOpen +:+ b) +:+ thinkingClose +:+ c
            = (before +:+ thinkingOpen) +:+ rest) as Heq.
    { rewrite !append_assoc. by rewrite <- Htext, <- Hopen. }
    apply append_eq_le in Heq as (e & _ & ->).
    + by eapply cut_None.
    + rewrite !length_append. lia.
  - by eapply cut_None.
Qed.

(** C9, as the code has it. In the plain chat branch (no image or video
    request, and either no interpreter request or no project in the session)
    the message is finalized from the text that finalization is handed. If
    that text splits at its first opening tag and, behind it, at the first
    closing tag, [reasoning] is the text between the tags without the white
    space at its two ends, and [content] is the text before the opening tag
    followed by the text after the closing tag, again without the white space
    at its two ends. If the text contains no opening tag followed by a
    closing tag, [content] is the text as it is and [reasoning] is untouched.
    On the example of the specification [reasoning] is [reasoning here] and
    [content] is [visible answer]. *)
Theorem chat_finalization_thinking
  (JSON_parse : string → option Parsed) (Date_now : string) (realm : Realm)
  (c : Closure) (prev : ChatSession) (lastMsg : ChatMessage) :
  isImageRequest c = false → isVideoRequest c = false →
  isInterpreterRequest c = false ∨ chat_project prev = None →
  last (chat_messages prev) = Some lastMsg → msg_role lastMsg = MODEL →
  ∃ m, last (chat_messages (finalUpdater JSON_parse Date_now realm c prev).1) = Some m
    ∧ ((∃ before rest inner after,
          firstSplit thinkingOpen (fullResponseText c) before rest
          ∧ firstSplit thinkingClose rest inner after
          ∧ msg_reasoning m = Some (Js.trim inner)
          ∧ trimmed inner (Js.trim inner)
          ∧ msg_content m = Js.trim (before +:+ after)
          ∧ trimmed (before +:+ after) (msg_content m))
       ∨ (¬ containsThinkingBlock (fullResponseText c)
          ∧ msg_content m = fullResponseText c
          ∧ msg_reasoning m = msg_reasoning lastMsg))
    ∧ (fullResponseText c = thinkingExample →
       msg_reasoning m = Some "reasoning here" ∧ msg_content m = "visible answer").
Proof.
  intros Himg Hvid Hplain Hlast Hrole.
  destruct (finalUpdater_model JSON_parse Date_now realm c prev lastMsg Hlast Hrole)
    as (updatedMsg & effects & -> & _ & Hbranch).
  rewrite Himg, Hvid in Hbranch. simpl in Hbranch.
  assert (updatedMsg = chatBranch c lastMsg) as ->.
  { destruct Hplain as [Hi|Hp].
    - rewrite Hi in Hbranch. by injection Hbranch.
    - rewrite Hp in Hbranch. destruct (isInterpreterRequest c); by injection Hbranch. }
  eexists. split; [apply last_replaceLast|].
  destruct (attachGrounding_fields c (chatBranch c lastMsg)) as (Hc & Hr & _).
  cbn [msg_reasoning msg_content withIsThinking]. rewrite Hc, Hr.
  unfold chatBranch. split.
  - destruct (matchThinking (fullResponseText c)) as [[[before inner] after]|] eqn:Hm.
    + left. apply matchThinking_Some in Hm as [Ho Hcl].
      exists before, (inner +:+ thinkingClose +:+ after), inner, after.
      split; [done|]. split; [done|]. split; [done|].
      split; [apply trim_spec|]. split; [done|]. apply trim_spec.
    + right. split; [by apply matchThinking_None|done].
  - intros ->. split; reflexivity.
Qed.

(** With white space of both kinds around the reasoning and the answer. *)
Lemma chat_finalization_thinking_witness :
  ∃ m, last (chat_messages
               (finalUpdater JSON_parse_examples "0" ∅
                  (Examples.chatClosure thinkingSpaced []) Examples.plainSession).1)
       = Some m
       ∧ msg_reasoning m = Some "reasoning here" ∧ msg_content m = "visible answer".
Proof.
  destruct (chat_finalization_thinking JSON_parse_examples "0" ∅
              (Examples.chatClosure thinkingSpaced []) Examples.plainSession
              Examples.placeholder eq_refl eq_refl (or_introl eq_refl) eq_refl eq_refl)
    as (m & Hm & _ & _).
  exists m. split; [exact Hm|].
  vm_compute in Hm. injection Hm as <-. split; reflexivity.
Defined.

(** C9 as stated fails in two ways. The visible content is not only
    stripped of the block, it is trimmed afterwards: the text
    [<thinking>r</thinking> Hi] gives the content [Hi], while the text
    without its block is [ Hi]. And the first revision of the handler
    finalizes the text of the last chunk when that is not empty, not the
    accumulated text: a stream that yields the block and then [Hi]
    accumulates a text that contains the block, and no reasoning is stored;
    a stream that yields [Hel] and [lo] accumulates a text without a block,
    and the content is [lo]. *)
Lemma chat_finalization_as_stated_fails :
  (∃ m, last (chat_messages
                (finalUpdater JSON_parse_examples "0" ∅
                   (Examples.chatClosure "<thinking>r</thinking> Hi" [])
                   Examples.plainSession).1)
        = Some m
        ∧ firstSplit thinkingOpen "<thinking>r</thinking> Hi" EmptyString "r</thinking> Hi"
        ∧ firstSplit thinkingClose "r</thinking> Hi" "r" " Hi"
        ∧ msg_content m ≠ EmptyString +:+ " Hi")
  ∧ (StreamSpec.streamedText (Runtime.chunks SendExamples.thinkingThenHi)
     = "<thinking>r</thinking>Hi"
     ∧ containsThinkingBlock "<thinking>r</thinking>Hi"
     ∧ ∃ m, StreamSpec.trailingMessage "0"
              (Send.handleSendMessageA JSON_parse_examples "0" SendExamples.chatSettings
                 SendExamples.thinkingThenHi "Hello" [] SendExamples.emptyScreen).2
            = Some m
            ∧ msg_reasoning m ≠ Some "r")
  ∧ (StreamSpec.streamedText (Runtime.chunks SendExamples.helThenLo) = "Hello"
     ∧ ¬ containsThinkingBlock "Hello"
     ∧ ∃ m, StreamSpec.trailingMessage "0"
              (Send.handleSendMessageA JSON_parse_examples "0" SendExamples.chatSettings
                 SendExamples.helThenLo "Hello" [] SendExamples.emptyScreen).2
            = Some m
            ∧ msg_content m ≠ "Hello").
Proof.
  split; [|split].
  - eexists. split; [vm_compute; reflexivity|].
    destruct (matchThinking_Some "<thinking>r</thinking> Hi" EmptyString "r" " Hi")
      as [Hopen Hclose]; [vm_compute; reflexivity|].
    split; [exact Hopen|]. split; [exact Hclose|]. vm_compute. discriminate.
  - split; [reflexivity|]. split.
    + exists EmptyString, "r", "Hi". reflexivity.
    + eexists. split; [vm_compute; reflexivity|]. vm_compute. discriminate.
  - split; [reflexivity|]. split.
    + apply matchThinking_None. vm_compute. reflexivity.
    + eexists. split; [vm_compute; reflexivity|]. vm_compute. discriminate.
Qed.

(** C5, as the code has it. In the project branch (interpreter request, a
    project in the session, no image or video request), if the JSON text
    isolated from the text that finalization is handed
    ([cleanedJsonString]) parses and the parsed value misses one of [files],
    [explanation] and [projectName], or holds a falsy value for it ([null],
    [false], [0], the empty string; an empty list of files is not falsy), the
    finalized message shows a fixed prefix followed by the raw text: the
    prefix that says the response was not in the expected format when the
    parsed value is not [null], and the prefix of the [catch] clause when it
    is [null], because reading a field of [null] raises. In both cases the
    project of the session and the [project] field of the message are
    unchanged, no setter is called, and [finalUpdater] returns. *)
Theorem project_fallback_on_missing_fields
  (JSON_parse : string → option Parsed) (Date_now : string) (realm : Realm)
  (c : Closure) (prev : ChatSession) (lastMsg : ChatMessage)
  (project : Project) (parsed : Parsed) :
  isImageRequest c = false → isVideoRequest c = false →
  isInterpreterRequest c = true → chat_project prev = Some project →
  last (chat_messages prev) = Some lastMsg → msg_role lastMsg = MODEL →
  JSON_parse (cleanedJsonString (fullResponseText c)) = Some parsed →
  lacksRequired parsed →
  ∃ m, last (chat_messages (finalUpdater JSON_parse Date_now realm c prev).1) = Some m
    ∧ msg_content m
      = (match parsed with PNull => failedPrefix | PValue _ _ _ => formatPrefix end)
        +:+ fullResponseText c
    ∧ msg_project m = msg_project lastMsg
    ∧ chat_project (finalUpdater JSON_parse Date_now realm c prev).1 = Some project
    ∧ (finalUpdater JSON_parse Date_now realm c prev).2 = [].
Proof.
  intros Himg Hvid Hint Hproj Hlast Hrole Hparse Hlacks.
  destruct (finalUpdater_model JSON_parse Date_now realm c prev lastMsg Hlast Hrole)
    as (updatedMsg & effects & -> & _ & Hbranch).
  rewrite Himg, Hvid, Hint, Hproj in Hbranch. simpl in Hbranch.
  unfold projectBranch, projectTry in Hbranch. rewrite Hparse in Hbranch.
  eexists. split; [apply last_replaceLast|].
  destruct (attachGrounding_fields c updatedMsg) as (Hc & _ & Hp).
  cbn [msg_content msg_project withIsThinking fst snd]. rewrite Hc, Hp.
  rewrite chat_project_replaceLast, Hproj.
  destruct parsed as [|files explanation projectName].
  - by injection Hbranch as -> ->.
  - simpl in Hlacks. rewrite Hlacks in Hbranch. by injection Hbranch as -> ->.
Qed.

Lemma project_fallback_on_missing_fields_witness :
  ∃ m, last (chat_messages
               (finalUpdater JSON_parse_examples "0" ∅
                  (Examples.projectClosure onlyWordsJson) Examples.projectSession).1)
       = Some m
       ∧ msg_content m = formatPrefix +:+ onlyWordsJson
       ∧ msg_project m = None
       ∧ chat_project
           (finalUpdater JSON_parse_examples "0" ∅
              (Examples.projectClosure onlyWordsJson) Examples.projectSession).1
         = Some Examples.demoProject.
Proof.
  destruct (project_fallback_on_missing_fields JSON_parse_examples "0" ∅
              (Examples.projectClosure onlyWordsJson) Examples.projectSession
              Examples.placeholder Examples.demoProject
              (PValue FilesFalsy (Some "Only words.") None)
              eq_refl eq_refl eq_refl eq_refl eq_refl eq_refl eq_refl eq_refl)
    as (m & Hm & Hc & Hp & Hs & _).
  exists m. repeat split; assumption.
Defined.

(** C5 as stated fails in three ways. The text [null] parses, has none of
    the three fields, and the message starts with the prefix of the [catch]
    clause, not with the one about the expected format. The text [[{},{}]]
    parses as well and has none of the fields, but what the handler parses is
    the text between the first [{] and the last [}], which is no JSON; again
    the message starts with the prefix of the [catch] clause. And in the
    first revision of the handler a stream that yields [{] and then [}]
    accumulates the text [{}], which parses and has none of the fields, while
    finalization is handed the text of the last chunk, which does not
    parse. *)
Lemma project_fallback_as_stated_fails :
  (JSON_parse_examples "null" = Some PNull
   ∧ lacksRequired PNull
   ∧ ∃ m, last (chat_messages
                  (finalUpdater JSON_parse_examples "0" ∅
                     (Examples.projectClosure "null") Examples.projectSession).1)
          = Some m
          ∧ Js.startsWith formatPrefix (msg_content m) = false)
  ∧ (JSON_parse_examples "[{},{}]" = Some (PValue FilesFalsy None None)
     ∧ lacksRequired (PValue FilesFalsy None None)
     ∧ ∃ m, last (chat_messages
                    (finalUpdater JSON_parse_examples "0" ∅
                       (Examples.projectClosure "[{},{}]") Examples.projectSession).1)
            = Some m
            ∧ Js.startsWith formatPrefix (msg_content m) = false)
  ∧ (JSON_parse_examples (StreamSpec.streamedText (Runtime.chunks SendExamples.bracesApart))
     = Some (PValue FilesFalsy None None)
     ∧ lacksRequired (PValue FilesFalsy None None)
     ∧ ∃ m, StreamSpec.trailingMessage "0"
              (Send.handleSendMessageA JSON_parse_examples "0" SendExamples.projectSettings
                 SendExamples.bracesApart "make a button" [] SendExamples.emptyScreen).2
            = Some m
            ∧ msg_projectFilesUpdate m = Some true
            ∧ Js.startsWith formatPrefix (msg_content m) = false).
Proof.
  split; [|split].
  - split; [reflexivity|]. split; [exact I|].
    eexists. split; [vm_compute; reflexivity|]. vm_compute. reflexivity.
  - split; [reflexivity|]. split; [reflexivity|].
    eexists. split; [vm_compute; reflexivity|]. vm_compute. reflexivity.
  - split; [reflexivity|]. split; [reflexivity|].
    eexists. split; [vm_compute; reflexivity|]. split; vm_compute; reflexivity.
Qed.

End FinalizeFacts.

(** ** Sending *)

Module SendFacts.
Import Chat Finalize Models Runtime Adapter Send SendSpec.

Section Handlers.
Variable JSON_parse : string → option Parsed.
Variable Date_now : string.

Lemma isEmpty_nil {A : Type} (l : list A) : isEmpty l = true ↔ l = [].
Proof. by destruct l. Qed.

(** C8. A send while the loading flag is set, or with a prompt that is
    empty after trimming (a prompt of white space only, whichever white space
    characters it is made of) and no attachment, returns at once and leaves
    the whole state as it is: no session is written, the loading flag is not
    touched, nothing is logged and no adapter is called. This holds for both
    revisions of the handler. *)
Theorem send_guard_is_noop
  (cfg : Settings) (script : Script) (prompt : string) (attachments : list Attachment)
  (st : State) :
  isLoading st = true
  ∨ ((Js.trim prompt = EmptyString ∨ TextSpec.blank prompt) ∧ attachments = []) →
  handleSendMessageA JSON_parse Date_now cfg script prompt attachments st = (Returned, st)
  ∧ handleSendMessageB JSON_parse Date_now cfg script prompt attachments st = (Returned, st).
Proof.
  intros Hguard.
  assert ((negb (Js.truthy (Js.trim prompt)) && isEmpty attachments) || isLoading st = true)
    as Hg.
  { destruct Hguard as [->|[Hblank ->]]; [apply orb_true_r|].
    assert (Js.trim prompt = EmptyString) as ->; [|reflexivity].
    destruct Hblank as [Htrim|Hblank]; [done|]. by apply TextFacts.trim_blank. }
  unfold handleSendMessageA, handleSendMessageB.
  unfold mbind, M_bind, get. cbv beta iota. rewrite Hg. done.
Qed.

End Handlers.

(** A prompt of a space, a no-break space, an ideographic space and a line
    feed. *)
Lemma send_guard_is_noop_witness :
  handleSendMessageA JSON_parse_examples "0" SendExamples.chatSettings
    (SendExamples.hiThere None)
    (" " +:+ TextSpec.nbsp +:+ TextSpec.ideographicSpace +:+ String "010" EmptyString)
    [] SendExamples.emptyScreen
  = (Returned, SendExamples.emptyScreen)
  ∧ handleSendMessageB JSON_parse_examples "0" SendExamples.chatSettings
      (SendExamples.hiThere None)
      (" " +:+ TextSpec.nbsp +:+ TextSpec.ideographicSpace +:+ String "010" EmptyString)
      [] SendExamples.emptyScreen
    = (Returned, SendExamples.emptyScreen).
Proof.
  apply (send_guard_is_noop JSON_parse_examples "0"). right.
  split; [|reflexivity]. left. vm_compute. reflexivity.
Defined.

(** *** Runs that are not stopped add only quiet events *)

Lemma keeps_ret {A : Type} (a : A) : keeps (mret a).
Proof. intros st0 st H. exact H. Qed.

Lemma keeps_get : keeps get.
Proof. intros st0 st H. exact H. Qed.

Lemma keeps_bind {A B : Type} (m : M A) (f : A → M B) :
  keeps m → (∀ a, keeps (f a)) → keeps (m ≫= f).
Proof.
  intros Hm Hf st0 st H. unfold mbind, M_bind.
  specialize (Hm st0 st H). destruct (m st) as [a st']. by apply Hf.
Qed.

Lemma keeps_if {A : Type} (b : bool) (m1 m2 : M A) :
  keeps m1 → keeps m2 → keeps (if b then m1 else m2).
Proof. by destruct b. Qed.

Lemma undisturbed_event (st0 st st' : State) (e : Event) :
  quietEvent e = true →
  abortControllerRef st' = abortControllerRef st →
  signalAborted st' = signalAborted st →
  trace st' = trace st ++ [e] →
  undisturbed st0 st → undisturbed st0 st'.
Proof.
  intros He Hr Hs Ht [Hab|[[Hlr Hls] (events & Hev & Hq)]].
  - left. congruence.
  - right. split; [split; congruence|].
    exists (events ++ [e]). split.
    + rewrite Ht, Hev. by rewrite app_assoc.
    + rewrite forallb_app, Hq. simpl. by rewrite He.
Qed.

Lemma keeps_emit (e : Event) : quietEvent e = true → keeps (emit e).
Proof. intros He st0 st. by apply (undisturbed_event st0 st _ e). Qed.

Lemma keeps_console (msg : string) : keeps (console msg).
Proof. by apply keeps_emit. Qed.

Lemma keeps_setChatHistory (w : Write) (f : list ChatSession → list ChatSession) :
  w ≠ WriteFinal → keeps (setChatHistory w f).
Proof.
  intros Hw st0 st. apply (undisturbed_event st0 st _ (EvSetChatHistory w)); try done.
  by destruct w.
Qed.

Lemma keeps_setActiveChatId (id : string) : keeps (setActiveChatId id).
Proof. intros st0 st. by apply (undisturbed_event st0 st _ (EvSetActiveChatId id)). Qed.

(** Pressing stop aborts the request, whatever happened before. *)
Lemma handleStopGeneration_aborts (st0 st : State) :
  undisturbed st0 st → signalAborted (handleStopGeneration st).2 = true.
Proof.
  intros H. unfold handleStopGeneration, get, mbind, M_bind. simpl.
  destruct H as [Hab|[[Hr Hs] _]].
  - destruct (abortControllerRef st); simpl; [done|exact Hab].
  - rewrite Hr. done.
Qed.

Lemma keeps_await (script : Script) (k : nat) : keeps (await script k).
Proof.
  intros st0 st H. unfold await, mbind, M_bind.
  destruct (bool_decide (stopAt script = Some k)).
  - pose proof (handleStopGeneration_aborts st0 st H) as Hab.
    destruct (handleStopGeneration st) as [[] st']. simpl in *. by left.
  - exact H.
Qed.

Create HintDb keeps.
#[local] Hint Resolve keeps_ret keeps_get keeps_await keeps_console
  keeps_setActiveChatId : keeps.
#[local] Hint Extern 1 (keeps (setChatHistory _ _)) =>
  (apply keeps_setChatHistory; discriminate) : keeps.
#[local] Hint Extern 1 (keeps (emit _)) => (apply keeps_emit; reflexivity) : keeps.

Ltac keeps_step :=
  first
    [ solve [auto with keeps nocore]
    | (apply keeps_bind; [|intros ?])
    | apply keeps_if ].

Lemma keeps_onChunk (rq : Request) (chunk : Response) (l : Locals) :
  keeps (onChunk rq chunk l).
Proof. unfold onChunk. repeat keeps_step. Qed.
#[local] Hint Resolve keeps_onChunk : keeps.

Lemma keeps_readStream {Acc : Type} (script : Script) (onC : Response → Acc → M Acc) :
  (∀ r a, keeps (onC r a)) →
  ∀ pending k acc, keeps (readStream script onC pending k acc).
Proof.
  intros HonC pending. induction pending as [|value rest IH]; intros k acc; simpl;
    repeat keeps_step.
Qed.

Lemma keeps_generateChatResponse {Acc : Type} (script : Script)
  (onC : Response → Acc → M Acc) (model : Model) (acc : Acc) :
  (∀ r a, keeps (onC r a)) → keeps (generateChatResponse script onC model acc).
Proof.
  intros HonC. unfold generateChatResponse, chatResponseTry.
  apply keeps_bind.
  - repeat keeps_step. by apply keeps_readStream.
  - intros [[[]|] acc']; repeat keeps_step.
Qed.
#[local] Hint Resolve keeps_readStream keeps_generateChatResponse : keeps.

Lemma keeps_generateImage (script : Script) : keeps (generateImage script).
Proof.
  unfold generateImage, generateImageTry.
  apply keeps_bind; [repeat keeps_step|].
  intros [[]|]; repeat keeps_step.
Qed.
#[local] Hint Resolve keeps_generateImage : keeps.

Lemma keeps_pollVideo (script : Script) (remaining : nat) :
  ∀ k, keeps (pollVideo script remaining k).
Proof.
  induction remaining as [|n IH]; intros k; simpl; repeat keeps_step.
Qed.
#[local] Hint Resolve keeps_pollVideo : keeps.

Lemma keeps_generateVideo (script : Script) : keeps (generateVideo script).
Proof.
  unfold generateVideo, generateVideoTry.
  apply keeps_bind.
  - repeat keeps_step.
    match goal with |- keeps (match ?x with _ => _ end) => destruct x end;
      repeat keeps_step.
  - intros [[]|]; repeat keeps_step.
Qed.
#[local] Hint Resolve keeps_generateVideo : keeps.

Lemma keeps_tryBlock
  (cfg : Settings) (script : Script) (rq : Request) (videoModel : Model)
  (prompt : string) (attachments : list Attachment) (messagesForApi : list ChatMessage) :
  keeps (tryBlock cfg script rq videoModel prompt attachments messagesForApi).
Proof.
  unfold tryBlock. repeat keeps_step;
    match goal with |- keeps (match ?x with _ => _ end) => destruct x end;
    repeat keeps_step.
Qed.

Lemma keeps_catchBlock (rq : Request) (thrown : option Thrown) :
  keeps (catchBlock rq thrown).
Proof. destruct thrown as [[]|]; simpl; repeat keeps_step. Qed.

Lemma settles_bind {A : Type} (m : M A) (f : A → M Completion) :
  keeps m → (∀ a, settles (f a)) → settles (m ≫= f).
Proof.
  intros Hm Hf st0 st completion st2 Hu Hrun.
  unfold mbind, M_bind in Hrun.
  specialize (Hm st0 st Hu). destruct (m st) as [a st1].
  by apply (Hf a st0 st1).
Qed.

Lemma settles_rejected : settles (mret Rejected).
Proof. intros st0 st completion st2 _ [= <- _]. done. Qed.

Section Handlers2.
Variable JSON_parse : string → option Parsed.
Variable Date_now : string.

(** The second revision turns both mismatches of the image tool away
    before it writes anything: the state is the one it was given, up to the
    alert shown. *)
Lemma revisionB_rejects_image_mismatch
  (cfg : Settings) (script : Script) (prompt : string) (attachments : list Attachment)
  (st : State) :
  imageMismatch cfg attachments →
  ∃ st', handleSendMessageB JSON_parse Date_now cfg script prompt attachments st
         = (Returned, st')
    ∧ chatHistory st' = chatHistory st
    ∧ activeChatId st' = activeChatId st
    ∧ isLoading st' = isLoading st
    ∧ signalAborted st' = signalAborted st
    ∧ (trace st' = trace st ∨ ∃ msg, trace st' = trace st ++ [EvAlert msg]).
Proof.
  intros (Himg & Hmis).
  unfold handleSendMessageB. unfold mbind, M_bind, get. cbv beta iota.
  destruct ((negb (Js.truthy (Js.trim prompt)) && isEmpty attachments) || isLoading st).
  { exists st. repeat split; auto. }
  destruct (activeChatId st) as [id|] eqn:Hid.
  2:{ exists st. repeat split; auto. }
  destruct (negb (Js.truthy id)).
  { exists st. repeat split; auto. }
  rewrite Himg.
  destruct Hmis as [[Hedit ->]|[Htext Hne]].
  - rewrite Hedit. rewrite andb_false_r. simpl.
    eexists. split; [reflexivity|]. simpl. repeat split; eauto.
  - rewrite Htext. destruct attachments; [done|]. simpl.
    eexists. split; [reflexivity|]. simpl. repeat split; eauto.
Qed.

(** The first revision turns away a text-to-image model with
    attachments. *)
Lemma revisionA_rejects_text_to_image_attachments
  (cfg : Settings) (script : Script) (prompt : string) (attachments : list Attachment)
  (st : State) :
  Toggles.isImageToolActive (toggles cfg) = true →
  isTextToImageModel (activeBaseModel cfg) = true → attachments ≠ [] →
  ∃ st', handleSendMessageA JSON_parse Date_now cfg script prompt attachments st
         = (Returned, st')
    ∧ chatHistory st' = chatHistory st
    ∧ activeChatId st' = activeChatId st
    ∧ isLoading st' = isLoading st
    ∧ signalAborted st' = signalAborted st
    ∧ (trace st' = trace st ∨ ∃ msg, trace st' = trace st ++ [EvAlert msg]).
Proof.
  intros Himg Htext Hne.
  unfold handleSendMessageA. unfold mbind, M_bind, get. cbv beta iota.
  destruct ((negb (Js.truthy (Js.trim prompt)) && isEmpty attachments) || isLoading st).
  { exists st. repeat split; auto. }
  rewrite Himg, Htext. destruct attachments; [done|]. simpl.
  eexists. split; [reflexivity|]. simpl. repeat split; eauto.
Qed.

Lemma finallyBlock_not_aborted
  (cfg : Settings) (rq : Request) (textOfResponse : bool) (l : Locals) (st : State) :
  signalAborted st = false →
  ∃ st',
    finallyBlock JSON_parse Date_now cfg rq textOfResponse l st = (tt, st')
    ∧ trace st'
      = trace st ++ [EvSetIsLoading false; EvSetChatHistory WriteFinal]
        ++ map EvUi
             (finalWrite JSON_parse Date_now
                (closureOf cfg rq (settleLocals textOfResponse l))
                (currentChatId rq) (objectPrototype st) (chatHistory st)).1.2
    ∧ isLoading st' = false
    ∧ chatHistory st'
      = (finalWrite JSON_parse Date_now
           (closureOf cfg rq (settleLocals textOfResponse l))
           (currentChatId rq) (objectPrototype st) (chatHistory st)).1.1.
Proof.
  intros Hsig.
  unfold finallyBlock, setIsLoading, setChatHistoryWith, get, mbind, M_bind.
  simpl. rewrite Hsig. simpl. unfold finalWrite.
  destruct (mapChatWith _ _ _ _ (chatHistory st)) as [[history' effects] realm'].
  eexists. split; [reflexivity|]. simpl.
  rewrite <- !app_assoc. done.
Qed.

(** At the level of the [try], [catch] and [finally] blocks: when the
    awaited adapter call returns without throwing and the request was not
    aborted, the handler clears the loading flag, then commits the finalized
    message, and then [finalUpdater] calls its own setters. *)
Lemma runRequest_final_write_follows_clear
  (cfg : Settings) (script : Script) (rq : Request) (videoModel : Model)
  (textOfResponse : bool) (prompt : string) (attachments : list Attachment)
  (messagesForApi : list ChatMessage) (st st1 : State) (l : Locals) :
  tryBlock cfg script rq videoModel prompt attachments messagesForApi st
  = ((None, l), st1) →
  signalAborted st1 = false →
  ∃ effects st2,
    runRequest JSON_parse Date_now cfg script rq videoModel textOfResponse
      prompt attachments messagesForApi st = (Returned, st2)
    ∧ trace st2
      = trace st1 ++ [EvSetIsLoading false; EvSetChatHistory WriteFinal] ++ map EvUi effects
    ∧ isLoading st2 = false
    ∧ chatHistory st2
      = (finalWrite JSON_parse Date_now
           (closureOf cfg rq (settleLocals textOfResponse l))
           (currentChatId rq) (objectPrototype st1) (chatHistory st1)).1.1.
Proof.
  intros Htry Hsig.
  destruct (finallyBlock_not_aborted cfg rq textOfResponse l st1 Hsig)
    as (st2 & Hfin & Htrace & Hload & Hhist).
  eexists _, st2. split; [|split; [exact Htrace|split; assumption]].
  unfold runRequest. unfold mbind at 1. unfold M_bind at 1. rewrite Htry.
  unfold catchBlock. unfold mbind, M_bind, mret, M_ret. rewrite Hfin. reflexivity.
Qed.

Lemma finallyBlock_signal
  (cfg : Settings) (rq : Request) (textOfResponse : bool) (l : Locals) (st : State) :
  signalAborted (finallyBlock JSON_parse Date_now cfg rq textOfResponse l st).2
  = signalAborted st.
Proof.
  unfold finallyBlock, setIsLoading, setChatHistoryWith, get, mbind, M_bind, mret, M_ret.
  simpl. destruct (signalAborted st) eqn:Hs; simpl; [done|].
  by destruct (mapChatWith _ _ _ _ _) as [[??]?].
Qed.

Lemma settles_runRequest
  (cfg : Settings) (script : Script) (rq : Request) (videoModel : Model)
  (textOfResponse : bool) (prompt : string) (attachments : list Attachment)
  (messagesForApi : list ChatMessage) :
  settles (runRequest JSON_parse Date_now cfg script rq videoModel textOfResponse
             prompt attachments messagesForApi).
Proof.
  intros st0 st completion st2 Hu Hrun _ Hsig.
  unfold runRequest in Hrun. unfold mbind at 1 in Hrun. unfold M_bind at 1 in Hrun.
  pose proof (keeps_tryBlock cfg script rq videoModel prompt attachments messagesForApi
                st0 st Hu) as H1.
  destruct (tryBlock cfg script rq videoModel prompt attachments messagesForApi st)
    as [[thrown l] st1].
  simpl in H1.
  unfold mbind at 1 in Hrun. unfold M_bind at 1 in Hrun.
  pose proof (keeps_catchBlock rq thrown st0 st1 H1) as H2.
  destruct (catchBlock rq thrown st1) as [[] stc]. simpl in H2.
  unfold mbind, M_bind, mret, M_ret in Hrun.
  pose proof (finallyBlock_signal cfg rq textOfResponse l stc) as Hs.
  destruct (finallyBlock JSON_parse Date_now cfg rq textOfResponse l stc)
    as [[] stf] eqn:Hfin.
  injection Hrun as _ <-. simpl in Hs. rewrite Hsig in Hs. symmetry in Hs.
  destruct H2 as [Hab|[_ (events & Hev & Hq)]]; [congruence|].
  destruct (finallyBlock_not_aborted cfg rq textOfResponse l stc Hs)
    as (st' & Hfin' & Htr & Hload & _).
  rewrite Hfin in Hfin'. injection Hfin' as <-.
  eexists events, _. split; [|split; assumption].
  rewrite Htr, Hev. by rewrite <- !app_assoc.
Qed.

(** C2, as the code has it. Take any send of the first revision that
    passes the validation at its head (loading flag not set, a prompt or an
    attachment, no text-to-image model with attachments), that returns, and
    whose request was not aborted. Then what the run adds to the trace ends
    with the clearing of the loading flag, directly followed by the final
    write, followed only by the setters [finalUpdater] calls; everything
    before, in particular every observed chunk or response, is neither a
    clearing of the loading flag nor a final write. So the final write comes
    after the last chunk and directly after the loading flag is cleared, not
    before it. *)
Theorem send_final_write_follows_clear
  (cfg : Settings) (script : Script) (prompt : string) (attachments : list Attachment)
  (st : State) (completion : Completion) (st2 : State) :
  handleSendMessageA JSON_parse Date_now cfg script prompt attachments st
  = (completion, st2) →
  isLoading st = false →
  Js.truthy (Js.trim prompt) = true ∨ attachments ≠ [] →
  Toggles.isImageToolActive (toggles cfg) && isTextToImageModel (activeBaseModel cfg)
    && negb (isEmpty attachments) = false →
  completion = Returned →
  signalAborted st2 = false →
  ∃ pre effects,
    trace st2
    = trace st ++ pre ++ [EvSetIsLoading false; EvSetChatHistory WriteFinal]
      ++ map EvUi effects
    ∧ forallb quietEvent pre = true
    ∧ isLoading st2 = false.
Proof.
  intros Hrun Hload Hinput Hmis Hret Hsig.
  unfold handleSendMessageA in Hrun.
  unfold mbind at 1 in Hrun. unfold M_bind at 1 in Hrun. unfold get at 1 in Hrun.
  assert (negb (Js.truthy (Js.trim prompt)) && isEmpty attachments = false) as Hin.
  { destruct Hinput as [->|Hne]; [done|]. destruct attachments; [done|].
    apply andb_false_r. }
  rewrite Hload, Hmis, Hin in Hrun.
  change (false || false) with false in Hrun. cbv beta iota in Hrun.
  unfold mbind at 1 in Hrun. unfold M_bind at 1 in Hrun.
  unfold mbind at 1 in Hrun. unfold M_bind at 1 in Hrun.
  unfold setIsLoading at 1 in Hrun. unfold newAbortController at 1 in Hrun.
  cbv beta iota zeta in Hrun.
  match type of Hrun with
  | ?body ?sta = _ =>
      assert (settles body) as Hs;
      [clear Hrun|apply (Hs st sta completion st2); try assumption]
  end.
  - apply settles_bind.
    { destruct (activeChatId st); repeat keeps_step. }
    intros _. apply settles_bind.
    { repeat keeps_step;
        repeat (match goal with |- keeps (match ?x with _ => _ end) => destruct x end;
                repeat keeps_step). }
    intros _.
    match goal with |- settles (match ?x with _ => _ end) => destruct x end.
    + apply settles_runRequest.
    + apply settles_rejected.
  - right. split; [done|]. exists [EvSetIsLoading true]. done.
Qed.

(** The same for the second revision, whose validation also asks for an
    active session and turns away an image editing model without
    attachment. *)
Lemma revisionB_final_write_follows_clear
  (cfg : Settings) (script : Script) (prompt : string) (attachments : list Attachment)
  (st : State) (completion : Completion) (st2 : State) (id : string) :
  handleSendMessageB JSON_parse Date_now cfg script prompt attachments st
  = (completion, st2) →
  isLoading st = false →
  Js.truthy (Js.trim prompt) = true ∨ attachments ≠ [] →
  activeChatId st = Some id → Js.truthy id = true →
  Toggles.isImageToolActive (toggles cfg) && isTextToImageModel (activeBaseModel cfg)
    && negb (isEmpty attachments) = false →
  Toggles.isImageToolActive (toggles cfg) && isImageEditModel (activeBaseModel cfg)
    && isEmpty attachments = false →
  completion = Returned →
  signalAborted st2 = false →
  ∃ pre effects,
    trace st2
    = trace st ++ pre ++ [EvSetIsLoading false; EvSetChatHistory WriteFinal]
      ++ map EvUi effects
    ∧ forallb quietEvent pre = true
    ∧ isLoading st2 = false.
Proof.
  intros Hrun Hload Hinput Hid Htruthy Hmis1 Hmis2 Hret Hsig.
  unfold handleSendMessageB in Hrun.
  unfold mbind at 1 in Hrun. unfold M_bind at 1 in Hrun. unfold get at 1 in Hrun.
  assert (negb (Js.truthy (Js.trim prompt)) && isEmpty attachments = false) as Hin.
  { destruct Hinput as [->|Hne]; [done|]. destruct attachments; [done|].
    apply andb_false_r. }
  cbv beta iota in Hrun.
  rewrite Hload, Hin, Hid, Htruthy, Hmis1, Hmis2 in Hrun.
  change (false || false) with false in Hrun. cbv beta iota in Hrun.
  change (negb true) with false in Hrun. cbv beta iota in Hrun.
  unfold mbind at 1 in Hrun. unfold M_bind at 1 in Hrun.
  unfold mbind at 1 in Hrun. unfold M_bind at 1 in Hrun.
  unfold setIsLoading at 1 in Hrun. unfold newAbortController at 1 in Hrun.
  cbv beta iota zeta in Hrun.
  match type of Hrun with
  | ?body ?sta = _ =>
      assert (settles body) as Hs;
      [clear Hrun|apply (Hs st sta completion st2); try assumption]
  end.
  - destruct (findChat id (chatHistory st)) as [found|]; [|apply settles_rejected].
    apply settles_bind; [repeat keeps_step|]. intros _.
    apply settles_bind; [repeat keeps_step|]. intros _.
    apply settles_runRequest.
  - right. split; [done|]. exists [EvSetIsLoading true]. done.
Qed.

End Handlers2.

Import SendExamples.

Lemma send_final_write_follows_clear_witness :
  ∃ pre effects,
    trace (handleSendMessageA JSON_parse_examples "0" chatSettings (hiThere None)
             "Hello" [] emptyScreen).2
    = trace emptyScreen ++ pre ++ [EvSetIsLoading false; EvSetChatHistory WriteFinal]
      ++ map EvUi effects
    ∧ forallb quietEvent pre = true
    ∧ isLoading (handleSendMessageA JSON_parse_examples "0" chatSettings (hiThere None)
                   "Hello" [] emptyScreen).2 = false.
Proof.
  apply (send_final_write_follows_clear JSON_parse_examples "0" chatSettings
           (hiThere None) "Hello" [] emptyScreen
           (handleSendMessageA JSON_parse_examples "0" chatSettings (hiThere None)
              "Hello" [] emptyScreen).1).
  - vm_compute. reflexivity.
  - reflexivity.
  - left. reflexivity.
  - reflexivity.
  - vm_compute. reflexivity.
  - vm_compute. reflexivity.
Defined.

(** C2 as stated fails on the run of the specification's own scenario:
    the prompt [Hello], answered by the chunks [Hi] and [ there]. The
    loading flag is cleared at position 8 of the trace and the final write is
    at position 9. *)
Lemma final_write_before_clear_fails :
  (handleSendMessageA JSON_parse_examples "0" chatSettings (hiThere None) "Hello" []
     emptyScreen).1 = Returned
  ∧ signalAborted
      (handleSendMessageA JSON_parse_examples "0" chatSettings (hiThere None) "Hello" []
         emptyScreen).2 = false
  ∧ ¬ finalWriteBeforeClear
        (trace (handleSendMessageA JSON_parse_examples "0" chatSettings (hiThere None)
                  "Hello" [] emptyScreen).2).
Proof.
  split; [vm_compute; reflexivity|]. split; [vm_compute; reflexivity|].
  vm_compute. lia.
Qed.

(** C3 at its failing input. In the first revision, with the image tool
    on, an image editing model selected and no attachment, a send with a
    prompt is not turned away: it sets the loading flag, writes the new
    session and calls the adapter. *)
Theorem revisionA_sends_image_edit_without_attachment :
  imageMismatch imageEditSettings []
  ∧ existsb isAdapterCall
      (trace (handleSendMessageA JSON_parse_examples "0" imageEditSettings editedImage
                "make it blue" [] emptyScreen).2) = true
  ∧ EvSetIsLoading true
    ∈ trace (handleSendMessageA JSON_parse_examples "0" imageEditSettings editedImage
               "make it blue" [] emptyScreen).2
  ∧ length (chatHistory
              (handleSendMessageA JSON_parse_examples "0" imageEditSettings editedImage
                 "make it blue" [] emptyScreen).2) = 1
  ∧ chatHistory emptyScreen = [].
Proof.
  split; [split; [reflexivity|left; split; reflexivity]|].
  split; [vm_compute; reflexivity|].
  split; [|split; vm_compute; reflexivity].
  vm_compute. apply elem_of_cons. by left.
Qed.

(** C7 at its failing input. The stream yields [Hi] and [ there], and the
    user presses stop while the second read is pending. The stop handler
    writes its notice; the pending read then delivers [ there], the callback
    takes it and overwrites the notice with the accumulated text; only the
    next turn of the loop sees the abort. The finalization is skipped. *)
Theorem stop_then_late_chunk_overwrites_notice :
  let st := (handleSendMessageA JSON_parse_examples "0" chatSettings (hiThere (Some 2))
               "Hello" [] emptyScreen).2 in
  signalAborted st = true
  ∧ trace st
    = [EvSetIsLoading true; EvSetChatHistory WriteNewChat; EvSetActiveChatId "0";
       EvAdapterCall (CallGenerateChatResponse helloMessages GEMINI_2_0_FLASH);
       EvObserved (textChunk "Hi"); EvSetChatHistory WriteEcho;
       EvSetIsLoading false; EvSetChatHistory WriteStopped;
       EvObserved (textChunk " there"); EvSetChatHistory WriteEcho;
       EvConsole "Stream generation aborted.";
       EvConsole "Message generation was stopped by the user.";
       EvSetIsLoading false]
  ∧ trailingContent "0" st = Some "Hi there"
  ∧ trailingContent "0" st ≠ Some stoppedNotice
  ∧ existsb isFinalWrite (trace st) = false.
Proof.
  cbv zeta. repeat split; try (vm_compute; reflexivity).
  vm_compute. discriminate.
Qed.

End SendFacts.

(* ================================================================== *)
(** * Part III. Further properties of the code *)
(* ================================================================== *)

(** ** The project file tree: failure, repeated and independent writes *)

Module UpsertFacts.
Import FileTree FileTreeFacts.

#[local] Arguments updateLevel : simpl never.

Lemma inherits_member (realm : Realm) (part : string) :
  part ∈ objectPrototypeNames → inherits realm part = true.
Proof.
  intros Hin. unfold inherits, get. rewrite lookup_empty.
  by rewrite bool_decide_eq_true_2.
Qed.

Lemma updateLevel_twice (parts : list string) :
  ∀ (realm : Realm) (nodes : Files) (t1 t2 : string),
    updateLevel (updateLevel realm nodes parts t1).2
      (updateLevel realm nodes parts t1).1.2 parts t2
    = updateLevel realm nodes parts t2.
Proof.
  induction parts as [|part rest IH]; intros realm nodes t1 t2; [reflexivity|].
  destruct rest as [|next rest'].
  - destruct (nodes !! part) as [node|] eqn:Hpart.
    + rewrite !(updateLevel_last_own realm nodes part _ node Hpart).
      destruct (children node) as [sub|] eqn:Hch; simpl.
      * by rewrite (updateLevel_last_own realm nodes part _ node Hpart), Hch.
      * rewrite (updateLevel_last_own realm _ part _ (setContent node t1))
          by apply lookup_insert_eq.
        simpl. rewrite Hch. by rewrite insert_insert_eq.
    + destruct (inherits realm part) eqn:Hinh.
      * rewrite !(updateLevel_inherited_last realm nodes part _ Hpart Hinh).
        destruct (bool_decide (part ∈ objectPrototypeNames)) eqn:Hmember; simpl.
        -- apply bool_decide_eq_true in Hmember.
           rewrite updateLevel_inherited_last;
             [|done|by apply inherits_member].
           rewrite bool_decide_eq_true_2 by done. by rewrite insert_insert_eq.
        -- by rewrite (updateLevel_inherited_last realm nodes part _ Hpart Hinh), Hmember.
      * rewrite !(updateLevel_last realm nodes part _ Hinh), Hpart. simpl.
        rewrite (updateLevel_last_own realm _ part _ (fileNode part t1))
          by apply lookup_insert_eq.
        simpl. by rewrite !insert_insert_eq.
  - destruct (nodes !! part) as [node|] eqn:Hpart.
    + rewrite !(updateLevel_more_own realm nodes part next rest' _ node Hpart).
      destruct (children node) as [sub|] eqn:Hch.
      * specialize (IH realm sub t1 t2).
        destruct (updateLevel realm sub (next :: rest') t1) as [[o1 sub1] realm1].
        simpl in IH. simpl.
        rewrite (updateLevel_more_own realm1 _ part next rest' _ (setChildren node sub1))
          by apply lookup_insert_eq.
        simpl. rewrite IH.
        destruct (updateLevel realm sub (next :: rest') t2) as [[o2 sub2] realm2].
        by rewrite insert_insert_eq.
      * simpl. by rewrite (updateLevel_more_own realm nodes part next rest' _ node Hpart), Hch.
    + destruct (inherits realm part) eqn:Hinh.
      * rewrite !(updateLevel_inherited_more realm nodes part next rest' _ Hpart Hinh).
        done.
      * rewrite !(updateLevel_more realm nodes part next rest' _ Hinh), Hpart.
        specialize (IH realm ∅ t1 t2).
        destruct (updateLevel realm ∅ (next :: rest') t1) as [[o1 sub1] realm1].
        simpl in IH. simpl.
        rewrite (updateLevel_more_own realm1 _ part next rest' _ (dirNode part sub1))
          by apply lookup_insert_eq.
        simpl. rewrite IH.
        destruct (updateLevel realm ∅ (next :: rest') t2) as [[o2 sub2] realm2].
        by rewrite !insert_insert_eq.
Qed.

(** X1. At a path none of whose segments names something a plain object
    inherits, the upsert returns and leaves [Object.prototype] alone; it
    fails in the two blocked situations and in no other, and a failure
    leaves the tree as it was. *)
Theorem findAndUpdateFile_fails_iff_blocked
  (realm : Realm) (nodes : Files) (path text : string) :
  ordinary realm (Js.split "/" path) →
  ∃ ok nodes',
    findAndUpdateFile realm nodes path text = (Returns ok, nodes', realm)
    ∧ (ok = false ↔ blocked nodes (Js.split "/" path))
    ∧ (ok = false → nodes' = nodes).
Proof.
  intros Hord. unfold findAndUpdateFile.
  destruct (updateLevel_ordinary _ realm nodes text Hord) as (ok & nodes' & E).
  exists ok, nodes'. split; [done|]. split; [split|].
  - intros ->. by eapply updateLevel_false_blocked.
  - intros Hb. rewrite (updateLevel_blocked realm _ _ text Hb) in E. by injection E.
  - intros ->. by eapply updateLevel_false_unchanged.
Qed.

Lemma findAndUpdateFile_fails_iff_blocked_witness :
  ∃ ok nodes',
    findAndUpdateFile ∅ {[ "src" := fileNode "src" "old" ]} "src/App.tsx" "new"
    = (Returns ok, nodes', ∅)
    ∧ (ok = false ↔ blocked {[ "src" := fileNode "src" "old" ]} (Js.split "/" "src/App.tsx"))
    ∧ (ok = false → nodes' = {[ "src" := fileNode "src" "old" ]}).
Proof.
  apply (findAndUpdateFile_fails_iff_blocked ∅ {[ "src" := fileNode "src" "old" ]}
           "src/App.tsx" "new").
  repeat constructor.
Defined.

(** X2. Writing one path twice gives what the second write alone gives:
    the same result, the same tree and the same [Object.prototype]. *)
Theorem findAndUpdateFile_last_write_wins
  (realm : Realm) (nodes : Files) (path t1 t2 : string) :
  findAndUpdateFile (findAndUpdateFile realm nodes path t1).2
    (findAndUpdateFile realm nodes path t1).1.2 path t2
  = findAndUpdateFile realm nodes path t2.
Proof. apply updateLevel_twice. Qed.






(** X26. When the upsert returns [true] at a path without inherited names,
    the tree differs from the one it was given only along the path: the path
    now leads to a node without [children] that carries the given content;
    every proper prefix of the path leads to a directory, with the [name] and
    [content] it had if it existed and named after its segment if it was
    created; and every path that is not a prefix of the written one leads to
    exactly the node (with its whole subtree) it led to before, or to none if
    it led to none. *)
Theorem findAndUpdateFile_success_frame
  (realm realm' : Realm) (nodes nodes' : Files) (path text : string) :
  ordinary realm (Js.split "/" path) →
  findAndUpdateFile realm nodes path text = (Returns true, nodes', realm') →
  (∃ n, resolve nodes' (Js.split "/" path) = Some n
        ∧ content n = Some text ∧ children n = None)
  ∧ (∀ before after,
        Js.split "/" path = before ++ after → before ≠ [] → after ≠ [] →
        ∃ d, resolve nodes' before = Some d ∧ isDirectory d ∧
             match resolve nodes before with
             | Some old => name d = name old ∧ content d = content old
             | None => name d = List.last before EmptyString ∧ content d = None
             end)
  ∧ (∀ q, q ≠ [] → ¬ q `prefix_of` Js.split "/" path →
          resolve nodes' q = resolve nodes q).
Proof.
  unfold findAndUpdateFile. intros Hord H. split; [|split].
  - eapply updateLevel_true_target; [apply split_not_nil | exact Hord | exact H].
  - intros before after Heq Hb Ha. rewrite Heq in H, Hord.
    eapply updateLevel_true_spine; eassumption.
  - intros q Hq Hpre. eapply updateLevel_frame; eassumption.
Qed.

Lemma findAndUpdateFile_success_frame_witness :
  findAndUpdateFile ∅ {[ "index.html" := fileNode "index.html" "old" ]} "src/App.tsx" "new"
  = (Returns true,
     {[ "index.html" := fileNode "index.html" "old";
        "src" := dirNode "src" {[ "App.tsx" := fileNode "App.tsx" "new" ]} ]}, ∅)
  ∧ resolve {[ "index.html" := fileNode "index.html" "old";
               "src" := dirNode "src" {[ "App.tsx" := fileNode "App.tsx" "new" ]} ]}
            ["index.html"]
    = resolve {[ "index.html" := fileNode "index.html" "old" ]} ["index.html"].
Proof.
  assert (findAndUpdateFile ∅ {[ "index.html" := fileNode "index.html" "old" ]}
            "src/App.tsx" "new"
          = (Returns true,
             {[ "index.html" := fileNode "index.html" "old";
                "src" := dirNode "src" {[ "App.tsx" := fileNode "App.tsx" "new" ]} ]}, ∅))
    as Hrun by (vm_compute; reflexivity).
  split; [exact Hrun|].
  apply (findAndUpdateFile_success_frame ∅ ∅ _ _ "src/App.tsx" "new").
  - repeat constructor.
  - exact Hrun.
  - done.
  - intros [k Hk]. vm_compute in Hk. discriminate Hk.
Defined.

End UpsertFacts.

(** ** Data URLs and the parts sent back to the service *)

Module ServiceFacts.
Import FileTree Chat Finalize Service PartsSpec JsFacts.

(** A one-character needle is first found right behind a text that does
    not contain it. *)
Lemma cut_char_append (c : Ascii.ascii) (a b : string) :
  Js.cut (String c EmptyString) a = None →
  Js.cut (String c EmptyString) (a +:+ String c b) = Some (a, b).
Proof.
  induction a as [|x a IH]; intros Hnone.
  - rewrite append_nil_l, cut_unfold. simpl.
    destruct (Ascii.ascii_dec c c) as [_|Hne]; [|done]. by destruct b.
  - rewrite cut_unfold in Hnone. rewrite append_cons, cut_unfold.
    simpl in *. destruct (Ascii.ascii_dec c x) as [->|Hne].
    + by destruct a.
    + destruct (Js.cut (String c EmptyString) a) as [[b0 a0]|]; [done|].
      by rewrite IH.
Qed.

Lemma indexOf_None_cut (needle s : string) :
  Js.indexOf needle s = None → Js.cut needle s = None.
Proof. unfold Js.indexOf. by destruct (Js.cut needle s) as [[? ?]|]. Qed.

Lemma drop_S_append (a : string) (c : Ascii.ascii) (b : string) :
  Js.drop (String.length a + 1) (a +:+ String c b) = b.
Proof.
  induction a as [|x a IH]; [by destruct b|]. exact IH.
Qed.

(** X4. [dataUrlToBase64] returns what follows the first comma, and the
    whole text when there is no comma. *)
Theorem dataUrlToBase64_after_first_comma (header payload : string) :
  Js.indexOf "," header = None →
  dataUrlToBase64 (header +:+ "," +:+ payload) = payload
  ∧ dataUrlToBase64 header = header.
Proof.
  intros Hnone. unfold dataUrlToBase64. split.
  - change ("," +:+ payload) with (String "," payload). unfold Js.indexOf.
    rewrite (cut_char_append _ header payload (indexOf_None_cut _ _ Hnone)).
    apply drop_S_append.
  - by rewrite Hnone.
Qed.

Lemma dataUrlToBase64_after_first_comma_witness :
  dataUrlToBase64 ("data:image/png;base64" +:+ "," +:+ "iVBORw0KGgo=") = "iVBORw0KGgo="
  ∧ dataUrlToBase64 "data:image/png;base64" = "data:image/png;base64".
Proof.
  apply (dataUrlToBase64_after_first_comma "data:image/png;base64" "iVBORw0KGgo=").
  reflexivity.
Defined.

Lemma cut_char_None_append (c : Ascii.ascii) (a b : string) :
  Js.cut (String c EmptyString) a = None →
  Js.cut (String c EmptyString) b = None →
  Js.cut (String c EmptyString) (a +:+ b) = None.
Proof.
  intros Ha Hb. induction a as [|x a IH]; [by rewrite append_nil_l|].
  rewrite cut_unfold in Ha. rewrite append_cons, cut_unfold.
  simpl in *. destruct (Ascii.ascii_dec c x) as [->|Hne].
  - by destruct a.
  - destruct (Js.cut (String c EmptyString) a) as [[b0 a0]|]; [done|].
    by rewrite IH.
Qed.

(** The attachments of the image and video branch, in closed form. *)
Lemma mediaPart_attachments (now : string) (parts : list Part) :
  ∀ acc, (fold_left (mediaPart now) parts acc).2
         = acc.2 ++ map (generatedAttachment now) (inlineOf parts).
Proof.
  induction parts as [|part parts IH]; intros [text atts]; simpl.
  - by rewrite app_nil_r.
  - rewrite IH. unfold inlineOf. simpl.
    destruct (truthyField (part_text part)); simpl; [done|].
    destruct (part_inlineData part) as [d|]; simpl; [|done].
    by rewrite <- app_assoc.
Qed.

Lemma mediaBranch_attachments (now : string) (c : Closure) (lastMsg : ChatMessage) :
  msg_attachments (mediaBranch now c lastMsg)
  = Some (map (generatedAttachment now) (inlineOf (finalParts c))).
Proof.
  unfold mediaBranch. destruct (finalParts c) as [|part parts] eqn:Hparts.
  - reflexivity.
  - pose proof (mediaPart_attachments now (part :: parts) (EmptyString, [])) as H.
    destruct (fold_left (mediaPart now) (part :: parts) (EmptyString, []))
      as [finalContent finalAttachments].
    simpl in H. by rewrite H.
Qed.

Lemma generatedAttachment_decodes (now : string) (d : InlineData) :
  Js.indexOf "," (inl_mimeType d) = None →
  mkInline (att_mimeType (generatedAttachment now d))
           (dataUrlToBase64 (att_dataUrl (generatedAttachment now d))) = d.
Proof.
  intros Hnone. destruct d as [mime data]. simpl in *. f_equal.
  change (";base64," +:+ data) with (";base64" +:+ "," +:+ data).
  rewrite <- (append_assoc mime), <- (append_assoc "data:").
  unfold dataUrlToBase64, Js.indexOf.
  change ("," +:+ data) with (String "," data).
  rewrite cut_char_append; [apply drop_S_append|].
  apply cut_char_None_append; [done|].
  apply cut_char_None_append; [by apply indexOf_None_cut|done].
Qed.

(** X5. What the image and video branch stores on the message is sent back
    unchanged. *)
Theorem generated_media_round_trip (now : string) (c : Closure) (lastMsg : ChatMessage) :
  Forall (λ d, Js.indexOf "," (inl_mimeType d) = None) (inlineOf (finalParts c)) →
  (λ content, inlineData (parts content)) <$> buildContents [mediaBranch now c lastMsg]
  = [inlineOf (finalParts c)].
Proof.
  intros Hmime. unfold buildContents. simpl. f_equal.
  rewrite mediaBranch_attachments.
  unfold inlineData. rewrite omap_app.
  assert (omap part_inlineData
            (if Js.truthy (Js.trim (msg_content (mediaBranch now c lastMsg)))
             then [mkPart (Some (msg_content (mediaBranch now c lastMsg))) None] else [])
          = []) as -> by (by destruct (Js.truthy _)).
  simpl. induction Hmime as [|d ds Hd _ IH]; [reflexivity|].
  csimpl. rewrite IH. f_equal. exact (generatedAttachment_decodes now d Hd).
Qed.

Lemma generated_media_round_trip_witness :
  (λ content, inlineData (parts content))
    <$> buildContents
          [mediaBranch "7"
             (mkClosure true false false false EmptyString
                [mkPart (Some "A red kite.") None;
                 mkPart None (Some (mkInline "image/png" "iVBORw0KGgo="))] [])
             (mkMessage "msg-model-7" MODEL EmptyString None None None None None None)]
  = [[mkInline "image/png" "iVBORw0KGgo="]].
Proof.
  apply (generated_media_round_trip "7"
           (mkClosure true false false false EmptyString
              [mkPart (Some "A red kite.") None;
               mkPart None (Some (mkInline "image/png" "iVBORw0KGgo="))] [])
           (mkMessage "msg-model-7" MODEL EmptyString None None None None None None)).
  repeat constructor.
Defined.

End ServiceFacts.

(** ** The session handlers *)



Module SessionsFacts.
Import Chat Sessions SessionsSpec TextSpec TextFacts.

Lemma named_map (g : ChatSession → ChatSession) (history : list ChatSession) (id : string) :
  (∀ chat, chat_id (g chat) = chat_id chat) →
  (∃ chat, chat ∈ history ∧ chat_id chat = id) →
  ∃ chat, chat ∈ map g history ∧ chat_id chat = id.
Proof.
  intros Hg (chat & Hin & Hid). exists (g chat). split.
  - apply list_elem_of_fmap. by exists chat.
  - by rewrite Hg.
Qed.

Lemma named_mapActive (active : option string) (f : ChatSession → ChatSession)
  (history : list ChatSession) (id : string) :
  (∀ chat, chat_id (f chat) = chat_id chat) →
  (∃ chat, chat ∈ history ∧ chat_id chat = id) →
  ∃ chat, chat ∈ mapActive active f history ∧ chat_id chat = id.
Proof.
  intros Hf. apply named_map. intros chat. by destruct (isActive active chat).
Qed.

Lemma chat_id_deleteAttachment (i k : nat) (chat : ChatSession) :
  chat_id (deleteAttachment i k chat) = chat_id chat.
Proof.
  unfold deleteAttachment.
  destruct (chat_messages chat !! i) as [m|]; [|done].
  by destruct (msg_attachments m).
Qed.

Lemma elem_of_List_filter {A : Type} (p : A → bool) (l : list A) (x : A) :
  x ∈ List.filter p l ↔ x ∈ l ∧ p x = true.
Proof. rewrite !list_elem_of_In. apply filter_In. Qed.

Lemma existsb_isActive (id : string) (history : list ChatSession) :
  existsb (isActive (Some id)) history = true →
  ∃ chat, chat ∈ history ∧ chat_id chat = id.
Proof.
  intros (chat & Hin & Hact)%existsb_exists. exists chat. split.
  - by apply list_elem_of_In.
  - unfold isActive in Hact. apply bool_decide_eq_true in Hact. congruence.
Qed.

Lemma repairActiveChat_valid (v : View) : activeValid (repairActiveChat v).
Proof.
  unfold repairActiveChat, activeValid.
  destruct (activeChatId v) as [id|] eqn:Hact; [|by rewrite Hact].
  destruct (chatHistory v) as [|first rest] eqn:Hhist; [done|].
  destruct (existsb (isActive (Some id)) (first :: rest)) eqn:Hex; simpl.
  - rewrite Hact, Hhist. by apply existsb_isActive.
  - exists first. split; [|done]. apply elem_of_cons. by left.
Qed.

(** X6. Every session handler and effect keeps the active id valid. *)
Theorem session_handlers_keep_active_valid (a : Action) (v : View) :
  activeValid v → offered a v → activeValid (handle a v).
Proof.
  intros Hvalid Hoffered. destruct a; simpl in *.
  - (* handleNewChat *)
    unfold handleNewChat. destruct (activeChatId v) eqn:Hact; [done|].
    unfold activeValid. by rewrite Hact.
  - (* handleSelectChat *) exact Hoffered.
  - (* handleDeleteChat *) exact Hvalid.
  - (* confirmDeleteChat *)
    unfold confirmDeleteChat.
    destruct (chatToDelete v) as [idToDelete|]; [|done].
    destruct (Js.truthy idToDelete); simpl; [|done].
    unfold activeValid in *. simpl.
    destruct (activeChatId v) as [id|]; [|by rewrite bool_decide_eq_false_2].
    destruct (decide (id = idToDelete)) as [->|Hne].
    + by rewrite bool_decide_eq_true_2.
    + rewrite bool_decide_eq_false_2 by congruence.
      destruct Hvalid as (chat & Hin & Hid). exists chat. split; [|done].
      apply elem_of_List_filter. split; [done|].
      rewrite Hid. apply negb_true_iff, String.eqb_neq, Hne.
  - (* handleRenameChat *)
    unfold activeValid in *. simpl. destruct (activeChatId v) as [active|]; [|done].
    apply named_map; [|done]. intros chat. by destruct (String.eqb _ _).
  - (* handleDeleteAttachment *)
    unfold activeValid in *. simpl. destruct (activeChatId v) as [active|]; [|done].
    apply named_mapActive; [|done]. apply chat_id_deleteAttachment.
  - (* handleStreamComplete *)
    unfold handleStreamComplete. destruct (pendingProjectUpdate v); [|done].
    unfold activeValid in *. simpl. destruct (activeChatId v) as [active|]; [|done].
    by apply named_mapActive.
  - (* handleOpenProjectVersion *)
    unfold activeValid in *. simpl. destruct (activeChatId v) as [active|]; [|done].
    by apply named_mapActive.
  - (* handleProjectChange *)
    unfold activeValid in *. simpl. destruct (activeChatId v) as [active|]; [|done].
    by apply named_mapActive.
  - (* confirmClearHistory *) done.
  - (* the repair effect *) apply repairActiveChat_valid.
  - (* the effect on the code interpreter flag *) exact Hvalid.
Qed.

Lemma session_handlers_keep_active_valid_witness :
  activeValid
    (handle ConfirmDeleteChat
       (mkView [mkSession "1" "First" [] None; mkSession "2" "Second" [] None]
          (Some "2") (Some "2") None Toggles.allOff false)).
Proof.
  apply session_handlers_keep_active_valid.
  - exists (mkSession "2" "Second" [] None). split; [|reflexivity].
    apply elem_of_cons. right. apply elem_of_cons. by left.
  - exact I.
Defined.

Lemma sublist_List_filter {A : Type} (p : A → bool) (l : list A) :
  List.filter p l `sublist_of` l.
Proof.
  induction l as [|x l IH]; simpl; [constructor|].
  destruct (p x); by constructor.
Qed.

(** X7. Confirming a deletion removes the sessions with the chosen id and
    no other, keeps the order of the rest, and leaves no active id that
    points at what was deleted. *)
Theorem confirmDeleteChat_removes_exactly (v : View) (idToDelete : string) :
  chatToDelete v = Some idToDelete → Js.truthy idToDelete = true →
  (∀ chat, chat ∈ chatHistory (confirmDeleteChat v)
           ↔ chat ∈ chatHistory v ∧ chat_id chat ≠ idToDelete)
  ∧ chatHistory (confirmDeleteChat v) `sublist_of` chatHistory v
  ∧ activeChatId (confirmDeleteChat v)
    = (if decide (activeChatId v = Some idToDelete) then None else activeChatId v)
  ∧ chatToDelete (confirmDeleteChat v) = None.
Proof.
  intros Hdel Htruthy. unfold confirmDeleteChat. rewrite Hdel, Htruthy. simpl.
  split; [|split; [|split]].
  - intros chat. rewrite elem_of_List_filter, negb_true_iff, String.eqb_neq. done.
  - apply sublist_List_filter.
  - by destruct (decide (activeChatId v = Some idToDelete)) as [H|H];
      [rewrite bool_decide_eq_true_2|rewrite bool_decide_eq_false_2].
  - reflexivity.
Qed.

Lemma confirmDeleteChat_removes_exactly_witness :
  chatHistory
    (confirmDeleteChat
       (mkView [mkSession "1" "First" [] None; mkSession "2" "Second" [] None]
          (Some "2") (Some "2") None Toggles.allOff false))
  `sublist_of` [mkSession "1" "First" [] None; mkSession "2" "Second" [] None].
Proof.
  apply (confirmDeleteChat_removes_exactly
           (mkView [mkSession "1" "First" [] None; mkSession "2" "Second" [] None]
              (Some "2") (Some "2") None Toggles.allOff false) "2");
    reflexivity.
Defined.

(** X8. A renamed session never carries an empty title: it carries
    [Untitled Chat] when the new title is made of white space only, and
    otherwise the new title without the white space at its two ends. *)
Theorem handleRenameChat_title (id newTitle : string) (v : View) (chat : ChatSession) :
  chat ∈ chatHistory (handleRenameChat id newTitle v) → chat_id chat = id →
  chat_title chat ≠ EmptyString
  ∧ ((blank newTitle ∧ chat_title chat = "Untitled Chat")
     ∨ (¬ blank newTitle ∧ chat_title chat = Js.trim newTitle
        ∧ trimmed newTitle (chat_title chat))).
Proof.
  simpl. intros (old & -> & Hin)%list_elem_of_fmap Hid.
  destruct (String.eqb (chat_id old) id) eqn:Heq.
  - simpl. unfold titleFor.
    destruct (Js.truthy (Js.trim newTitle)) eqn:Htruthy.
    + split.
      * intros Hempty. by rewrite Hempty in Htruthy.
      * right. split; [|split; [done|apply trim_spec]].
        intros Hblank%truthy_trim. congruence.
    + split; [done|]. left. split; [|done]. by apply truthy_trim.
  - apply String.eqb_neq in Heq. done.
Qed.

(** A title between a no-break space and an ideographic space. *)
Lemma handleRenameChat_title_witness :
  chat_title (mkSession "1" "Plans" [] None) ≠ EmptyString
  ∧ ((blank (nbsp +:+ " Plans" +:+ ideographicSpace)
      ∧ chat_title (mkSession "1" "Plans" [] None) = "Untitled Chat")
     ∨ (¬ blank (nbsp +:+ " Plans" +:+ ideographicSpace)
        ∧ chat_title (mkSession "1" "Plans" [] None)
          = Js.trim (nbsp +:+ " Plans" +:+ ideographicSpace)
        ∧ trimmed (nbsp +:+ " Plans" +:+ ideographicSpace)
            (chat_title (mkSession "1" "Plans" [] None)))).
Proof.
  apply (handleRenameChat_title "1" (nbsp +:+ " Plans" +:+ ideographicSpace)
           (mkView [mkSession "1" "Old title" [] None] None None None Toggles.allOff false)).
  - apply elem_of_cons. left. vm_compute. reflexivity.
  - reflexivity.
Defined.

Lemma filterFrom_past {A : Type} (arr : list A) :
  ∀ idx k, k < idx → filterFrom (λ i, negb (i =? k)) idx arr = arr.
Proof.
  induction arr as [|a arr IH]; intros idx k Hlt; [done|].
  simpl. replace (idx =? k) with false by (symmetry; apply Nat.eqb_neq; lia).
  simpl. f_equal. apply IH. lia.
Qed.

Lemma filterFrom_delete {A : Type} (arr : list A) :
  ∀ k idx, filterFrom (λ i, negb (i =? idx + k)) idx arr = delete k arr.
Proof.
  induction arr as [|a arr IH]; intros k idx; [by destruct k|].
  simpl. destruct k as [|k].
  - rewrite Nat.add_0_r, Nat.eqb_refl. simpl. apply filterFrom_past. lia.
  - replace (idx =? idx + S k) with false by (symmetry; apply Nat.eqb_neq; lia).
    simpl. f_equal. rewrite <- (IH k (S idx)).
    by replace (S idx + k) with (idx + S k) by lia.
Qed.

Lemma filterIndex_delete {A : Type} (k : nat) (arr : list A) :
  filterIndex (λ idx, negb (idx =? k)) arr = delete k arr.
Proof. apply (filterFrom_delete arr k 0). Qed.

(** X9. Deleting an attachment removes the one at the given position of
    the given message and nothing else. *)
Theorem deleteAttachment_removes_one
  (messageIndex attachmentIndex : nat) (chat : ChatSession)
  (targetMessage : ChatMessage) (attachments : list Attachment) :
  chat_messages chat !! messageIndex = Some targetMessage →
  msg_attachments targetMessage = Some attachments →
  deleteAttachment messageIndex attachmentIndex chat
  = withMessages chat
      (<[messageIndex := withAttachments targetMessage (delete attachmentIndex attachments)]>
         (chat_messages chat)).
Proof.
  intros Hmsg Hatt. unfold deleteAttachment. rewrite Hmsg, Hatt.
  by rewrite filterIndex_delete.
Qed.

Lemma deleteAttachment_removes_one_witness :
  deleteAttachment 0 1
    (mkSession "1" "Pictures"
       [mkMessage "m" USER "two pictures"
          (Some [mkAttachment "a.png" "image/png" "data:a";
                 mkAttachment "b.png" "image/png" "data:b"])
          None None None None None] None)
  = mkSession "1" "Pictures"
      [mkMessage "m" USER "two pictures"
         (Some [mkAttachment "a.png" "image/png" "data:a"])
         None None None None None] None.
Proof.
  exact (deleteAttachment_removes_one 0 1
           (mkSession "1" "Pictures"
              [mkMessage "m" USER "two pictures"
                 (Some [mkAttachment "a.png" "image/png" "data:a";
                        mkAttachment "b.png" "image/png" "data:b"])
                 None None None None None] None)
           _ _ eq_refl eq_refl).
Defined.

End SessionsFacts.

(** ** The project branch: what is streamed and what is stored *)

Module ProjectFacts.
Import FileTree Citations Chat Finalize PartsSpec FileTreeFacts FinalizeFacts.

Lemma findContent_other (entries : list FileEntry) (path text target : string) :
  path ≠ target →
  findContent (Entry path text :: entries) target = findContent entries target.
Proof. intros Hne. simpl. by apply String.eqb_neq in Hne as ->. Qed.

(** The invariant of the loop over the file list when no path has a
    segment that names something inherited: the loop does not raise on
    well-formed entries and leaves the realm alone; and either nothing has
    been written since [lastUpdatedFile] was set, or [lastUpdatedFile] is the
    path of an entry and leads to a file that holds what [find] returns for
    it. *)
Lemma applyFiles_last (realm : Realm) (entries : list FileEntry) :
  ∀ files last0 files' last realm',
    NoDup (entryPaths entries) →
    Forall (λ path, ordinary realm (Js.split "/" path)) (entryPaths entries) →
    applyFiles realm entries files last0 = (Some (files', last), realm') →
    (files' = files ∧ last = last0)
    ∨ (last ∈ entryPaths entries
       ∧ ∃ n, resolve files' (Js.split "/" last) = Some n
              ∧ content n = Some (findContent entries last) ∧ children n = None).
Proof.
  induction entries as [|[|path text] entries IH];
    intros files last0 files' last realm' Hnodup Hord Hrun.
  - injection Hrun as <- <- _. by left.
  - discriminate Hrun.
  - simpl in Hrun. change (entryPaths (Entry path text :: entries))
      with (path :: entryPaths entries) in *.
    apply NoDup_cons in Hnodup as [Hfresh Hnodup].
    apply Forall_cons in Hord as [Hpath Hord].
    unfold findAndUpdateFile in Hrun.
    destruct (updateLevel_ordinary _ realm files text Hpath) as (ok & files1 & Hupsert).
    rewrite Hupsert in Hrun.
    destruct (IH _ _ _ _ _ Hnodup Hord Hrun)
      as [[-> ->]|(Hin & n & Hres & Hcontent & Hkind)].
    + destruct ok.
      * right. split; [apply elem_of_cons; by left|].
        destruct (updateLevel_true_target _ _ _ _ _ text (split_not_nil "/" path)
                    Hpath Hupsert) as (n & Hres & Hcontent & Hkind).
        exists n. split; [done|]. split; [|done].
        simpl. by rewrite String.eqb_refl.
      * left. split; [|done]. by eapply updateLevel_false_unchanged.
    + right. split; [apply elem_of_cons; by right|].
      exists n. split; [done|]. split; [|done].
      rewrite findContent_other; [done|]. intros ->. done.
Qed.

Section Environment.
Variable JSON_parse : string → option Parsed.
Variable Date_now : string.
Variable Object_prototype : Realm.

Lemma projectTry_Completed (c : Closure) (project : Project) (updatedMsg m : ChatMessage)
  (effects : list UiEffect) :
  projectTry JSON_parse Object_prototype c project updatedMsg = Completed m effects →
  (m = withContent updatedMsg (formatPrefix +:+ fullResponseText c) ∧ effects = [])
  ∨ ∃ entries explanation projectName files' lastUpdatedFile,
      JSON_parse (cleanedJsonString (fullResponseText c))
      = Some (PValue (FilesArray entries) explanation projectName)
      ∧ (applyFiles Object_prototype entries (proj_files project) "index.html").1
        = Some (files', lastUpdatedFile)
      ∧ m = withProject (withContent updatedMsg (default EmptyString explanation))
              (mkProject (proj_id project) (default EmptyString projectName)
                 (proj_description project) files')
      ∧ effects
        = [ SetActiveInterpreterFile lastUpdatedFile;
            SetPendingProjectUpdate
              (mkProject (proj_id project) (default EmptyString projectName)
                 (proj_description project) files');
            SetStreamingTarget lastUpdatedFile (findContent entries lastUpdatedFile);
            SetIsCodePanelVisible true ]
          ++ openRightPanel (isMobile c) PanelNone
          ++ (if isMobile c then [] else [SetIsNavSidebarOpen false]).
Proof.
  unfold projectTry.
  destruct (JSON_parse _) as [[|files explanation projectName]|]; try done.
  destruct (truthyFiles files && truthyField explanation && truthyField projectName).
  - destruct files as [| |entries]; try done.
    destruct (applyFiles Object_prototype entries (proj_files project) "index.html").1
      as [[files' lastUpdatedFile]|] eqn:Happly; [|done].
    intros [= <- <-]. right. by eexists _, _, _, _, _.
  - intros [= <- <-]. by left.
Qed.

Lemma elem_of_openRightPanel (mobile : bool) (panel : Panel) (e : UiEffect) :
  e ∈ openRightPanel mobile panel →
  (∃ b, e = SetIsRightSidebarOpen b) ∨ (∃ b, e = SetIsFilesSidebarOpen b)
  ∨ e = SetIsNavSidebarOpen false.
Proof.
  unfold openRightPanel. rewrite elem_of_app, !elem_of_cons, elem_of_nil.
  intros [[->|[->|[]]]|Hin]; [left; eauto|right; left; eauto|].
  destruct (_ && mobile); [|by apply elem_of_nil in Hin].
  apply list_elem_of_singleton in Hin as ->. by right; right.
Qed.

(** X10. When no path of the response has a segment that names something
    a plain object inherits and each path is listed once, the code that is
    streamed into the panel is the code the project holds: the streaming
    target names a file of the project stored on the message, and that file
    holds the streamed code. The one other case is that no write succeeded:
    then the files are those of the project before and the target is
    [index.html]. *)
Theorem streamed_code_is_stored_code
  (c : Closure) (project : Project) (updatedMsg m : ChatMessage) (effects : list UiEffect)
  (entries : list FileEntry) (explanation projectName : option string)
  (filePath code : string) :
  JSON_parse (cleanedJsonString (fullResponseText c))
  = Some (PValue (FilesArray entries) explanation projectName) →
  NoDup (entryPaths entries) →
  Forall (λ path, ordinary Object_prototype (Js.split "/" path)) (entryPaths entries) →
  projectTry JSON_parse Object_prototype c project updatedMsg = Completed m effects →
  SetStreamingTarget filePath code ∈ effects →
  ∃ stored,
    msg_project m = Some stored
    ∧ ((proj_files stored = proj_files project ∧ filePath = "index.html")
       ∨ ∃ n, resolve (proj_files stored) (Js.split "/" filePath) = Some n
              ∧ content n = Some code ∧ children n = None).
Proof.
  intros Hparse Hnodup Hord Htry Hin.
  apply projectTry_Completed in Htry
    as [[-> ->]|(entries' & explanation' & projectName' & files' & lastUpdatedFile
                 & Hparse' & Happly & -> & ->)].
  { by apply elem_of_nil in Hin. }
  rewrite Hparse in Hparse'. injection Hparse' as <- <- <-.
  assert (filePath = lastUpdatedFile ∧ code = findContent entries lastUpdatedFile)
    as [-> ->].
  { rewrite !elem_of_app, !elem_of_cons, elem_of_nil in Hin.
    destruct Hin as [[H|[H|[H|[H|[]]]]]|[H|H]]; try discriminate H.
    - by injection H.
    - apply elem_of_openRightPanel in H as [[b H]|[[b H]|H]]; discriminate H.
    - destruct (isMobile c); [by apply elem_of_nil in H|].
      apply list_elem_of_singleton in H. discriminate H. }
  eexists. split; [reflexivity|]. simpl.
  destruct (applyFiles Object_prototype entries (proj_files project) "index.html")
    as [result realm'] eqn:Hrun.
  simpl in Happly. subst result.
  destruct (applyFiles_last _ _ _ _ _ _ _ Hnodup Hord Hrun) as [[-> ->]|(_ & n & Hn)].
  - by left.
  - right. by exists n.
Qed.

End Environment.

Lemma streamed_code_is_stored_code_witness :
  ∃ stored,
    msg_project
      (withProject (withContent Examples.placeholder "Added a button.")
         (mkProject "proj_1" "Button Demo" "A new coding project."
            {[ "index.html" := fileNode "index.html" "<button>Click</button>" ]}))
    = Some stored
    ∧ ((proj_files stored = proj_files Examples.demoProject ∧ "index.html" = "index.html")
       ∨ ∃ n, resolve (proj_files stored) (Js.split "/" "index.html") = Some n
              ∧ content n = Some "<button>Click</button>" ∧ children n = None).
Proof.
  apply (streamed_code_is_stored_code JSON_parse_examples ∅
           (Examples.projectClosure buttonDemoJson) Examples.demoProject
           Examples.placeholder _
           ([ SetActiveInterpreterFile "index.html";
              SetPendingProjectUpdate
                (mkProject "proj_1" "Button Demo" "A new coding project."
                   {[ "index.html" := fileNode "index.html" "<button>Click</button>" ]});
              SetStreamingTarget "index.html" "<button>Click</button>";
              SetIsCodePanelVisible true ]
            ++ openRightPanel false PanelNone ++ [SetIsNavSidebarOpen false])
           [Entry "index.html" "<button>Click</button>"]
           (Some "Added a button.") (Some "Button Demo")).
  - vm_compute. reflexivity.
  - repeat constructor. by apply not_elem_of_nil.
  - repeat constructor.
  - vm_compute. reflexivity.
  - apply elem_of_app. left. do 2 (apply elem_of_cons; right). apply elem_of_cons. by left.
Defined.

End ProjectFacts.

(** ** Finalization and the completion of the stream *)

Module FinalizeFrameFacts.
Import FileTree Citations Chat Finalize Sessions PartsSpec FinalizeFacts ProjectFacts.

Lemma attachGrounding_id_role (c : Closure) (m : ChatMessage) :
  msg_id (attachGrounding c m) = msg_id m ∧ msg_role (attachGrounding c m) = msg_role m.
Proof. unfold attachGrounding. by destruct (groundingChunks c). Qed.

Section Environment.
Variable JSON_parse : string → option Parsed.
Variable Date_now : string.
Variable Object_prototype : Realm.

Lemma mediaBranch_id_role (c : Closure) (m : ChatMessage) :
  msg_id (mediaBranch Date_now c m) = msg_id m
  ∧ msg_role (mediaBranch Date_now c m) = msg_role m.
Proof.
  unfold mediaBranch.
  by destruct (match finalParts c with [] => _ | _ => _ end).
Qed.

Lemma projectBranch_id_role (c : Closure) (p : Project) (m : ChatMessage) :
  msg_id (projectBranch JSON_parse Object_prototype c p m).1 = msg_id m
  ∧ msg_role (projectBranch JSON_parse Object_prototype c p m).1 = msg_role m.
Proof.
  unfold projectBranch.
  destruct (projectTry JSON_parse Object_prototype c p m) as [|m' effects] eqn:Htry; [done|].
  apply projectTry_Completed in Htry as [[-> _]|(?&?&?&?&?&_&_&->&_)]; done.
Qed.

Lemma chatBranch_id_role (c : Closure) (m : ChatMessage) :
  msg_id (chatBranch c m) = msg_id m ∧ msg_role (chatBranch c m) = msg_role m.
Proof. unfold chatBranch. by destruct (matchThinking _) as [[[??]?]|]. Qed.

(** X11. Finalization rewrites the trailing MODEL message and nothing else. *)
Theorem finalUpdater_touches_trailing_message (c : Closure) (prev : ChatSession) :
  chat_id (finalUpdater JSON_parse Date_now Object_prototype c prev).1 = chat_id prev
  ∧ chat_title (finalUpdater JSON_parse Date_now Object_prototype c prev).1 = chat_title prev
  ∧ chat_project (finalUpdater JSON_parse Date_now Object_prototype c prev).1 = chat_project prev
  ∧ List.removelast (chat_messages (finalUpdater JSON_parse Date_now Object_prototype c prev).1)
    = List.removelast (chat_messages prev)
  ∧ msg_id <$> last (chat_messages (finalUpdater JSON_parse Date_now Object_prototype c prev).1)
    = msg_id <$> last (chat_messages prev)
  ∧ msg_role <$> last (chat_messages (finalUpdater JSON_parse Date_now Object_prototype c prev).1)
    = msg_role <$> last (chat_messages prev)
  ∧ (∀ m, last (chat_messages (finalUpdater JSON_parse Date_now Object_prototype c prev).1) = Some m →
          msg_role m = MODEL → msg_isThinking m = Some false).
Proof.
  destruct (last (chat_messages prev)) as [lastMsg|] eqn:Hlast.
  2:{ unfold finalUpdater. rewrite Hlast. simpl. rewrite Hlast.
      repeat split; try done. }
  destruct (msg_role lastMsg) eqn:Hrole.
  { unfold finalUpdater. rewrite Hlast, Hrole. simpl. rewrite Hlast.
    repeat split; try done. intros m [= <-]. congruence. }
  destruct (finalUpdater_model JSON_parse Date_now Object_prototype c prev lastMsg Hlast Hrole)
    as (updatedMsg & effects & -> & _ & Hbranch).
  assert (msg_id updatedMsg = msg_id lastMsg ∧ msg_role updatedMsg = msg_role lastMsg)
    as [Hid Hrole'].
  { destruct (isImageRequest c || isVideoRequest c).
    - injection Hbranch as -> _. apply mediaBranch_id_role.
    - destruct (isInterpreterRequest c), (chat_project prev) as [project|];
        try (injection Hbranch as -> _; apply chatBranch_id_role).
      pose proof (projectBranch_id_role c project lastMsg) as H.
      destruct (projectBranch JSON_parse Object_prototype c project lastMsg) as [m' effects'].
      by injection Hbranch as -> _. }
  simpl fst. rewrite last_replaceLast.
  destruct (attachGrounding_id_role c updatedMsg) as [Hid2 Hrole2].
  repeat split.
  - unfold replaceLast. simpl. apply removelast_last.
  - simpl. congruence.
  - simpl. congruence.
  - by intros m [= <-] _.
Qed.

(** X12. When finalization announces a pending project, that project is the
    one stored on the message, and [handleStreamComplete] makes it the
    project of the session. *)
Theorem stream_completion_commits_message_project
  (c : Closure) (prev updated : ChatSession) (effects : list UiEffect)
  (pending : Project) (v : View) :
  finalUpdater JSON_parse Date_now Object_prototype c prev = (updated, effects) →
  SetPendingProjectUpdate pending ∈ effects →
  pendingProjectUpdate v = Some pending →
  activeChatId v = Some (chat_id prev) →
  updated ∈ chatHistory v →
  ∃ m committed,
    last (chat_messages updated) = Some m ∧ msg_project m = Some pending
    ∧ committed ∈ chatHistory (handleStreamComplete v)
    ∧ chat_id committed = chat_id prev
    ∧ chat_messages committed = chat_messages updated
    ∧ chat_project committed = Some pending
    ∧ pendingProjectUpdate (handleStreamComplete v) = None.
Proof.
  intros Hfinal Hin Hpending Hactive Hhist.
  destruct (last (chat_messages prev)) as [lastMsg|] eqn:Hlast.
  2:{ unfold finalUpdater in Hfinal. rewrite Hlast in Hfinal.
      injection Hfinal as _ <-. by apply elem_of_nil in Hin. }
  destruct (msg_role lastMsg) eqn:Hrole.
  { unfold finalUpdater in Hfinal. rewrite Hlast, Hrole in Hfinal.
    injection Hfinal as _ <-. by apply elem_of_nil in Hin. }
  destruct (finalUpdater_model JSON_parse Date_now Object_prototype c prev lastMsg Hlast Hrole)
    as (updatedMsg & effects' & Hshape & _ & Hbranch).
  rewrite Hshape in Hfinal. injection Hfinal as <- <-.
  assert (msg_project updatedMsg = Some pending) as Hproject.
  { destruct (isImageRequest c || isVideoRequest c).
    { injection Hbranch as _ ->. by apply elem_of_nil in Hin. }
    destruct (isInterpreterRequest c), (chat_project prev) as [project|];
      try (injection Hbranch as _ ->; by apply elem_of_nil in Hin).
    unfold projectBranch in Hbranch.
    destruct (projectTry JSON_parse Object_prototype c project lastMsg) as [|m' effects''] eqn:Htry.
    { injection Hbranch as _ ->. by apply elem_of_nil in Hin. }
    injection Hbranch as -> ->.
    apply projectTry_Completed in Htry
      as [[_ ->]|(entries & explanation & projectName & files' & lastUpdatedFile
                  & _ & _ & -> & ->)].
    { by apply elem_of_nil in Hin. }
    rewrite !elem_of_app, !elem_of_cons, elem_of_nil in Hin.
    destruct Hin as [[H|[H|[H|[H|[]]]]]|[H|H]]; try discriminate H.
    - by injection H as ->.
    - apply elem_of_openRightPanel in H as [[b H]|[[b H]|H]]; discriminate H.
    - destruct (isMobile c); [by apply elem_of_nil in H|].
      apply list_elem_of_singleton in H. discriminate H. }
  exists (withIsThinking (attachGrounding c updatedMsg) false),
    (withSessionProject
       (replaceLast prev (withIsThinking (attachGrounding c updatedMsg) false)) pending).
  split; [apply last_replaceLast|]. split.
  { simpl. by destruct (attachGrounding_fields c updatedMsg) as (_ & _ & ->). }
  unfold handleStreamComplete. rewrite Hpending, Hactive. simpl.
  split; [|done].
  unfold mapActive. apply list_elem_of_fmap. eexists. split; [|exact Hhist].
  unfold isActive. simpl. by rewrite bool_decide_eq_true_2.
Qed.

End Environment.

Lemma stream_completion_commits_message_project_witness :
  ∃ m committed,
    last (chat_messages
            (finalUpdater JSON_parse_examples "0" ∅
               (Examples.projectClosure buttonDemoJson) Examples.projectSession).1)
    = Some m
    ∧ msg_project m
      = Some (mkProject "proj_1" "Button Demo" "A new coding project."
                {[ "index.html" := fileNode "index.html" "<button>Click</button>" ]})
    ∧ committed
      ∈ chatHistory
          (handleStreamComplete
             (mkView
                [(finalUpdater JSON_parse_examples "0" ∅
                    (Examples.projectClosure buttonDemoJson) Examples.projectSession).1]
                (Some "1") None
                (Some (mkProject "proj_1" "Button Demo" "A new coding project."
                         {[ "index.html" :=
                              fileNode "index.html" "<button>Click</button>" ]}))
                Toggles.allOff false))
    ∧ chat_id committed = "1"
    ∧ chat_messages committed
      = chat_messages
          (finalUpdater JSON_parse_examples "0" ∅
             (Examples.projectClosure buttonDemoJson) Examples.projectSession).1
    ∧ chat_project committed
      = Some (mkProject "proj_1" "Button Demo" "A new coding project."
                {[ "index.html" := fileNode "index.html" "<button>Click</button>" ]})
    ∧ pendingProjectUpdate
        (handleStreamComplete
           (mkView
              [(finalUpdater JSON_parse_examples "0" ∅
                  (Examples.projectClosure buttonDemoJson) Examples.projectSession).1]
              (Some "1") None
              (Some (mkProject "proj_1" "Button Demo" "A new coding project."
                       {[ "index.html" :=
                            fileNode "index.html" "<button>Click</button>" ]}))
              Toggles.allOff false))
      = None.
Proof.
  apply (stream_completion_commits_message_project JSON_parse_examples "0" ∅
           (Examples.projectClosure buttonDemoJson) Examples.projectSession _
           (finalUpdater JSON_parse_examples "0" ∅
              (Examples.projectClosure buttonDemoJson) Examples.projectSession).2).
  - apply surjective_pairing.
  - vm_compute. apply elem_of_cons. right. apply elem_of_cons. by left.
  - reflexivity.
  - reflexivity.
  - apply elem_of_cons. by left.
Defined.

End FinalizeFrameFacts.

(** ** Model selection *)

Module SelectionFacts.
Import Models Toggles Selection SelectionSpec.

Lemma settled_spec (t : ToolToggles) (selectedModel : string) :
  settled t selectedModel = true ↔
  ∀ effect, effect ∈ effects → effect t selectedModel = None.
Proof.
  unfold settled. rewrite forallb_forall. split.
  - intros H effect Hin. apply list_elem_of_In in Hin. specialize (H effect Hin).
    by destruct (effect t selectedModel).
  - intros H effect Hin. apply list_elem_of_In in Hin. by rewrite (H effect Hin).
Qed.

(** The five states of the tools in which at most one of them is on. *)
Lemma atMostOne_cases (t : ToolToggles) :
  atMostOne t →
  t = allOff ∨ t = mkToggles true false false false ∨ t = mkToggles false true false false
  ∨ t = mkToggles false false true false ∨ t = mkToggles false false false true.
Proof.
  destruct t as [[] [] [] []]; unfold atMostOne, countOn; simpl; intros H;
    try lia; auto 10.
Qed.

Lemma tuned_id_is_no_model (s : string) (m : Model) :
  Js.startsWith "tunedModels/" s = true → s ≠ modelValue m.
Proof. intros Hs ->. by destruct m. Qed.

Lemma includes_tuned (listed : list string) (s : string) :
  Forall (λ x, ∃ m, x = modelValue m) listed →
  Js.startsWith "tunedModels/" s = true → includes listed s = false.
Proof.
  intros Hlisted Hs. apply bool_decide_eq_false. intros Hin.
  rewrite Forall_forall in Hlisted. destruct (Hlisted s Hin) as [m ->].
  by eapply tuned_id_is_no_model.
Qed.

Lemma settled_allOff_tuned (s : string) :
  Js.startsWith "tunedModels/" s = true → settled allOff s = true.
Proof.
  intros Hs. unfold settled, effects, forallb.
  change (deepResearchEffect allOff s) with (@None string).
  change (codeInterpreterEffect allOff s) with (@None string).
  change (multimediaEffect allOff s)
    with (if includes (keys imageGenerationModelNameMap ++ keys imageEditingModelNameMap
                       ++ keys videoGenerationModelNameMap) s
          then Some (modelValue GEMINI_2_5_FLASH) else None).
  rewrite includes_tuned; [done| |done].
  repeat (constructor; [by eexists|]). constructor.
Qed.

Lemma settled_listed (t : ToolToggles) (listed : list string) (s : string) :
  forallb (settled t) listed = true → s ∈ listed → settled t s = true.
Proof.
  intros Hall Hin. rewrite forallb_forall in Hall. apply Hall.
  by apply list_elem_of_In.
Qed.

Lemma includes_elem_of (listed : list string) (s : string) :
  includes listed s = true → s ∈ listed.
Proof. apply bool_decide_eq_true. Qed.

Lemma options_allOff (tunedModels : list TunedModel) :
  combinedModelOptions allOff tunedModels
  = match map (λ m, mkOption (id m) ("[Custom] " +:+ displayName m))
            (List.filter (λ m, bool_decide (status m = COMPLETED)) tunedModels) with
    | [] => modelOptions
    | custom => modelOptions ++ custom
    end.
Proof.
  unfold combinedModelOptions. cbv beta iota zeta delta [allOff isVideoToolActive
    isImageToolActive isDeepResearchToggled isCodeInterpreterToggled].
  by destruct (map _ _).
Qed.

Lemma options_deepResearch (tunedModels : list TunedModel) :
  combinedModelOptions (mkToggles false true false false) tunedModels
  = List.filter (λ opt, includes deepResearchCompatibleModels (value opt))
      (combinedModelOptions allOff tunedModels).
Proof. rewrite options_allOff. by destruct (map _ _) eqn:E; unfold combinedModelOptions;
  cbv beta iota zeta delta [isVideoToolActive isImageToolActive isDeepResearchToggled
    isCodeInterpreterToggled]; rewrite E. Qed.

Lemma options_codeInterpreter (tunedModels : list TunedModel) :
  combinedModelOptions (mkToggles true false false false) tunedModels
  = List.filter (λ opt, includes codeInterpreterCompatibleModels (value opt)) modelOptions.
Proof. reflexivity. Qed.

(** The options offered while no tool is on. *)
Lemma baseOptions_settled (tunedModels : list TunedModel) (opt : ModelOption) :
  Forall (λ m, Js.startsWith "tunedModels/" (id m) = true) tunedModels →
  opt ∈ combinedModelOptions allOff tunedModels →
  settled allOff (value opt) = true.
Proof.
  intros Hids Hin. rewrite options_allOff in Hin.
  assert (opt ∈ modelOptions
          ∨ opt ∈ map (λ m, mkOption (id m) ("[Custom] " +:+ displayName m))
                      (List.filter (λ m, bool_decide (status m = COMPLETED)) tunedModels))
    as [Hbase|Hcustom].
  { destruct (map _ (List.filter _ tunedModels)); [by left|].
    by apply elem_of_app in Hin. }
  - apply (settled_listed allOff (value <$> modelOptions)); [by vm_compute|].
    apply list_elem_of_fmap. by exists opt.
  - apply list_elem_of_fmap in Hcustom as (m & -> & Hm). simpl.
    apply SessionsFacts.elem_of_List_filter in Hm as [Hm _].
    rewrite Forall_forall in Hids. apply settled_allOff_tuned, Hids, Hm.
Qed.

(** X13. The selector offers only models that the effects leave alone. *)
Theorem offered_models_are_settled
  (t : ToolToggles) (tunedModels : list TunedModel) (opt : ModelOption)
  (effect : ToolToggles → string → option string) :
  atMostOne t →
  Forall (λ m, Js.startsWith "tunedModels/" (id m) = true) tunedModels →
  opt ∈ combinedModelOptions t tunedModels →
  effect ∈ effects →
  effect t (value opt) = None.
Proof.
  intros Hone Hids Hin Heffect. revert effect Heffect. apply settled_spec.
  destruct (atMostOne_cases t Hone) as [->|[->|[->|[->| ->]]]].
  - by apply (baseOptions_settled tunedModels).
  - (* code interpreter *)
    rewrite options_codeInterpreter in Hin.
    apply SessionsFacts.elem_of_List_filter in Hin as [_ Hin].
    apply (settled_listed _ codeInterpreterCompatibleModels); [by vm_compute|].
    by apply includes_elem_of.
  - (* deep research *)
    rewrite options_deepResearch in Hin.
    apply SessionsFacts.elem_of_List_filter in Hin as [_ Hin].
    apply (settled_listed _ deepResearchCompatibleModels); [by vm_compute|].
    by apply includes_elem_of.
  - (* image tool *)
    apply (settled_listed _
             (value <$> optionsOf imageGenerationModelNameMap
                        ++ optionsOf imageEditingModelNameMap));
      [by vm_compute|].
    apply list_elem_of_fmap. by exists opt.
  - (* video tool *)
    apply (settled_listed _ (value <$> optionsOf videoGenerationModelNameMap));
      [by vm_compute|].
    apply list_elem_of_fmap. by exists opt.
Qed.

Lemma offered_models_are_settled_witness :
  multimediaEffect (mkToggles false true false false) "gemini-2.5-pro" = None.
Proof.
  apply (offered_models_are_settled (mkToggles false true false false)
           [mkTuned "tunedModels/custom-tone-1" "Tone" GEMINI_2_5_FLASH COMPLETED]
           (mkOption "gemini-2.5-pro" "Gemini 2.5 Pro")).
  - unfold atMostOne. vm_compute. lia.
  - repeat constructor.
  - vm_compute. apply elem_of_cons. by left.
  - do 2 (apply elem_of_cons; right). apply elem_of_cons. by left.
Defined.

Lemma modelOptions_offered (tunedModels : list TunedModel) (opt : ModelOption) :
  opt ∈ modelOptions → opt ∈ combinedModelOptions allOff tunedModels.
Proof.
  intros Hin. rewrite options_allOff.
  destruct (map _ (List.filter _ tunedModels)); [done|].
  apply elem_of_app. by left.
Qed.

(** X14. What an effect writes is offered by the selector, and no effect
    writes again on it. *)
Theorem effect_writes_an_offered_model
  (t : ToolToggles) (tunedModels : list TunedModel) (selectedModel written : string)
  (effect : ToolToggles → string → option string) :
  atMostOne t →
  effect ∈ effects →
  effect t selectedModel = Some written →
  written ∈ value <$> combinedModelOptions t tunedModels
  ∧ ∀ effect', effect' ∈ effects → effect' t written = None.
Proof.
  intros Hone Heffect Hwrite.
  assert (written = modelValue GEMINI_2_5_FLASH
            ∧ (t = allOff ∨ t = mkToggles true false false false
               ∨ t = mkToggles false true false false)
          ∨ written = modelValue IMAGEN_4_0_GENERATE_001
            ∧ t = mkToggles false false true false
          ∨ written = modelValue VEO_2_0_GENERATE_001
            ∧ t = mkToggles false false false true) as Hcases.
  { unfold effects in Heffect. rewrite !elem_of_cons, elem_of_nil in Heffect.
    destruct (atMostOne_cases t Hone) as [->|[->|[->|[->| ->]]]];
      destruct Heffect as [->|[->|[->|[]]]];
      unfold deepResearchEffect, codeInterpreterEffect, multimediaEffect in Hwrite;
      simpl in Hwrite;
      repeat match type of Hwrite with
             | (if ?b then _ else _) = _ => destruct b
             end;
      try discriminate Hwrite; injection Hwrite as <-; auto 10. }
  destruct Hcases as [[-> Ht]|[[-> ->]|[-> ->]]].
  - split.
    + apply list_elem_of_fmap. exists (mkOption "gemini-2.5-flash" "Gemini 2.5 Flash").
      split; [done|].
      destruct Ht as [->|[->| ->]].
      * apply modelOptions_offered. vm_compute. apply elem_of_cons. right.
        apply elem_of_cons. by left.
      * vm_compute. apply elem_of_cons. right. apply elem_of_cons. by left.
      * rewrite options_deepResearch. apply SessionsFacts.elem_of_List_filter. split; [|done].
        apply modelOptions_offered. vm_compute. apply elem_of_cons. right.
        apply elem_of_cons. by left.
    + apply settled_spec. by destruct Ht as [->|[->| ->]].
  - split; [|by apply settled_spec].
    vm_compute. apply elem_of_cons. right. apply elem_of_cons. by left.
  - split; [|by apply settled_spec].
    vm_compute. apply elem_of_cons. by left.
Qed.

Lemma effect_writes_an_offered_model_witness :
  "imagen-4.0-generate-001"
  ∈ value <$> combinedModelOptions (mkToggles false false true false) []
  ∧ ∀ effect', effect' ∈ effects →
      effect' (mkToggles false false true false) "imagen-4.0-generate-001" = None.
Proof.
  apply (effect_writes_an_offered_model (mkToggles false false true false) []
           "gemini-2.5-flash" "imagen-4.0-generate-001" multimediaEffect).
  - unfold atMostOne. vm_compute. lia.
  - do 2 (apply elem_of_cons; right). apply elem_of_cons. by left.
  - reflexivity.
Defined.

Lemma optionsOf_value (nameMap : list (Model * string)) (opt : ModelOption) :
  opt ∈ optionsOf nameMap → ∃ m, value opt = modelValue m.
Proof.
  intros Hin. apply list_elem_of_fmap in Hin as ([m name] & -> & _). by exists m.
Qed.

(** Where an offered option comes from: a name map or a tuned model. *)
Lemma offered_origin (t : ToolToggles) (tunedModels : list TunedModel) (opt : ModelOption) :
  opt ∈ combinedModelOptions t tunedModels →
  (∃ m, value opt = modelValue m) ∨ (∃ tm, tm ∈ tunedModels ∧ value opt = id tm).
Proof.
  unfold combinedModelOptions.
  set (custom := map _ (List.filter _ tunedModels)).
  assert (∀ o, o ∈ custom → ∃ tm, tm ∈ tunedModels ∧ value o = id tm) as Hcustom.
  { intros o Ho. apply list_elem_of_fmap in Ho as (tm & -> & Htm).
    apply SessionsFacts.elem_of_List_filter in Htm as [Htm _]. by exists tm. }
  assert (∀ o, o ∈ match custom with _ :: _ => modelOptions ++ custom | [] => modelOptions end →
               (∃ m, value o = modelValue m) ∨ (∃ tm, tm ∈ tunedModels ∧ value o = id tm))
    as Hbase.
  { intros o Ho.
    assert (o ∈ modelOptions ∨ o ∈ custom) as [H|H].
    { destruct custom; [by left|]. by apply elem_of_app in Ho. }
    - left. by eapply optionsOf_value.
    - right. by apply Hcustom. }
  destruct (isVideoToolActive t); [intros H; left; by eapply optionsOf_value|].
  destruct (isImageToolActive t).
  { intros [H|H]%elem_of_app; left; by eapply optionsOf_value. }
  destruct (isDeepResearchToggled t).
  { intros [H _]%SessionsFacts.elem_of_List_filter. by apply Hbase. }
  destruct (isCodeInterpreterToggled t); [|by apply Hbase].
  intros [H _]%SessionsFacts.elem_of_List_filter. left. by eapply optionsOf_value.
Qed.

Lemma activeBaseModel_modelValue (tunedModels : list TunedModel) (m : Model) :
  activeBaseModel tunedModels (modelValue m) = Some m.
Proof. by destruct m. Qed.

(** X15. Every option the selector offers resolves to a base model: a
    member of the enumeration to itself, the id of a tuned model to the
    base model of a tuned model with that id. *)
Theorem offered_option_has_base_model
  (t : ToolToggles) (tunedModels : list TunedModel) (opt : ModelOption) :
  Forall (λ m, Js.startsWith "tunedModels/" (id m) = true) tunedModels →
  opt ∈ combinedModelOptions t tunedModels →
  ∃ base, activeBaseModel tunedModels (value opt) = Some base
          ∧ (value opt = modelValue base
             ∨ ∃ tm, tm ∈ tunedModels ∧ id tm = value opt ∧ baseModel tm = base).
Proof.
  intros Hids Hin. destruct (offered_origin _ _ _ Hin) as [[m Hm]|(tm & Htm & Hid)].
  - exists m. rewrite Hm. split; [apply activeBaseModel_modelValue|by left].
  - rewrite Forall_forall in Hids. unfold activeBaseModel.
    rewrite Hid, (Hids tm Htm).
    destruct (List.find (λ m, String.eqb (id m) (id tm)) tunedModels) as [found|] eqn:Hfind.
    + apply find_some in Hfind as [Hfound Heq]. apply String.eqb_eq in Heq.
      exists (baseModel found). split; [done|]. right. exists found.
      split; [by apply list_elem_of_In|done].
    + apply list_elem_of_In in Htm.
      pose proof (find_none _ _ Hfind tm Htm) as Hno. simpl in Hno.
      by rewrite String.eqb_refl in Hno.
Qed.

Lemma offered_option_has_base_model_witness :
  ∃ base,
    activeBaseModel [mkTuned "tunedModels/custom-tone-1" "Tone" GEMINI_2_5_FLASH COMPLETED]
      "tunedModels/custom-tone-1" = Some base
    ∧ ("tunedModels/custom-tone-1" = modelValue base
       ∨ ∃ tm, tm ∈ [mkTuned "tunedModels/custom-tone-1" "Tone" GEMINI_2_5_FLASH COMPLETED]
               ∧ id tm = "tunedModels/custom-tone-1" ∧ baseModel tm = base).
Proof.
  apply (offered_option_has_base_model allOff
           [mkTuned "tunedModels/custom-tone-1" "Tone" GEMINI_2_5_FLASH COMPLETED]
           (mkOption "tunedModels/custom-tone-1" "[Custom] Tone")).
  - repeat constructor.
  - vm_compute. do 11 (apply elem_of_cons; right). apply elem_of_cons. by left.
Defined.

End SelectionFacts.

(** ** The composer *)

Module ChatAreaFacts.
Import Chat ChatArea TextFacts.

(** X16. What [handleSubmit] hands to [onSendMessage] is never turned away
    by the emptiness test of the send guard: the prompt is already trimmed,
    and it is blank only if files are attached. *)
Theorem handleSubmit_passes_empty_guard
  (c : Composer) (prompt : string) (attachments : list Attachment) :
  (handleSubmit c).1 = Some (prompt, attachments) →
  negb (Js.truthy (Js.trim prompt)) && Send.isEmpty attachments = false
  ∧ Js.trim prompt = prompt
  ∧ (handleSubmit c).2 = mkComposer EmptyString [].
Proof.
  unfold handleSubmit.
  destruct (Js.truthy (Js.trim (input c)) || negb (Send.isEmpty (attachedFiles c)))
    eqn:Hsend; [|done].
  simpl. intros [= <- <-]. split; [|split; [|done]].
  - rewrite trim_trim.
    by destruct (Js.truthy (Js.trim (input c))), (Send.isEmpty (attachedFiles c)).
  - apply trim_trim.
Qed.

Lemma handleSubmit_passes_empty_guard_witness :
  negb (Js.truthy (Js.trim "hi")) && Send.isEmpty (@nil Attachment) = false
  ∧ Js.trim "hi" = "hi"
  ∧ (handleSubmit (mkComposer "  hi " [])).2 = mkComposer EmptyString [].
Proof.
  apply (handleSubmit_passes_empty_guard (mkComposer "  hi " []) "hi" []).
  reflexivity.
Defined.

End ChatAreaFacts.

(** ** A whole send, in both revisions *)

Module StreamFacts.
Import Chat FileTree Finalize Models Runtime Adapter Send SendSpec StreamSpec FinalizeFacts.


(** *** Sessions under [mapChat] *)

Lemma findChat_mapChat (id : string) (f : ChatSession → ChatSession)
  (history : list ChatSession) :
  (∀ chat, chat_id (f chat) = chat_id chat) →
  findChat id (mapChat id f history) = f <$> findChat id history.
Proof.
  intros Hf. unfold findChat, mapChat.
  induction history as [|chat history IH]; [reflexivity|].
  simpl. destruct (String.eqb (chat_id chat) id) eqn:Heq.
  - by rewrite Hf, Heq.
  - by rewrite Heq.
Qed.

Lemma findChat_mapChatWith (id : string)
  (f : Realm → ChatSession → ChatSession * list UiEffect)
  (g : Realm → ChatSession → Realm) (realm : Realm) (history : list ChatSession) :
  (∀ realm chat, chat_id (f realm chat).1 = chat_id chat) →
  findChat id (mapChatWith id f g realm history).1.1
  = (λ chat, (f realm chat).1) <$> findChat id history.
Proof.
  intros Hf. unfold findChat. revert realm.
  induction history as [|chat history IH]; intros realm; [reflexivity|].
  simpl. destruct (String.eqb (chat_id chat) id) eqn:Heq.
  - destruct (f realm chat) as [chat' effects] eqn:Hchat.
    destruct (mapChatWith id f g (g realm chat) history) as [[rest effects'] realm2].
    simpl. pose proof (Hf realm chat) as Hid. rewrite Hchat in Hid. simpl in Hid.
    by rewrite Hid, Heq, Hchat.
  - specialize (IH realm).
    destruct (mapChatWith id f g realm history) as [[rest effects'] realm2].
    simpl in *. by rewrite Heq.
Qed.

Lemma awaiting_mapChat (id : string) (f : ChatSession → ChatSession) (st st' : State) :
  tailKeeping f → chatHistory st' = mapChat id f (chatHistory st) →
  awaiting id st → awaiting id st'.
Proof.
  intros [Hid Htail] Hhist (chat & m & Hfind & Hlast & Hrole).
  destruct (Htail chat m Hlast Hrole) as (m' & Hlast' & Hrole').
  exists (f chat), m'. split; [|done].
  by rewrite Hhist, findChat_mapChat, Hfind.
Qed.

Lemma tailKeeping_echoUpdater (text : string) : tailKeeping (echoUpdater text).
Proof.
  split.
  - intros chat. unfold echoUpdater.
    destruct (last (chat_messages chat)) as [m|]; [|done]. by destruct (msg_role m).
  - intros chat m Hlast Hrole. unfold echoUpdater. rewrite Hlast, Hrole.
    eexists. split; [apply last_replaceLast|done].
Qed.

Lemma tailKeeping_errorUpdater : tailKeeping errorUpdater.
Proof.
  split.
  - intros chat. unfold errorUpdater.
    destruct (last (chat_messages chat)) as [m|]; [|done]. by destruct (msg_role m).
  - intros chat m Hlast Hrole. unfold errorUpdater. rewrite Hlast, Hrole.
    eexists. split; [apply last_replaceLast|done].
Qed.

(** *** A stream that nobody stops *)

Lemma await_unstopped (script : Script) (k : nat) (st : State) :
  unstopped script →
  await script k st = (negb (bool_decide (rejectsAt script = Some k)), st).
Proof. intros Hs. unfold await. by rewrite Hs. Qed.

Lemma onChunk_steady (rq : Request) (chunk : Response) (l : Locals) (st : State) :
  steady (currentChatId rq) st →
  ∃ st', onChunk rq chunk l st = (absorb l chunk, st') ∧ steady (currentChatId rq) st'.
Proof.
  intros [Hsig Hwait]. unfold onChunk, emit, setChatHistory, mbind, M_bind, mret, M_ret.
  destruct (echoes rq); eexists; (split; [reflexivity|]); split; try done.
  eapply (awaiting_mapChat _ _ st); [apply tailKeeping_echoUpdater| |exact Hwait].
  reflexivity.
Qed.

Lemma readStream_unfold {Acc : Type} (script : Script) (onC : Response → Acc → M Acc)
  (pending : list Response) (k : nat) (acc : Acc) (st : State) :
  readStream script onC pending k acc st
  = if signalAborted st then (Some AbortError, acc, st)
    else
      let '(resolved, st1) := await script k st in
      if negb resolved then (Some OtherError, acc, st1)
      else match pending with
           | [] => (None, acc, st1)
           | value :: rest =>
               let '(acc', st2) := onC value acc st1 in
               readStream script onC rest (S k) acc' st2
           end.
Proof.
  destruct pending; simpl; unfold mbind, M_bind, get, mret, M_ret;
    destruct (signalAborted st); try reflexivity;
    destruct (await script k st) as [[] st1]; reflexivity.
Qed.

(** What the loop has delivered when it ends. *)
Lemma readStream_received (script : Script) (rq : Request) (pending : list Response) :
  unstopped script →
  ∀ k l st,
    steady (currentChatId rq) st →
    ∃ st',
      readStream script (onChunk rq) pending k l st
      = (match rejectsAt script with
         | Some j =>
             if (k <=? j) && (j <=? k + length pending)
             then (Some OtherError, foldl absorb l (take (j - k) pending))
             else (None, foldl absorb l pending)
         | None => (None, foldl absorb l pending)
         end, st')
      ∧ steady (currentChatId rq) st'.
Proof.
  intros Hcalm. induction pending as [|value rest IH]; intros k l st Hsteady;
    rewrite readStream_unfold, (proj1 Hsteady), (await_unstopped _ _ _ Hcalm).
  - destruct (rejectsAt script) as [j|] eqn:Hj.
    + destruct (decide (j = k)) as [->|Hne].
      * rewrite bool_decide_eq_true_2 by done. simpl.
        rewrite Nat.add_0_r, Nat.leb_refl, take_nil. simpl. eauto.
      * rewrite bool_decide_eq_false_2 by congruence. simpl.
        replace ((k <=? j) && (j <=? k + 0)) with false; [eauto|].
        symmetry. apply andb_false_iff.
        destruct (Nat.leb_spec k j); [right; apply Nat.leb_gt; lia|by left].
    + rewrite bool_decide_eq_false_2 by done. simpl. eauto.
  - destruct (rejectsAt script) as [j|] eqn:Hj.
    + destruct (decide (j = k)) as [->|Hne].
      * rewrite bool_decide_eq_true_2 by done. simpl.
        rewrite Nat.leb_refl, Nat.sub_diag. simpl.
        replace (k <=? k + S (length rest)) with true
          by (symmetry; apply Nat.leb_le; lia).
        eauto.
      * rewrite bool_decide_eq_false_2 by congruence. simpl.
        destruct (onChunk_steady rq value l st Hsteady) as (st1 & -> & Hsteady1).
        destruct (IH (S k) (absorb l value) st1 Hsteady1) as (st2 & -> & Hsteady2).
        exists st2. split; [|done]. f_equal.
        replace (k + S (length rest)) with (S k + length rest) by lia.
        destruct (Nat.leb_spec (S k) j) as [Hle|Hgt].
        -- replace (k <=? j) with true by (symmetry; apply Nat.leb_le; lia).
           simpl. destruct (j <=? S (k + length rest)); [|done].
           replace (j - k) with (S (j - S k)) by lia. done.
        -- replace (k <=? j) with false by (symmetry; apply Nat.leb_gt; lia).
           done.
    + rewrite bool_decide_eq_false_2 by done. simpl.
      destruct (onChunk_steady rq value l st Hsteady) as (st1 & -> & Hsteady1).
      destruct (IH (S k) (absorb l value) st1 Hsteady1) as (st2 & -> & Hsteady2).
      eauto.
Qed.

Lemma steady_emit (id : string) (e : Event) (st : State) :
  steady id st → steady id (emit e st).2.
Proof. intros [Hsig (chat & m & H)]. split; [done|]. by exists chat, m. Qed.

Lemma chatResponseTry_streaming {Acc : Type} (script : Script)
  (onC : Response → Acc → M Acc) (model : Model) (acc : Acc) (st : State) :
  isImageEditModel (Some model) = false →
  chatResponseTry script onC model acc st
  = let '(resolved, st1) := await script 0 st in
    if negb resolved then (Some OtherError, acc, st1)
    else readStream script onC (chunks script) 1 acc st1.
Proof.
  intros Hmodel. unfold chatResponseTry. rewrite Hmodel.
  unfold mbind, M_bind. by destruct (await script 0 st) as [[] st1].
Qed.

Lemma generateChatResponse_unfold {Acc : Type} (script : Script)
  (onC : Response → Acc → M Acc) (model : Model) (acc : Acc) (st : State) :
  generateChatResponse script onC model acc st
  = let '(thrown, acc', st1) := chatResponseTry script onC model acc st in
    match thrown with
    | Some AbortError =>
        (Some AbortError, acc', (console "Stream generation aborted." st1).2)
    | Some OtherError =>
        (Some OtherError, acc', (console "Error streaming chat response:" st1).2)
    | None => (None, acc', st1)
    end.
Proof.
  unfold generateChatResponse, mbind, M_bind.
  destruct (chatResponseTry script onC model acc st) as [[[[]|] acc'] st1];
    try reflexivity; unfold console; by destruct (emit _ st1) as [[] ?].
Qed.

Lemma generateChatResponse_received (script : Script) (rq : Request) (model : Model)
  (st : State) :
  unstopped script → isImageEditModel (Some model) = false →
  steady (currentChatId rq) st →
  ∃ st',
    generateChatResponse script (onChunk rq) model initialLocals st
    = ((if rejected script then Some OtherError else None,
        foldl absorb initialLocals (receivedBefore script)), st')
    ∧ steady (currentChatId rq) st'.
Proof.
  intros Hcalm Hmodel Hsteady.
  rewrite generateChatResponse_unfold, (chatResponseTry_streaming _ _ _ _ _ Hmodel).
  rewrite (await_unstopped _ _ _ Hcalm).
  unfold rejected, receivedBefore.
  destruct (rejectsAt script) as [j|] eqn:Hj.
  - destruct (decide (j = 0)) as [->|Hne].
    + rewrite bool_decide_eq_true_2 by done. simpl.
      eexists. split; [reflexivity|]. by apply steady_emit.
    + rewrite bool_decide_eq_false_2 by congruence. simpl negb. cbv iota.
      destruct (readStream_received script rq (chunks script) Hcalm 1 initialLocals st
                  Hsteady) as (st1 & -> & Hsteady1).
      rewrite Hj.
      replace (1 <=? j) with true by (symmetry; apply Nat.leb_le; lia).
      change (1 + length (chunks script)) with (S (length (chunks script))).
      simpl andb.
      destruct (Nat.leb_spec j (S (length (chunks script)))) as [Hle|Hgt].
      * eexists. split; [reflexivity|]. by apply steady_emit.
      * rewrite take_ge by lia. eexists. split; [reflexivity|done].
  - rewrite bool_decide_eq_false_2 by done. simpl negb. cbv iota.
    destruct (readStream_received script rq (chunks script) Hcalm 1 initialLocals st
                Hsteady) as (st1 & -> & Hsteady1).
    rewrite Hj. eexists. split; [reflexivity|done].
Qed.

Lemma modelForApi_streams (cfg : Settings) :
  isImageEditModel (activeBaseModel cfg) = false →
  isImageEditModel (Some (modelForApi cfg)) = false.
Proof. unfold modelForApi. by destruct (activeBaseModel cfg). Qed.

(** The [try] block of a plain chat request. *)
Lemma tryBlock_received
  (cfg : Settings) (script : Script) (rq : Request) (videoModel : Model)
  (prompt : string) (attachments : list Attachment) (messagesForApi : list ChatMessage)
  (st : State) :
  unstopped script → isImageEditModel (activeBaseModel cfg) = false →
  isImageRequest rq = false → isVideoRequest rq = false →
  steady (currentChatId rq) st →
  ∃ st',
    tryBlock cfg script rq videoModel prompt attachments messagesForApi st
    = ((if rejected script then Some OtherError else None,
        foldl absorb initialLocals (receivedBefore script)), st')
    ∧ steady (currentChatId rq) st'.
Proof.
  intros Hcalm Hmodel Himg Hvid Hsteady. unfold tryBlock. rewrite Himg, Hvid. simpl.
  unfold mbind at 1. unfold M_bind at 1.
  destruct (emit (EvAdapterCall _) st) as [[] st0] eqn:Hemit.
  apply (generateChatResponse_received script rq (modelForApi cfg) st0 Hcalm).
  - by apply modelForApi_streams.
  - pose proof (steady_emit (currentChatId rq)
                  (EvAdapterCall (CallGenerateChatResponse messagesForApi (modelForApi cfg)))
                  st Hsteady) as H.
    by rewrite Hemit in H.
Qed.

Lemma catchBlock_steady (rq : Request) (fails : bool) (st : State) :
  steady (currentChatId rq) st →
  steady (currentChatId rq)
    (catchBlock rq (if fails then Some OtherError else None) st).2
  ∧ (fails = true →
     EvSetChatHistory WriteError
     ∈ trace (catchBlock rq (if fails then Some OtherError else None) st).2).
Proof.
  intros Hsteady. destruct fails; simpl; [|done].
  unfold console, emit, setChatHistory, mbind, M_bind. simpl. split.
  - destruct Hsteady as [Hsig Hwait]. split; [done|].
    eapply (awaiting_mapChat _ errorUpdater st);
      [apply tailKeeping_errorUpdater|reflexivity|exact Hwait].
  - intros _. apply elem_of_app. right. apply list_elem_of_singleton. done.
Qed.

(** *** The text that is finalized *)

Lemma fullResponseText_absorb (chunks : list Response) :
  ∀ l, fullResponseText (foldl absorb l chunks) = fullResponseText l +:+ streamedText chunks.
Proof.
  induction chunks as [|chunk chunks IH]; intros l; simpl.
  - clear. induction (fullResponseText l) as [|c s IH]; [done|].
    rewrite JsFacts.append_cons. by rewrite <- IH.
  - rewrite IH. simpl. by rewrite JsFacts.append_assoc.
Qed.

Lemma fullResponse_absorb (chunks : list Response) :
  ∀ l, fullResponse (foldl absorb l chunks)
       = match last chunks with Some chunk => Some chunk | None => fullResponse l end.
Proof.
  induction chunks as [|chunk chunks IH]; intros l; [reflexivity|].
  simpl foldl. rewrite IH. simpl fullResponse.
  destruct chunks as [|next chunks]; [reflexivity|].
  change (last (chunk :: next :: chunks)) with (last (next :: chunks)).
  destruct (last (next :: chunks)) eqn:Hlast; [done|].
  by apply last_None in Hlast.
Qed.

Lemma settled_text (revision : Revision) (received : list Response) :
  fullResponseText
    (settleLocals (match revision with FirstRevision => true | SecondRevision => false end)
       (foldl absorb initialLocals received))
  = finalText revision received.
Proof.
  unfold settleLocals. rewrite fullResponse_absorb.
  destruct revision; simpl finalText; unfold lastChunkOrStream.
  - destruct (last received) as [chunk|]; simpl.
    + destruct (truthyField (resp_text chunk)); [done|]. apply fullResponseText_absorb.
    + apply fullResponseText_absorb.
  - destruct (last received) as [chunk|]; simpl; apply fullResponseText_absorb.
Qed.

(** *** The loading flag *)

Lemma clears_bind {A : Type} (m : M A) (f : A → M Completion) :
  (∀ a, clears (f a)) → clears (m ≫= f).
Proof.
  intros Hf st completion st' Hrun. unfold mbind, M_bind in Hrun.
  destruct (m st) as [a st1]. by apply (Hf a st1).
Qed.

Lemma clears_rejected : clears (mret Rejected).
Proof. by intros st completion st' [= <- _]. Qed.

Section Handlers.
Variable JSON_parse : string → option Parsed.
Variable Date_now : string.

Lemma finallyBlock_clears
  (cfg : Settings) (rq : Request) (textOfResponse : bool) (l : Locals) (st : State) :
  isLoading (finallyBlock JSON_parse Date_now cfg rq textOfResponse l st).2 = false.
Proof.
  unfold finallyBlock, setIsLoading, setChatHistoryWith, get, mbind, M_bind, mret, M_ret.
  simpl. destruct (signalAborted st); simpl; [done|].
  by destruct (mapChatWith _ _ _ _ _) as [[??]?].
Qed.

Lemma clears_runRequest
  (cfg : Settings) (script : Script) (rq : Request) (videoModel : Model)
  (textOfResponse : bool) (prompt : string) (attachments : list Attachment)
  (messagesForApi : list ChatMessage) :
  clears (runRequest JSON_parse Date_now cfg script rq videoModel textOfResponse
            prompt attachments messagesForApi).
Proof.
  unfold runRequest. apply clears_bind. intros [thrown l].
  apply clears_bind. intros _.
  intros st completion st' Hrun _. unfold mbind, M_bind, mret, M_ret in Hrun.
  pose proof (finallyBlock_clears cfg rq textOfResponse l st) as Hclear.
  destruct (finallyBlock JSON_parse Date_now cfg rq textOfResponse l st) as [[] st1].
  by injection Hrun as _ <-.
Qed.

(** X17. A send that returns leaves the loading flag cleared, whatever the
    adapter did. *)
Theorem returned_send_clears_loading
  (revision : Revision) (cfg : Settings) (script : Script) (prompt : string)
  (attachments : list Attachment) (st st' : State) :
  isLoading st = false →
  handleSendMessage revision JSON_parse Date_now cfg script prompt attachments st
  = (Returned, st') →
  isLoading st' = false.
Proof.
  intros Hload Hrun. destruct revision; simpl in Hrun.
  - unfold handleSendMessageA in Hrun.
    unfold mbind at 1 in Hrun. unfold M_bind at 1 in Hrun. unfold get at 1 in Hrun.
    cbv beta iota in Hrun.
    destruct ((negb (Js.truthy (Js.trim prompt)) && isEmpty attachments) || isLoading st).
    { by injection Hrun as <-. }
    destruct (Toggles.isImageToolActive (toggles cfg)
              && isTextToImageModel (activeBaseModel cfg) && negb (isEmpty attachments)).
    { by injection Hrun as <-. }
    revert Hrun.
    match goal with
    | |- ?body st = _ → _ =>
        assert (clears body) as Hclears; [|intros Hrun; by apply (Hclears st Returned st')]
    end.
    do 4 (apply clears_bind; intros ?).
    match goal with |- clears (match ?x with _ => _ end) => destruct x end.
    + apply clears_runRequest.
    + apply clears_rejected.
  - unfold handleSendMessageB in Hrun.
    unfold mbind at 1 in Hrun. unfold M_bind at 1 in Hrun. unfold get at 1 in Hrun.
    cbv beta iota in Hrun.
    destruct ((negb (Js.truthy (Js.trim prompt)) && isEmpty attachments) || isLoading st).
    { by injection Hrun as <-. }
    destruct (activeChatId st) as [id|]; [|by injection Hrun as <-].
    destruct (negb (Js.truthy id)); [by injection Hrun as <-|].
    destruct (Toggles.isImageToolActive (toggles cfg)
              && isTextToImageModel (activeBaseModel cfg) && negb (isEmpty attachments)).
    { by injection Hrun as <-. }
    destruct (Toggles.isImageToolActive (toggles cfg)
              && isImageEditModel (activeBaseModel cfg) && isEmpty attachments).
    { by injection Hrun as <-. }
    revert Hrun.
    match goal with
    | |- ?body st = _ → _ =>
        assert (clears body) as Hclears; [|intros Hrun; by apply (Hclears st Returned st')]
    end.
    do 2 (apply clears_bind; intros ?).
    destruct (findChat id (chatHistory st)); [|apply clears_rejected].
    do 2 (apply clears_bind; intros ?).
    apply clears_runRequest.
Qed.

Lemma chat_id_finalUpdater (realm : Realm) (c : Closure) (prev : ChatSession) :
  chat_id (finalUpdater JSON_parse Date_now realm c prev).1 = chat_id prev.
Proof.
  unfold finalUpdater. destruct (last (chat_messages prev)) as [m|]; [|done].
  destruct (msg_role m); [done|].
  by destruct (if Finalize.isImageRequest c || Finalize.isVideoRequest c then _ else _).
Qed.

(** The plain chat branch of finalization. *)
Lemma finalUpdater_plain (realm : Realm) (c : Closure) (prev : ChatSession)
  (m : ChatMessage) :
  Finalize.isImageRequest c = false → Finalize.isVideoRequest c = false →
  Finalize.isInterpreterRequest c = false →
  last (chat_messages prev) = Some m → msg_role m = MODEL →
  ∃ m', last (chat_messages (finalUpdater JSON_parse Date_now realm c prev).1) = Some m'
        ∧ msg_content m' = shownText (Finalize.fullResponseText c) ∧ msg_role m' = MODEL.
Proof.
  intros Himg Hvid Hint Hlast Hrole.
  destruct (finalUpdater_model JSON_parse Date_now realm c prev m Hlast Hrole)
    as (updatedMsg & effects & -> & _ & Hbranch).
  rewrite Himg, Hvid, Hint in Hbranch. simpl in Hbranch. injection Hbranch as -> ->.
  eexists. split; [apply last_replaceLast|]. simpl.
  destruct (attachGrounding_fields c (chatBranch c m)) as (-> & _ & _).
  split.
  - unfold chatBranch, shownText. by destruct (matchThinking _) as [[[??]?]|].
  - unfold attachGrounding. destruct (Finalize.groundingChunks c); simpl;
      unfold chatBranch; by destruct (matchThinking _) as [[[??]?]|].
Qed.

Lemma finallyBlock_plain
  (cfg : Settings) (rq : Request) (textOfResponse : bool) (l : Locals) (st : State) :
  isImageRequest rq = false → isVideoRequest rq = false → isInterpreterRequest rq = false →
  steady (currentChatId rq) st →
  ∃ st',
    finallyBlock JSON_parse Date_now cfg rq textOfResponse l st = (tt, st')
    ∧ trailingContent (currentChatId rq) st'
      = Some (shownText (fullResponseText (settleLocals textOfResponse l)))
    ∧ isLoading st' = false
    ∧ ∀ e, e ∈ trace st → e ∈ trace st'.
Proof.
  intros Himg Hvid Hint [Hsig (chat & m & Hfind & Hlast & Hrole)].
  destruct (SendFacts.finallyBlock_not_aborted JSON_parse Date_now cfg rq textOfResponse
              l st Hsig) as (st' & Hrun & Htrace & Hload & Hhist).
  exists st'. split; [exact Hrun|]. split; [|split; [exact Hload|]].
  - unfold trailingContent.
    unfold finalWrite in Hhist.
    rewrite Hhist, findChat_mapChatWith, Hfind
      by (intros ??; apply chat_id_finalUpdater).
    simpl.
    destruct (finalUpdater_plain (objectPrototype st) (closureOf cfg rq (settleLocals textOfResponse l))
                chat m Himg Hvid Hint Hlast Hrole) as (m' & -> & Hcontent & _).
    simpl. by rewrite Hcontent.
  - intros e He. rewrite Htrace. apply elem_of_app. by left.
Qed.

(** A plain chat request that nobody stops: what the trailing message
    holds when the handler returns. *)
Lemma runRequest_plain
  (revision : Revision) (cfg : Settings) (script : Script) (rq : Request)
  (videoModel : Model) (prompt : string) (attachments : list Attachment)
  (messagesForApi : list ChatMessage) (st : State) :
  unstopped script → isImageEditModel (activeBaseModel cfg) = false →
  isImageRequest rq = false → isVideoRequest rq = false → isInterpreterRequest rq = false →
  steady (currentChatId rq) st →
  ∃ st',
    runRequest JSON_parse Date_now cfg script rq videoModel
      (match revision with FirstRevision => true | SecondRevision => false end)
      prompt attachments messagesForApi st = (Returned, st')
    ∧ trailingContent (currentChatId rq) st'
      = Some (shownText (finalText revision (receivedBefore script)))
    ∧ isLoading st' = false
    ∧ (rejected script = true → EvSetChatHistory WriteError ∈ trace st').
Proof.
  intros Hcalm Hmodel Himg Hvid Hint Hsteady.
  destruct (tryBlock_received cfg script rq videoModel prompt attachments messagesForApi
              st Hcalm Hmodel Himg Hvid Hsteady) as (st1 & Htry & Hsteady1).
  destruct (catchBlock_steady rq (rejected script) st1 Hsteady1) as [Hsteady2 Hwrite].
  destruct (finallyBlock_plain cfg rq
              (match revision with FirstRevision => true | SecondRevision => false end)
              (foldl absorb initialLocals (receivedBefore script))
              (catchBlock rq (if rejected script then Some OtherError else None) st1).2
              Himg Hvid Hint Hsteady2) as (st' & Hfin & Hcontent & Hload & Hmono).
  exists st'. split; [|split; [|split; [exact Hload|]]].
  - unfold runRequest. unfold mbind at 1. unfold M_bind at 1. rewrite Htry.
    unfold mbind, M_bind.
    destruct (catchBlock rq _ st1) as [[] st2]. simpl in Hfin. by rewrite Hfin.
  - by rewrite Hcontent, settled_text.
  - intros Hrej. apply Hmono, Hwrite, Hrej.
Qed.

Lemma findChat_head (chat : ChatSession) (history : list ChatSession) :
  findChat (chat_id chat) (chat :: history) = Some chat.
Proof. unfold findChat. simpl. by rewrite String.eqb_refl. Qed.

(** Either revision starts the request in a state in which the session
    ends with the placeholder and the stop button acts on the request. *)
Lemma send_starts_running
  (revision : Revision) (cfg : Settings) (script : Script) (prompt : string)
  (attachments : list Attachment) (st : State) (id : string) :
  sendable revision cfg prompt attachments → ready revision Date_now st id →
  ∃ st1 messagesForApi,
    handleSendMessage revision JSON_parse Date_now cfg script prompt attachments st
    = runRequest JSON_parse Date_now cfg script (requestOf revision cfg id)
        (videoModelOf revision cfg) (textOfResponseOf revision cfg)
        prompt attachments messagesForApi st1
    ∧ running id st1
    ∧ trace st1 = trace st ++ [EvSetIsLoading true]
                  ++ match revision, activeChatId st with
                     | FirstRevision, None =>
                         [EvSetChatHistory WriteNewChat; EvSetActiveChatId id]
                     | _, _ => [EvSetChatHistory WriteAppendTurn]
                     end.
Proof.
  intros (Hprompt & Hci & Hmis1 & Hmis2) (Hload & Hready).
  destruct revision; simpl handleSendMessage; simpl requestOf; simpl videoModelOf;
    simpl textOfResponseOf.
  - destruct Hready as (-> & Hsession).
    unfold handleSendMessageA. unfold mbind at 1. unfold M_bind at 1. unfold get at 1.
    cbv beta iota. rewrite Hload, Hprompt, Hmis1.
    destruct cfg as [[ci dr img vid] model tuned useUrl url thinking mobile].
    simpl in Hci. subst ci. simpl.
    destruct (activeChatId st) as [active|] eqn:Hactive; simpl in *.
    + destruct Hsession as [Hnone|[chat Hchat]]; [done|]. rewrite Hchat.
      match goal with
      | |- context [runRequest ?a ?b ?c ?d ?e ?f ?g ?h ?i ?j] =>
          set (run := runRequest a b c d e f g h i j)
      end.
      unfold mbind, M_bind, setIsLoading, newAbortController, setChatHistory, mret, M_ret.
      simpl. subst run. eexists _, _. split; [reflexivity|].
      split; [|by rewrite <- app_assoc].
      split; [|done]. split; [reflexivity|].
      unfold awaiting. simpl. eexists _, _. rewrite findChat_mapChat, Hchat by done.
      split; [reflexivity|]. simpl. by rewrite last_app.
    + match goal with
      | |- context [runRequest ?a ?b ?c ?d ?e ?f ?g ?h ?i ?j] =>
          set (run := runRequest a b c d e f g h i j)
      end.
      unfold mbind, M_bind, setIsLoading, newAbortController, setChatHistory,
        setActiveChatId, mret, M_ret.
      simpl. subst run. eexists _, _. split; [reflexivity|].
      split; [|by rewrite <- !app_assoc].
      split; [|done]. split; [reflexivity|].
      unfold awaiting. simpl.
      eexists _, _. split; [apply (findChat_head (mkSession Date_now _ _ _))|]. done.
  - destruct Hready as (Hactive & Hid & [chat Hchat]).
    unfold handleSendMessageB. unfold mbind at 1. unfold M_bind at 1. unfold get at 1.
    cbv beta iota. rewrite Hload, Hprompt, Hactive, Hid, Hmis1, Hmis2.
    destruct cfg as [[ci dr img vid] model tuned useUrl url thinking mobile].
    simpl in Hci. subst ci. simpl. rewrite Hchat. simpl.
    match goal with
    | |- context [runRequest ?a ?b ?c ?d ?e ?f ?g ?h ?i ?j] =>
        set (run := runRequest a b c d e f g h i j)
    end.
    unfold mbind, M_bind, setIsLoading, newAbortController, setChatHistory, mret, M_ret.
    simpl. subst run. eexists _, _. split; [reflexivity|].
    split; [|by rewrite <- app_assoc].
    split; [|done]. split; [reflexivity|].
    unfold awaiting. simpl. eexists _, _. rewrite findChat_mapChat, Hchat by done.
    split; [reflexivity|]. simpl. by rewrite last_app.
Qed.

Lemma plainChat_sendable (revision : Revision) (cfg : Settings) (prompt : string)
  (attachments : list Attachment) :
  plainChat cfg → Js.truthy (Js.trim prompt) = true →
  sendable revision cfg prompt attachments.
Proof.
  intros [Htoggles _] Hprompt. unfold sendable. rewrite Htoggles.
  by destruct revision.
Qed.

(** A plain chat send that nobody stops, in either revision. *)
Lemma send_plain_chat
  (revision : Revision) (cfg : Settings) (script : Script) (prompt : string)
  (attachments : list Attachment) (st : State) (id : string) :
  plainChat cfg → unstopped script → ready revision Date_now st id →
  Js.truthy (Js.trim prompt) = true →
  ∃ st',
    handleSendMessage revision JSON_parse Date_now cfg script prompt attachments st
    = (Returned, st')
    ∧ trailingContent id st'
      = Some (shownText (finalText revision (receivedBefore script)))
    ∧ isLoading st' = false
    ∧ (rejected script = true → EvSetChatHistory WriteError ∈ trace st').
Proof.
  intros Hplain Hcalm Hready Hprompt. pose proof Hplain as [Htoggles Hmodel].
  destruct (send_starts_running revision cfg script prompt attachments st id
              (plainChat_sendable revision cfg prompt attachments Hplain Hprompt) Hready)
    as (st1 & messagesForApi & -> & [Hsteady _] & _).
  replace (textOfResponseOf revision cfg)
    with (match revision with FirstRevision => true | SecondRevision => false end)
    by (destruct revision; simpl; by rewrite ?Htoggles).
  destruct revision.
  - apply (runRequest_plain FirstRevision cfg script (requestA cfg id)); try done;
      simpl; by rewrite Htoggles.
  - apply (runRequest_plain SecondRevision cfg script (requestB cfg id)); try done;
      simpl; by rewrite Htoggles.
Qed.

(** X18. A plain chat send whose stream runs to its end leaves the text of
    the stream on the trailing message: the second revision all of it, the
    first revision the text of the last chunk alone when that chunk has
    one. *)
Theorem completed_stream_shows_its_text
  (revision : Revision) (cfg : Settings) (script : Script) (prompt : string)
  (attachments : list Attachment) (st : State) (id : string) :
  plainChat cfg → unstopped script → rejectsAt script = None →
  ready revision Date_now st id → Js.truthy (Js.trim prompt) = true →
  ∃ st',
    handleSendMessage revision JSON_parse Date_now cfg script prompt attachments st
    = (Returned, st')
    ∧ trailingContent id st' = Some (shownText (finalText revision (chunks script)))
    ∧ isLoading st' = false.
Proof.
  intros Hplain Hcalm Hnone Hready Hprompt.
  destruct (send_plain_chat revision cfg script prompt attachments st id
              Hplain Hcalm Hready Hprompt) as (st' & Hrun & Hcontent & Hload & _).
  exists st'. split; [exact Hrun|]. split; [|exact Hload].
  rewrite Hcontent. unfold receivedBefore. by rewrite Hnone.
Qed.

(** X19. When the adapter fails and nobody pressed stop, the error notice
    that the catch clause writes does not stay: finalization replaces it by
    the text received before the failure. *)
Theorem failed_request_shows_received_text
  (revision : Revision) (cfg : Settings) (script : Script) (prompt : string)
  (attachments : list Attachment) (st : State) (id : string) (k : nat) :
  plainChat cfg → unstopped script →
  rejectsAt script = Some k → k ≤ S (length (chunks script)) →
  ready revision Date_now st id → Js.truthy (Js.trim prompt) = true →
  ∃ st',
    handleSendMessage revision JSON_parse Date_now cfg script prompt attachments st
    = (Returned, st')
    ∧ EvSetChatHistory WriteError ∈ trace st'
    ∧ trailingContent id st'
      = Some (shownText (finalText revision (take (k - 1) (chunks script))))
    ∧ isLoading st' = false.
Proof.
  intros Hplain Hcalm Hk Hreached Hready Hprompt.
  destruct (send_plain_chat revision cfg script prompt attachments st id
              Hplain Hcalm Hready Hprompt) as (st' & Hrun & Hcontent & Hload & Hwrite).
  exists st'. split; [exact Hrun|]. split; [|split; [|exact Hload]].
  - apply Hwrite. unfold rejected. rewrite Hk. by apply Nat.leb_le.
  - rewrite Hcontent. unfold receivedBefore. by rewrite Hk.
Qed.

(** *** Image generation *)

Lemma generateImage_unstopped (script : Script) (st : State) :
  unstopped script → signalAborted st = false →
  generateImage script st
  = if bool_decide (rejectsAt script = Some 0)
    then (inl OtherError, (console "Error generating image:" st).2)
    else (inr (imageResponse script), st).
Proof.
  intros Hcalm Hsig. unfold generateImage, generateImageTry.
  unfold mbind, M_bind, get. rewrite Hsig, (await_unstopped _ _ _ Hcalm).
  destruct (bool_decide (rejectsAt script = Some 0)); simpl.
  - reflexivity.
  - by rewrite Hsig.
Qed.

Lemma inlineOf_images (images : list string) :
  PartsSpec.inlineOf (map (λ bytes, mkPart None (Some (mkInline "image/png" bytes))) images)
  = map (mkInline "image/png") images.
Proof. induction images as [|bytes images IH]; [done|]. simpl. by rewrite <- IH. Qed.

Lemma mediaPart_content (parts : list Part) :
  ∀ acc, Forall (λ part, part_text part = None) parts →
         (fold_left (mediaPart Date_now) parts acc).1 = acc.1.
Proof.
  induction parts as [|part parts IH]; intros [text atts] Hall; [done|].
  apply Forall_cons in Hall as [Hnone Hall]. simpl. rewrite Hnone. simpl.
  destruct (part_inlineData part); by rewrite IH.
Qed.

Lemma image_parts_carry_no_text (images : list string) :
  Forall (λ part, part_text part = None)
    (map (λ bytes, mkPart None (Some (mkInline "image/png" bytes))) images).
Proof. induction images; by constructor. Qed.

Lemma mediaBranch_images (c : Closure) (m : ChatMessage) (images : list string) :
  Finalize.isVideoRequest c = false → Finalize.fullResponseText c = EmptyString →
  Finalize.finalParts c
  = map (λ bytes, mkPart None (Some (mkInline "image/png" bytes))) images →
  msg_content (mediaBranch Date_now c m) = EmptyString
  ∧ msg_attachments (mediaBranch Date_now c m)
    = Some (map (λ bytes, generatedAttachment Date_now (mkInline "image/png" bytes)) images)
  ∧ msg_role (mediaBranch Date_now c m) = msg_role m.
Proof.
  intros Hvid Htext Hparts. split; [|split].
  - unfold mediaBranch. rewrite Hparts, Htext, Hvid.
    pose proof (mediaPart_content _ (EmptyString, [])
                  (image_parts_carry_no_text images)) as Hfold.
    destruct images as [|bytes images]; [done|].
    destruct (fold_left _ _ _) as [finalContent finalAttachments].
    simpl in Hfold. by rewrite Hfold.
  - rewrite ServiceFacts.mediaBranch_attachments, Hparts, inlineOf_images.
    by rewrite <- list_fmap_compose.
  - unfold mediaBranch. by destruct (match Finalize.finalParts c with [] => _ | _ => _ end).
Qed.

Lemma runRequest_unfold
  (cfg : Settings) (script : Script) (rq : Request) (videoModel : Model)
  (textOfResponse : bool) (prompt : string) (attachments : list Attachment)
  (messagesForApi : list ChatMessage) (st : State) :
  runRequest JSON_parse Date_now cfg script rq videoModel textOfResponse
    prompt attachments messagesForApi st
  = let '(thrown, l, st1) :=
      tryBlock cfg script rq videoModel prompt attachments messagesForApi st in
    (Returned,
     (finallyBlock JSON_parse Date_now cfg rq textOfResponse l
        (catchBlock rq thrown st1).2).2).
Proof.
  unfold runRequest, mbind, M_bind, mret, M_ret.
  destruct (tryBlock _ _ _ _ _ _ _ st) as [[thrown l] st1].
  destruct (catchBlock rq thrown st1) as [[] st2]. simpl.
  by destruct (finallyBlock _ _ _ _ _ l st2) as [[] st3].
Qed.

Lemma tryBlock_image
  (cfg : Settings) (script : Script) (rq : Request) (videoModel : Model)
  (prompt : string) (attachments : list Attachment) (messagesForApi : list ChatMessage)
  (st : State) :
  isImageRequest rq = true → isTextToImageModel (activeBaseModel cfg) = true →
  tryBlock cfg script rq videoModel prompt attachments messagesForApi st
  = let '(r, st1) :=
      generateImage script
        (emit (EvAdapterCall (CallGenerateImage prompt (modelForApi cfg))) st).2 in
    match r with
    | inl thrown => (Some thrown, initialLocals, st1)
    | inr resp =>
        (None, mkLocals EmptyString [] [] (Some resp), (emit (EvObserved resp) st1).2)
    end.
Proof.
  intros Himg Hmodel. unfold tryBlock. rewrite Himg, Hmodel. simpl.
  unfold mbind, M_bind, emit. simpl.
  by destruct (generateImage script _) as [[thrown|resp] st1].
Qed.

(** X20. A text-to-image send that nobody stops and that does not fail ends
    with one PNG attachment for each generated image, in order, and with no
    text. *)
Theorem generated_images_are_attached
  (revision : Revision) (cfg : Settings) (script : Script) (prompt : string)
  (st : State) (id : string) :
  imageGeneration cfg → unstopped script → rejectsAt script ≠ Some 0 →
  ready revision Date_now st id → Js.truthy (Js.trim prompt) = true →
  ∃ st' m,
    handleSendMessage revision JSON_parse Date_now cfg script prompt [] st = (Returned, st')
    ∧ trailingMessage id st' = Some m
    ∧ msg_content m = EmptyString
    ∧ msg_attachments m
      = Some (map (λ bytes, generatedAttachment Date_now (mkInline "image/png" bytes))
                  (images script))
    ∧ msg_isThinking m = Some false
    ∧ isLoading st' = false.
Proof.
  intros [Htoggles Hmodel] Hcalm Hok Hready Hprompt.
  assert (sendable revision cfg prompt []) as Hsendable.
  { unfold sendable. rewrite Htoggles. simpl. rewrite !andb_false_r.
    repeat split; try done. destruct revision; [done|].
    by destruct (activeBaseModel cfg) as [[]|]. }
  destruct (send_starts_running revision cfg script prompt [] st id Hsendable Hready)
    as (st1 & messagesForApi & -> & [[Hsig (chat & m & Hfind & Hlast & Hrole)] _] & _).
  assert (isImageRequest (requestOf revision cfg id) = true
          ∧ isVideoRequest (requestOf revision cfg id) = false
          ∧ currentChatId (requestOf revision cfg id) = id) as (Himg & Hvid & Hid).
  { destruct revision; simpl; by rewrite Htoggles. }
  rewrite runRequest_unfold, tryBlock_image by done.
  rewrite generateImage_unstopped by done.
  rewrite bool_decide_eq_false_2 by done. cbv beta iota zeta.
  change (catchBlock (requestOf revision cfg id) None ?s) with (tt, s).
  match goal with
  | |- context [finallyBlock _ _ _ _ ?flag ?l ?sta] =>
      destruct (SendFacts.finallyBlock_not_aborted JSON_parse Date_now cfg
                  (requestOf revision cfg id) flag l sta Hsig)
        as (st' & Hfin & _ & Hload & Hhist)
  end.
  rewrite Hfin.
  change (chatHistory (tt, (emit _ (emit _ st1).2).2).2) with (chatHistory st1) in Hhist.
  match type of Hhist with
  | _ = (finalWrite _ _ ?c _ ?r _).1.1 => set (cl := c) in *; set (realm := r) in *
  end.
  destruct (finalUpdater_model JSON_parse Date_now realm cl chat m Hlast Hrole)
    as (updatedMsg & effects & Hshape & _ & Hbranch).
  destruct (mediaBranch_images cl m (images script)) as (Hcontent & Hatts & _).
  { exact Hvid. }
  { subst cl. simpl. unfold settleLocals. simpl.
    by destruct (textOfResponseOf revision cfg). }
  { reflexivity. }
  assert (Finalize.isImageRequest cl = true) as Himg' by exact Himg.
  rewrite Himg' in Hbranch. simpl in Hbranch. injection Hbranch as -> ->.
  exists st', (withIsThinking (attachGrounding cl (mediaBranch Date_now cl m)) false).
  split; [reflexivity|].
  split; [|split; [|split; [|split; [|exact Hload]]]].
  - unfold trailingMessage. rewrite Hhist. unfold finalWrite.
    rewrite Hid, findChat_mapChatWith, Hfind by (intros ??; apply chat_id_finalUpdater).
    simpl. rewrite Hshape. simpl fst. apply last_replaceLast.
  - simpl. by destruct (attachGrounding_fields cl (mediaBranch Date_now cl m)) as (-> & _).
  - simpl. by rewrite <- Hatts.
  - reflexivity.
Qed.

(** *** A stop while the images are generated *)

Lemma handleStopGeneration_running (id : string) (st : State) :
  running id st →
  (handleStopGeneration st).2
  = mkState (mapChat id (stopUpdater true) (chatHistory st)) (Some id) false false true
      (trace st ++ [EvSetIsLoading false; EvSetChatHistory WriteStopped])
      (objectPrototype st).
Proof.
  intros (_ & Hload & Hactive & Href).
  unfold handleStopGeneration, get, abortCurrent, setIsLoading, setChatHistory,
    mbind, M_bind, mret, M_ret.
  simpl. rewrite Href. simpl. rewrite Hactive, Hload. by rewrite <- app_assoc.
Qed.

Lemma tailKeeping_stopUpdater : tailKeeping (stopUpdater true).
Proof.
  split.
  - intros chat. unfold stopUpdater.
    destruct (last (chat_messages chat)) as [m|]; [|done]. by destruct (msg_role m).
  - intros chat m Hlast Hrole. unfold stopUpdater. rewrite Hlast, Hrole.
    eexists. split; [apply last_replaceLast|done].
Qed.

Lemma generateImage_stopped (script : Script) (st : State) (id : string) :
  stopAt script = Some 0 → rejectsAt script = None → running id st →
  generateImage script st
  = (inl AbortError, (console "Image generation aborted." (handleStopGeneration st).2).2).
Proof.
  intros Hstop Hok Hrun. pose proof Hrun as ([Hsig _] & _).
  pose proof (handleStopGeneration_running id st Hrun) as Hstopped.
  unfold generateImage, generateImageTry.
  unfold mbind, M_bind, get, await. rewrite Hsig, Hstop, Hok. simpl.
  unfold mbind, M_bind.
  destruct (handleStopGeneration st) as [[] st2]. simpl in *. subst st2. reflexivity.
Qed.

(** X21. A stop pressed while the images are generated leaves the stopped
    notice on the trailing message: the response is not observed and nothing
    is finalized. *)
Theorem stopped_image_generation_keeps_notice
  (revision : Revision) (cfg : Settings) (script : Script) (prompt : string)
  (st : State) (id : string) :
  imageGeneration cfg → stopAt script = Some 0 → rejectsAt script = None →
  ready revision Date_now st id → Js.truthy (Js.trim prompt) = true →
  ∃ st' added,
    handleSendMessage revision JSON_parse Date_now cfg script prompt [] st = (Returned, st')
    ∧ trailingContent id st' = Some stoppedNotice
    ∧ isLoading st' = false
    ∧ trace st' = trace st ++ added
    ∧ forallb (λ e, negb (isObservation e) && negb (isFinalWrite e)) added = true.
Proof.
  intros [Htoggles Hmodel] Hstop Hok Hready Hprompt.
  assert (sendable revision cfg prompt []) as Hsendable.
  { unfold sendable. rewrite Htoggles. simpl. rewrite !andb_false_r.
    repeat split; try done. destruct revision; [done|].
    by destruct (activeBaseModel cfg) as [[]|]. }
  destruct (send_starts_running revision cfg script prompt [] st id Hsendable Hready)
    as (st1 & messagesForApi & -> & Hrunning & Htrace).
  assert (isImageRequest (requestOf revision cfg id) = true) as Himg.
  { destruct revision; simpl; by rewrite Htoggles. }
  rewrite runRequest_unfold, tryBlock_image by done.
  assert (running id
            (emit (EvAdapterCall (CallGenerateImage prompt (modelForApi cfg))) st1).2)
    as Hrunning'.
  { destruct Hrunning as ([Hsig (chat & m & H)] & H2). repeat split; try apply H2; try done.
    by exists chat, m. }
  rewrite (generateImage_stopped script _ id Hstop Hok Hrunning').
  rewrite (handleStopGeneration_running id _ Hrunning').
  cbv beta iota zeta. simpl.
  eexists _, _. split; [reflexivity|]. simpl.
  destruct Hrunning as ([_ (chat & m & Hfind & Hlast & Hrole)] & _).
  split; [|split; [done|split]].
  - unfold trailingContent. simpl.
    rewrite findChat_mapChat, Hfind by apply tailKeeping_stopUpdater.
    simpl. unfold stopUpdater. rewrite Hlast, Hrole. simpl.
    by rewrite last_snoc.
  - rewrite Htrace. rewrite <- !app_assoc. reflexivity.
  - rewrite !forallb_app. simpl. rewrite !andb_true_r.
    by destruct revision, (activeChatId st).
Qed.

(** *** A video request that is refused *)

Lemma generateVideo_refused (script : Script) (st : State) :
  unstopped script → rejectsAt script = Some 0 → signalAborted st = false →
  generateVideo script st = (inl OtherError, (console "Error generating video:" st).2).
Proof.
  intros Hcalm Hrej Hsig. unfold generateVideo, generateVideoTry.
  unfold mbind at 1. unfold M_bind at 1.
  unfold mbind at 1. unfold M_bind at 1. unfold get at 1.
  rewrite Hsig. unfold mbind at 1. unfold M_bind at 1.
  rewrite (await_unstopped _ _ _ Hcalm), Hrej.
  rewrite bool_decide_eq_true_2 by done. reflexivity.
Qed.

Lemma tryBlock_video
  (cfg : Settings) (script : Script) (rq : Request) (videoModel : Model)
  (prompt : string) (attachments : list Attachment) (messagesForApi : list ChatMessage)
  (st : State) :
  isImageRequest rq = false → isVideoRequest rq = true →
  tryBlock cfg script rq videoModel prompt attachments messagesForApi st
  = let '(r, st1) :=
      generateVideo script
        (emit (EvAdapterCall (CallGenerateVideo prompt attachments videoModel)) st).2 in
    match r with
    | inl thrown => (Some thrown, initialLocals, st1)
    | inr resp =>
        (None, mkLocals EmptyString [] [] (Some resp), (emit (EvObserved resp) st1).2)
    end.
Proof.
  intros Himg Hvid. unfold tryBlock. rewrite Himg, Hvid. simpl.
  unfold mbind, M_bind, emit. simpl.
  by destruct (generateVideo script _) as [[thrown|resp] st1].
Qed.

(** X22. When the request for a video is refused and nobody pressed stop,
    the error notice does not stay either: finalization stores the sentence
    that announces a video, with no attachment. *)
Theorem refused_video_request_announces_a_video
  (revision : Revision) (cfg : Settings) (script : Script) (prompt : string)
  (attachments : list Attachment) (st : State) (id : string) :
  videoGeneration cfg → unstopped script → rejectsAt script = Some 0 →
  ready revision Date_now st id → Js.truthy (Js.trim prompt) = true →
  ∃ st' m,
    handleSendMessage revision JSON_parse Date_now cfg script prompt attachments st
    = (Returned, st')
    ∧ EvSetChatHistory WriteError ∈ trace st'
    ∧ trailingMessage id st' = Some m
    ∧ msg_content m = "Here is your generated video."
    ∧ msg_attachments m = Some []
    ∧ isLoading st' = false.
Proof.
  intros Htoggles Hcalm Hrej Hready Hprompt.
  assert (sendable revision cfg prompt attachments) as Hsendable.
  { unfold sendable. rewrite Htoggles. simpl. by destruct revision. }
  destruct (send_starts_running revision cfg script prompt attachments st id
              Hsendable Hready)
    as (st1 & messagesForApi & -> & [[Hsig Hwait] _] & _).
  assert (isImageRequest (requestOf revision cfg id) = false
          ∧ isVideoRequest (requestOf revision cfg id) = true
          ∧ currentChatId (requestOf revision cfg id) = id) as (Himg & Hvid & Hid).
  { destruct revision; simpl; by rewrite Htoggles. }
  rewrite runRequest_unfold, tryBlock_video by done.
  rewrite generateVideo_refused by done. cbv beta iota zeta.
  match goal with
  | |- context [catchBlock ?rq (Some OtherError) ?sta] =>
      assert (steady id sta) as Hsteady;
      [|destruct (catchBlock_steady rq true sta) as [Hsteady2 Hwrite];
        [by rewrite Hid|rewrite Hid in Hsteady2]]
  end.
  { split; [exact Hsig|]. destruct Hwait as (chat & m & H). by exists chat, m. }
  simpl (if true then _ else _) in *.
  destruct Hsteady2 as [Hsig2 (chat & m & Hfind & Hlast & Hrole)].
  match goal with
  | |- context [finallyBlock _ _ _ _ ?flag ?l ?sta] =>
      destruct (SendFacts.finallyBlock_not_aborted JSON_parse Date_now cfg
                  (requestOf revision cfg id) flag l sta Hsig2)
        as (st' & Hfin & Htrace & Hload & Hhist)
  end.
  rewrite Hfin.
  match type of Hhist with
  | _ = (finalWrite _ _ ?c _ ?r _).1.1 => set (cl := c) in *; set (realm := r) in *
  end.
  destruct (finalUpdater_model JSON_parse Date_now realm cl chat m Hlast Hrole)
    as (updatedMsg & effects & Hshape & _ & Hbranch).
  assert (Finalize.isVideoRequest cl = true) as Hvid' by exact Hvid.
  rewrite Hvid', orb_true_r in Hbranch. injection Hbranch as -> ->.
  exists st', (withIsThinking (attachGrounding cl (mediaBranch Date_now cl m)) false).
  split; [reflexivity|].
  split; [|split; [|split; [|split; [|exact Hload]]]].
  - rewrite Htrace. apply elem_of_app. left. by apply Hwrite.
  - unfold trailingMessage. rewrite Hhist. unfold finalWrite.
    rewrite Hid, findChat_mapChatWith, Hfind by (intros ??; apply chat_id_finalUpdater).
    simpl. rewrite Hshape. simpl fst. apply last_replaceLast.
  - change (msg_content (attachGrounding cl (mediaBranch Date_now cl m))
            = "Here is your generated video.").
    destruct (attachGrounding_fields cl (mediaBranch Date_now cl m)) as (-> & _).
    unfold mediaBranch. subst cl. simpl. by rewrite Hvid.
  - change (msg_attachments (attachGrounding cl (mediaBranch Date_now cl m)) = Some []).
    unfold attachGrounding. by destruct (Finalize.groundingChunks cl).
Qed.

Lemma stopUpdater_idle (chat : ChatSession) : stopUpdater false chat = chat.
Proof.
  unfold stopUpdater. destruct (last (chat_messages chat)) as [m|]; [|done].
  by destruct (msg_role m).
Qed.

Lemma mapChat_idle (id : string) (history : list ChatSession) :
  mapChat id (stopUpdater false) history = history.
Proof.
  unfold mapChat. rewrite <- (map_id history) at 2. apply map_ext.
  intros chat. rewrite stopUpdater_idle. by destruct (String.eqb _ _).
Qed.

(** X23. Pressed while nothing is loading, stop changes no session; it
    leaves the loading flag cleared and no controller. *)
Theorem idle_stop_changes_no_session (st : State) :
  isLoading st = false →
  chatHistory (handleStopGeneration st).2 = chatHistory st
  ∧ isLoading (handleStopGeneration st).2 = false
  ∧ abortControllerRef (handleStopGeneration st).2 = false.
Proof.
  intros Hload.
  unfold handleStopGeneration, get, abortCurrent, setIsLoading, setChatHistory,
    mbind, M_bind, mret, M_ret.
  rewrite Hload.
  destruct (abortControllerRef st) eqn:Href; destruct (activeChatId st) as [id|]; simpl;
    rewrite ?mapChat_idle; done.
Qed.

End Handlers.

Import SendExamples StreamExamples.

Lemma returned_send_clears_loading_witness :
  isLoading
    (handleSendMessage FirstRevision JSON_parse_examples "0" chatSettings
       (hiThere (Some 2)) "Hello" [] emptyScreen).2
  = false.
Proof.
  apply (returned_send_clears_loading JSON_parse_examples "0" FirstRevision chatSettings
           (hiThere (Some 2)) "Hello" [] emptyScreen).
  - reflexivity.
  - vm_compute. reflexivity.
Defined.

(** The answer stands behind a thinking block and a no-break space. *)
Lemma completed_stream_shows_its_text_witness :
  ∃ st',
    handleSendMessage SecondRevision JSON_parse_examples "0" chatSettings thinkingThenSpaced
      "Hello" [] openSession = (Returned, st')
    ∧ trailingContent "1" st' = Some "x"
    ∧ isLoading st' = false.
Proof.
  apply (completed_stream_shows_its_text JSON_parse_examples "0" SecondRevision
           chatSettings thinkingThenSpaced "Hello" [] openSession "1").
  - split; reflexivity.
  - reflexivity.
  - reflexivity.
  - repeat split; try reflexivity. by eexists.
  - reflexivity.
Defined.

Lemma failed_request_shows_received_text_witness :
  ∃ st',
    handleSendMessage FirstRevision JSON_parse_examples "0" chatSettings spacedThenFails
      "Hello" [] emptyScreen = (Returned, st')
    ∧ EvSetChatHistory WriteError ∈ trace st'
    ∧ trailingContent "0" st' = Some "x"
    ∧ isLoading st' = false.
Proof.
  apply (failed_request_shows_received_text JSON_parse_examples "0" FirstRevision
           chatSettings spacedThenFails "Hello" [] emptyScreen "0" 2).
  - split; reflexivity.
  - reflexivity.
  - reflexivity.
  - simpl. lia.
  - repeat split; try reflexivity. by left.
  - reflexivity.
Defined.

Lemma generated_images_are_attached_witness :
  ∃ st' m,
    handleSendMessage FirstRevision JSON_parse_examples "0" imageSettings (twoImages None)
      "a red kite" [] emptyScreen = (Returned, st')
    ∧ trailingMessage "0" st' = Some m
    ∧ msg_content m = EmptyString
    ∧ msg_attachments m
      = Some [mkAttachment "generated-image-0" "image/png"
                "data:image/png;base64,iVBORw0KGgo=";
              mkAttachment "generated-image-0" "image/png"
                "data:image/png;base64,R0lGODlh"]
    ∧ msg_isThinking m = Some false
    ∧ isLoading st' = false.
Proof.
  apply (generated_images_are_attached JSON_parse_examples "0" FirstRevision
           imageSettings (twoImages None) "a red kite" emptyScreen "0").
  - split; reflexivity.
  - reflexivity.
  - discriminate.
  - repeat split; try reflexivity. by left.
  - reflexivity.
Defined.

Lemma stopped_image_generation_keeps_notice_witness :
  ∃ st' added,
    handleSendMessage SecondRevision JSON_parse_examples "0" imageSettings
      (twoImages (Some 0)) "a red kite" [] openSession = (Returned, st')
    ∧ trailingContent "1" st' = Some stoppedNotice
    ∧ isLoading st' = false
    ∧ trace st' = trace openSession ++ added
    ∧ forallb (λ e, negb (isObservation e) && negb (isFinalWrite e)) added = true.
Proof.
  apply (stopped_image_generation_keeps_notice JSON_parse_examples "0" SecondRevision
           imageSettings (twoImages (Some 0)) "a red kite" openSession "1").
  - split; reflexivity.
  - reflexivity.
  - reflexivity.
  - repeat split; try reflexivity. by eexists.
  - reflexivity.
Defined.

Lemma refused_video_request_announces_a_video_witness :
  ∃ st' m,
    handleSendMessage FirstRevision JSON_parse_examples "0" videoSettings videoRefused
      "a kite in the wind" [] emptyScreen = (Returned, st')
    ∧ EvSetChatHistory WriteError ∈ trace st'
    ∧ trailingMessage "0" st' = Some m
    ∧ msg_content m = "Here is your generated video."
    ∧ msg_attachments m = Some []
    ∧ isLoading st' = false.
Proof.
  apply (refused_video_request_announces_a_video JSON_parse_examples "0" FirstRevision
           videoSettings videoRefused "a kite in the wind" [] emptyScreen "0").
  - reflexivity.
  - reflexivity.
  - reflexivity.
  - repeat split; try reflexivity. by left.
  - reflexivity.
Defined.

Lemma idle_stop_changes_no_session_witness :
  chatHistory (handleStopGeneration openSession).2 = chatHistory openSession
  ∧ isLoading (handleStopGeneration openSession).2 = false
  ∧ abortControllerRef (handleStopGeneration openSession).2 = false.
Proof. apply idle_stop_changes_no_session. reflexivity. Defined.

End StreamFacts.
(** ** Titles of new sessions *)

Module TitleFacts.
Import Send JsFacts.

Lemma units_le (a : Ascii.ascii) : Js.units a ≤ 2.
Proof.
  unfold Js.units. destruct (_ <? 128); [lia|].
  destruct (_ <? 192); [lia|]. destruct (_ <? 240); lia.
Qed.

Lemma length_units_append (a b : string) :
  Js.length (a +:+ b) = Js.length a + Js.length b.
Proof.
  induction a as [|x a IH]; [reflexivity|].
  rewrite append_cons. simpl. rewrite IH. lia.
Qed.

Lemma length_highSurrogate (s : string) : Js.length (Js.highSurrogate s) = 1.
Proof.
  unfold Js.highSurrogate.
  set (w := (_ + 15) mod 16). set (z := Js.byteAt 1 s mod 16).
  set (y := (Js.byteAt 2 s / 16) mod 4).
  assert (w < 16) by (apply Nat.mod_upper_bound; lia).
  assert (z < 16) by (apply Nat.mod_upper_bound; lia).
  assert (y < 4) by (apply Nat.mod_upper_bound; lia).
  cbn [Js.bytes fold_right Js.length]. unfold Js.units.
  rewrite !Ascii.nat_ascii_embedding by lia.
  change (237 <? 128) with false. change (237 <? 192) with false.
  change (237 <? 240) with true.
  replace (160 + w <? 128) with false by (symmetry; apply Nat.ltb_ge; lia).
  replace (160 + w <? 192) with true by (symmetry; apply Nat.ltb_lt; lia).
  replace (128 + z * 4 + y <? 128) with false by (symmetry; apply Nat.ltb_ge; lia).
  replace (128 + z * 4 + y <? 192) with true by (symmetry; apply Nat.ltb_lt; lia).
  reflexivity.
Qed.

Lemma substringTo_unfold (n : nat) (s : string) :
  Js.substringTo n s
  = match s with
    | EmptyString => EmptyString
    | String a rest =>
        match Js.units a, n with
        | O, _ => String a (Js.substringTo n rest)
        | _, O => EmptyString
        | 1, S n' => String a (Js.substringTo n' rest)
        | _, 1 => Js.highSurrogate s
        | _, S (S n') => String a (Js.substringTo n' rest)
        end
    end.
Proof. by destruct s. Qed.

(** The cut has [n] code units, or all there are. *)
Lemma length_substringTo (n : nat) (s : string) :
  Js.length (Js.substringTo n s) = n `min` Js.length s.
Proof.
  revert n. induction s as [|a s IH]; intros n; [simpl; lia|].
  rewrite substringTo_unfold. pose proof (units_le a) as Hle.
  cbn [Js.length]. destruct (Js.units a) as [|[|[|u]]] eqn:Hu; [| | |lia].
  - cbn [Js.length]. rewrite Hu, IH. lia.
  - destruct n as [|n]; [simpl; lia|]. cbn [Js.length]. rewrite Hu, IH. lia.
  - destruct n as [|[|n]]; [simpl; lia| |].
    + rewrite length_highSurrogate. lia.
    + cbn [Js.length]. rewrite Hu, IH. lia.
Qed.

Lemma substringTo_all (n : nat) (s : string) :
  Js.length s ≤ n → Js.substringTo n s = s.
Proof.
  revert n. induction s as [|a s IH]; intros n Hlen; [done|].
  rewrite substringTo_unfold. cbn [Js.length] in Hlen. pose proof (units_le a) as Hle.
  destruct (Js.units a) as [|[|[|u]]] eqn:Hu; [| | |lia].
  - by rewrite IH by lia.
  - destruct n as [|n]; [lia|]. by rewrite IH by lia.
  - destruct n as [|[|n]]; [lia..|]. by rewrite IH by lia.
Qed.

(** The cut is a front part of the text, except that a character of two
    code units lying across the end leaves its first unit. *)
Lemma substringTo_front (n : nat) (s : string) :
  ∃ front rest,
    s = front +:+ rest
    ∧ (Js.substringTo n s = front
       ∨ (Js.substringTo n s = front +:+ Js.highSurrogate rest
          ∧ S (Js.length front) = n ∧ n < Js.length s)).
Proof.
  revert n. induction s as [|a s IH]; intros n.
  { exists EmptyString, EmptyString. split; [done|]. by left. }
  rewrite substringTo_unfold. pose proof (units_le a) as Hle.
  assert (∀ m, n = m + Js.units a →
            ∃ front rest,
              String a s = front +:+ rest
              ∧ (String a (Js.substringTo m s) = front
                 ∨ (String a (Js.substringTo m s) = front +:+ Js.highSurrogate rest
                    ∧ S (Js.length front) = n ∧ n < Js.length (String a s)))) as Hstep.
  { intros m Hm. destruct (IH m) as (front & rest & -> & [->|(-> & Hf & Hn)]).
    - exists (String a front), rest. split; [done|]. by left.
    - exists (String a front), rest. split; [done|]. right.
      split; [done|]. cbn [Js.length]. rewrite length_units_append in *. lia. }
  destruct (Js.units a) as [|[|[|u]]] eqn:Hu; [| | |lia].
  - apply Hstep. lia.
  - destruct n as [|n].
    + exists EmptyString, (String a s). split; [done|]. by left.
    + apply Hstep. lia.
  - destruct n as [|[|n]].
    + exists EmptyString, (String a s). split; [done|]. by left.
    + exists EmptyString, (String a s). split; [done|]. right.
      split; [done|]. split; [done|]. cbn [Js.length]. rewrite Hu. lia.
    + apply Hstep. lia.
Qed.

(** X24. The title derived from a prompt has at most 43 UTF-16 code units;
    it is the prompt itself when that has at most 40, and otherwise its
    first 40 code units followed by three dots. The first 40 code units are
    a front part of the prompt, unless a character of two code units lies
    across the cut, of which the first unit is kept. *)
Theorem derivedTitle_is_short (prompt : string) :
  Js.length (derivedTitle prompt) ≤ 43
  ∧ (Js.length prompt ≤ 40 → derivedTitle prompt = prompt)
  ∧ (40 < Js.length prompt →
     ∃ shown front rest,
       derivedTitle prompt = shown +:+ "..."
       ∧ Js.length shown = 40
       ∧ prompt = front +:+ rest
       ∧ (shown = front
          ∨ (shown = front +:+ Js.highSurrogate rest ∧ Js.length front = 39))).
Proof.
  unfold derivedTitle. split; [|split].
  - rewrite length_units_append, length_substringTo.
    destruct (40 <? Js.length prompt);
      change (Js.length "...") with 3; change (Js.length EmptyString) with 0; lia.
  - intros Hlen. rewrite substringTo_all by done.
    replace (40 <? Js.length prompt) with false
      by (symmetry; apply Nat.ltb_ge; lia).
    clear. induction prompt as [|c s IH]; [done|].
    rewrite append_cons. by rewrite IH.
  - intros Hlen. apply Nat.ltb_lt in Hlen as Hlt. rewrite Hlt.
    destruct (substringTo_front 40 prompt) as (front & rest & Heq & Hshape).
    exists (Js.substringTo 40 prompt), front, rest.
    split; [done|]. split; [rewrite length_substringTo; lia|]. split; [done|].
    destruct Hshape as [->|(-> & Hf & _)]; [by left|right]. split; [done|lia].
Qed.

(** Forty-one times the letter e with an acute accent: forty of them and
    three dots. Thirty-nine times the letter a and a character beyond the
    basic plane: the letters, the first code unit of the character and three
    dots. *)
Lemma derivedTitle_beyond_ascii :
  derivedTitle (Js.bytes (concat (replicate 41 [195; 169])))
  = Js.bytes (concat (replicate 40 [195; 169])) +:+ "..."
  ∧ derivedTitle (Js.bytes (replicate 39 97 ++ [240; 159; 152; 128]))
    = Js.bytes (replicate 39 97 ++ [237; 160; 189]) +:+ "...".
Proof. split; vm_compute; reflexivity. Qed.

End TitleFacts.

(** ** The text handed to the JSON parser *)

Module JsonFacts.
Import Finalize TextSpec JsFacts TextFacts ServiceFacts.

Lemma lastIndexOf_app_None (c : Ascii.ascii) (a b : string) :
  Js.lastIndexOf c (a +:+ b) = None
  ↔ Js.lastIndexOf c a = None ∧ Js.lastIndexOf c b = None.
Proof.
  induction a as [|x a IH];
    [rewrite append_nil_l; simpl; split; [by split|by intros [_ ?]]|].
  rewrite append_cons. cbn [Js.lastIndexOf].
  destruct (Js.lastIndexOf c (a +:+ b)) as [i|] eqn:Hab.
  - split; [done|]. intros [Ha Hb].
    destruct (Js.lastIndexOf c a) eqn:Ha'; [done|].
    destruct IH as [_ IH]. by specialize (IH (conj eq_refl Hb)).
  - destruct IH as [IH _]. destruct (IH eq_refl) as [-> Hb].
    split; [by split|by intros [? _]].
Qed.

(** White space holds neither brace. *)
Lemma blank_no_brace (c : Ascii.ascii) (l : string) :
  c = "{"%char ∨ c = "}"%char → blank l → Js.lastIndexOf c l = None.
Proof.
  intros Hc Hl.
  assert (forallb (λ w, bool_decide (Js.lastIndexOf "{" w = None)
                        && bool_decide (Js.lastIndexOf "}" w = None))
            Js.whiteSpace = true) as Hall by (vm_compute; reflexivity).
  rewrite forallb_forall in Hall.
  induction Hl as [|w s Hin Hs IH]; [done|].
  apply lastIndexOf_app_None. split; [|done].
  apply list_elem_of_In in Hin. apply Hall in Hin.
  apply andb_true_iff in Hin as [Ho Hcl].
  apply bool_decide_eq_true_1 in Ho, Hcl. by destruct Hc as [->| ->].
Qed.

Lemma lastIndexOf_hit (c : Ascii.ascii) (a b : string) :
  Js.lastIndexOf c (a +:+ String c b) ≠ None.
Proof.
  intros Hnone. apply lastIndexOf_app_None in Hnone as [_ Hnone]. simpl in Hnone.
  destruct (Js.lastIndexOf c b); [done|]. by rewrite Ascii.eqb_refl in Hnone.
Qed.

(** A text without the needle has no part with the needle. *)
Lemma cut_None_inside (needle l r t : string) :
  Js.cut needle (l +:+ r +:+ t) = None → Js.cut needle r = None.
Proof.
  intros Hnone. destruct (Js.cut needle r) as [[b a]|] eqn:Hr; [|done].
  apply cut_Some in Hr as ->. exfalso.
  apply (cut_None _ _ Hnone (l +:+ b) (a +:+ t)).
  by rewrite !append_assoc.
Qed.

Lemma append_cancel_l (l a b : string) : l +:+ a = l +:+ b → a = b.
Proof.
  intros Heq. apply (f_equal (Js.drop (String.length l))) in Heq.
  by rewrite !drop_append in Heq.
Qed.

(** Trimming a text with an object in it trims what stands before the
    object and what stands behind it. *)
Lemma trim_around_object (before body after : string) :
  Js.cut "{" before = None → Js.lastIndexOf "}" after = None →
  ∃ before' after',
    Js.trim (before +:+ String "{" (body +:+ String "}" after))
    = before' +:+ String "{" (body +:+ String "}" after')
    ∧ Js.cut "{" before' = None ∧ Js.lastIndexOf "}" after' = None.
Proof.
  intros Hb Ha.
  destruct (trim_spec (before +:+ String "{" (body +:+ String "}" after)))
    as (l & t & Hl & Ht & Heq & _).
  set (r := Js.trim _) in *.
  (* the white space in front lies before the first brace *)
  assert (∃ before', before = l +:+ before') as [before' ->].
  { destruct (Nat.le_ge_cases (String.length l) (String.length before)) as [Hle|Hle].
    - destruct (append_eq_le l before _ _ Heq Hle) as (e & -> & _). by exists e.
    - symmetry in Heq. destruct (append_eq_le before l _ _ Heq Hle) as (e & -> & He).
      destruct e as [|x e].
      + exists EmptyString. by rewrite !append_nil_r.
      + rewrite append_cons in He. injection He as <- _.
        exfalso. apply (lastIndexOf_hit "{" before e).
        apply blank_no_brace; [by left|done]. }
  rewrite append_assoc in Heq. apply append_cancel_l in Heq.
  (* the white space behind lies after the last brace *)
  assert (∃ after', after = after' +:+ t) as [after' ->].
  { assert ((before' +:+ String "{" body) +:+ String "}" after = r +:+ t) as Heq'.
    { rewrite <- Heq. by rewrite append_assoc, append_cons. }
    destruct (Nat.le_ge_cases (String.length r)
                (String.length (before' +:+ String "{" body))) as [Hle|Hle].
    - destruct (append_eq_le r _ _ _ Heq' Hle) as (e & _ & He).
      exfalso. apply (lastIndexOf_hit "}" e after). rewrite <- He.
      apply blank_no_brace; [by right|done].
    - symmetry in Heq'. destruct (append_eq_le _ r _ _ Heq' Hle) as (e & Hr & He).
      destruct e as [|x e].
      + rewrite append_nil_l in He. exfalso.
        apply (lastIndexOf_hit "}" EmptyString after). rewrite append_nil_l, He.
        apply blank_no_brace; [by right|done].
      + rewrite append_cons in He. injection He as <- ->. by exists e. }
  exists before', after'. split; [|split].
  - assert (r +:+ t = (before' +:+ String "{" (body +:+ String "}" after')) +:+ t) as Hrt.
    { rewrite <- Heq. by rewrite !append_assoc, !append_cons, append_assoc, append_cons. }
    apply (f_equal String.rev) in Hrt. rewrite !rev_append in Hrt.
    apply append_cancel_l in Hrt. apply (f_equal String.rev) in Hrt.
    by rewrite rev_append, !rev_rev in Hrt.
  - apply (cut_None_inside _ l before' EmptyString). by rewrite append_nil_r.
  - by apply lastIndexOf_app_None in Ha as [Ha _].
Qed.

Lemma lastIndexOf_append (c : Ascii.ascii) (l a : string) :
  Js.lastIndexOf c a = None →
  Js.lastIndexOf c (l +:+ String c a) = Some (String.length l).
Proof.
  intros Ha. induction l as [|d l IH].
  - rewrite append_nil_l. simpl. by rewrite Ha, Ascii.eqb_refl.
  - rewrite append_cons. simpl. by rewrite IH.
Qed.

Lemma substring_skip (p s : string) (n : nat) :
  String.substring (String.length p) n (p +:+ s) = String.substring 0 n s.
Proof.
  induction p as [|c p IH]; [by rewrite append_nil_l|].
  rewrite append_cons. exact IH.
Qed.

Lemma substring_front (x y : string) :
  String.substring 0 (String.length x) (x +:+ y) = x.
Proof.
  induction x as [|c x IH]; [by destruct y|].
  rewrite append_cons. simpl. by rewrite IH.
Qed.

Lemma betweenBraces_object (before body after : string) :
  Js.cut "{" before = None → Js.lastIndexOf "}" after = None →
  betweenBraces (before +:+ String "{" (body +:+ String "}" after))
  = String "{" (body +:+ String "}" EmptyString).
Proof.
  intros Hb Ha. unfold betweenBraces, Js.indexOf.
  rewrite (cut_char_append _ before _ Hb).
  replace (before +:+ String "{" (body +:+ String "}" after))
    with ((before +:+ String "{" body) +:+ String "}" after)
    by (by rewrite append_assoc, append_cons).
  rewrite (lastIndexOf_append _ _ _ Ha), length_append. simpl String.length.
  replace (String.length before <? String.length before + S (String.length body))
    with true by (symmetry; apply Nat.ltb_lt; lia).
  unfold Js.substring.
  replace (String.length before + S (String.length body) + 1 - String.length before)
    with (String.length (String "{" (body +:+ String "}" EmptyString)))
    by (simpl; rewrite length_append; simpl; lia).
  replace ((before +:+ String "{" body) +:+ String "}" after)
    with (before +:+ (String "{" (body +:+ String "}" EmptyString) +:+ after))
    by (by rewrite !append_assoc, !append_cons, append_assoc, append_cons, append_nil_l).
  rewrite substring_skip. apply substring_front.
Qed.

(** X25. When the reply holds no [```json] fence, the text handed to
    [JSON.parse] is the reply from its first opening brace to its last
    closing brace: what stands before the object and behind it is dropped. *)
Theorem cleanedJsonString_extracts_object (before body after : string) :
  Js.indexOf "{" before = None →
  Js.lastIndexOf "}" after = None →
  Js.indexOf fenceOpen (before +:+ "{" +:+ body +:+ "}" +:+ after) = None →
  cleanedJsonString (before +:+ "{" +:+ body +:+ "}" +:+ after)
  = "{" +:+ body +:+ "}".
Proof.
  intros Hb Ha Hfence. apply indexOf_None_cut in Hb, Hfence.
  unfold cleanedJsonString.
  assert (matchJsonFence (Js.trim (before +:+ "{" +:+ body +:+ "}" +:+ after)) = None)
    as ->.
  { unfold matchJsonFence.
    destruct (trim_spec (before +:+ "{" +:+ body +:+ "}" +:+ after))
      as (l & t & _ & _ & Heq & _).
    rewrite Heq in Hfence. by rewrite (cut_None_inside _ _ _ _ Hfence). }
  change ("{" +:+ body +:+ "}" +:+ after) with (String "{" (body +:+ String "}" after)).
  change ("{" +:+ body +:+ "}") with (String "{" (body +:+ String "}" EmptyString)).
  destruct (trim_around_object before body after Hb Ha) as (before' & after' & -> & ? & ?).
  by apply betweenBraces_object.
Qed.

Lemma cleanedJsonString_extracts_object_witness :
  cleanedJsonString ("Here it is: " +:+ "{" +:+ "{}" +:+ "}" +:+ " Done.")
  = "{" +:+ "{}" +:+ "}".
Proof.
  apply (cleanedJsonString_extracts_object "Here it is: " "{}" " Done."); reflexivity.
Defined.

End JsonFacts.
